(** * Beam search decoding: a shallow embedding of
      [module/inference/beam_search.py] and the properties of its
      specification.

    Tensors are lists (a [(rows, cols)] tensor is a list of rows), token
    ids are [Z] (the sentinel id is [-1]), Python exceptions are values of
    [exn], and the floating-point numbers of torch and numpy are an
    abstract ordered type with the operations the code applies to them
    (class [FloatOps]); the laws the proofs rely on are stated in
    [FloatLaws]. *)

From Stdlib Require Import String.
From Stdlib Require Import List ZArith Lia Bool Permutation Sorted.
From Stdlib Require Import QArith Qround.
Import ListNotations.
Close Scope Q_scope.
Open Scope nat_scope.

Set Implicit Arguments.

(* ===================================================================== *)

(** ** Exceptions and the error monad *)
(* ===================================================================== *)

(** The [RuntimeError]s torch raises, by cause. *)
Inductive torch_error : Type :=
| TopkRange      (* topk: selected index k out of range *)
| ShapeInvalid   (* view: shape is invalid for input of size n *)
| SizeMismatch   (* broadcasting / assignment: sizes do not match *)
| EmptySequences. (* pad_sequence: received an empty list of sequences *)

Inductive exn : Type :=
| ZeroDivisionError
| RuntimeError (e : torch_error)
| IndexError
| ValueError
| TypeError
| UnboundLocalError.

Inductive result (A : Type) : Type :=
| Ok (a : A)
| Raise (e : exn).
Arguments Raise {A} e.

Definition bind {A B} (r : result A) (k : A -> result B) : result B :=
  match r with
  | Ok a => k a
  | Raise e => Raise e
  end.

Declare Scope result_scope.
Delimit Scope result_scope with result.
Notation "x <- e ;; k" := (bind e (fun x => k))
  (at level 61, e at next level, right associativity) : result_scope.
Notation "' p <- e ;; k" := (bind e (fun x => match x with p => k end))
  (at level 61, p pattern, e at next level, right associativity) : result_scope.
Open Scope result_scope.

Fixpoint mapM {A B} (f : A -> result B) (l : list A) : result (list B) :=
  match l with
  | [] => Ok []
  | a :: l' => b <- f a ;; bs <- mapM f l' ;; Ok (b :: bs)
  end.

(* ===================================================================== *)

(** ** Python and torch list primitives *)
(* ===================================================================== *)

(** [l[i]] with Python's negative indices. *)
Definition py_get {A} (l : list A) (i : Z) : result A :=
  let n := Z.of_nat (length l) in
  let j := (if i <? 0 then i + n else i)%Z in
  if (j <? 0)%Z then Raise IndexError
  else match nth_error l (Z.to_nat j) with
       | Some a => Ok a
       | None => Raise IndexError
       end.

(** [t[:, j]] of a 2-d tensor. *)
Definition column {A} (t : list (list A)) (j : Z) : result (list A) :=
  mapM (fun row => py_get row j) t.

(** [a // b] on non-negative integers. *)
Definition floordiv (a b : nat) : result nat :=
  if b =? 0 then Raise ZeroDivisionError else Ok (a / b).

Fixpoint zip_with {A B C} (f : A -> B -> C) (l1 : list A) (l2 : list B) : list C :=
  match l1, l2 with
  | a :: l1', b :: l2' => f a b :: zip_with f l1' l2'
  | _, _ => []
  end.

(** [enumerate]. *)
Fixpoint enumerate_from {A} (n : nat) (l : list A) : list (nat * A) :=
  match l with
  | [] => []
  | a :: l' => (n, a) :: enumerate_from (S n) l'
  end.

Definition enumerate {A} (l : list A) : list (nat * A) := enumerate_from 0 l.

(** [n] consecutive rows of width [w] cut from a flat list. *)
Fixpoint chunks {A} (n w : nat) (l : list A) : list (list A) :=
  match n with
  | 0 => []
  | S n' => firstn w l :: chunks n' w (skipn w l)
  end.

(** [t.view(n, -1)] of a tensor whose elements, in row-major order, are [l]. *)
Definition view_rows {A} (n : nat) (l : list A) : result (list (list A)) :=
  if (n =? 0) || negb (length l mod n =? 0) then Raise (RuntimeError ShapeInvalid)
  else Ok (chunks n (length l / n) l).

(** [t.view(n, 1)] succeeds only on a tensor of [n] elements. *)
Definition view_column {A} (n : nat) (l : list A) : result (list A) :=
  if length l =? n then Ok l else Raise (RuntimeError ShapeInvalid).

(** The right-hand side of an assignment [t[:, ...] = x] to [n] rows: [x]
    has [n] rows, or one row that is broadcast. *)
Definition expand_rows {A} (n : nat) (x : list A) : result (list A) :=
  if length x =? n then Ok x
  else match x with
       | [a] => Ok (repeat a n)
       | _ => Raise (RuntimeError SizeMismatch)
       end.

(** [row[i] = v]. *)
Definition set_item {A} (i : nat) (v : A) (row : list A) : result (list A) :=
  if i <? length row then Ok (firstn i row ++ v :: skipn (S i) row)
  else Raise IndexError.

(* ===================================================================== *)

(** ** Floating-point numbers *)
(* ===================================================================== *)

(** The float operations the decoder uses.  [f_1e_100] is the literal
    [1e-100] as the tensor built from it stores it. *)
Class FloatOps : Type := {
  float : Type;
  f_leb : float -> float -> bool;
  f_log : float -> float;
  f_add : float -> float -> float;
  f_div : float -> float -> float;
  f_pow : float -> float -> float;
  f_of_Z : Z -> float;
  f_1e_100 : float
}.

(** NaN-free floats: a total preorder, a monotone logarithm, and
    [log 1 + s = s]. *)
Class FloatLaws (F : FloatOps) : Prop := {
  f_leb_total : forall x y : float, f_leb x y = true \/ f_leb y x = true;
  f_leb_trans : forall x y z : float,
      f_leb x y = true -> f_leb y z = true -> f_leb x z = true;
  f_log_mono : forall x y : float,
      f_leb x y = true -> f_leb (f_log x) (f_log y) = true;
  f_log_one : forall s : float, f_add (f_log (f_of_Z 1)) s = s
}.

(** The stored [1e-100] where it underflows, as in the float32 tensor
    [probs_rep] of line 93, which holds it as 0: its logarithm is minus
    infinity, below every value, and a score added to it leaves it as it
    is. *)
Class SentinelLaws (F : FloatOps) : Prop := {
  f_log_stored_least : forall x : float, f_leb (f_log f_1e_100) x = true;
  f_add_stored : forall s : float, f_add (f_log f_1e_100) s = f_log f_1e_100
}.

(* ===================================================================== *)

(** ** Sorting and top-k selection *)
(* ===================================================================== *)

Section Sorting.
Context {A : Type} (le : A -> A -> bool).

(** Stable insertion: [x] goes before the first [y] with [le x y]. *)
Fixpoint insert_sorted (x : A) (l : list A) : list A :=
  match l with
  | [] => [x]
  | y :: l' => if le x y then x :: l else y :: insert_sorted x l'
  end.

Definition isort (l : list A) : list A := fold_right insert_sorted [] l.
End Sorting.

Section Selection.
Context {F : FloatOps}.

(** Descending order of the values of (value, index) pairs. *)
Definition ge_val (a b : float * nat) : bool := f_leb (fst b) (fst a).
(** Ascending order. *)
Definition le_val (a b : float * nat) : bool := f_leb (fst a) (fst b).

Definition indexed (l : list float) : list (float * nat) :=
  combine l (seq 0 (length l)).

(** [t.topk(k)] on one row: the [k] largest values in descending order
    with their indices; among equal values the lower index comes first. *)
Definition topk (k : nat) (l : list float) : result (list (float * nat)) :=
  if k <=? length l then Ok (firstn k (isort ge_val (indexed l)))
  else Raise (RuntimeError TopkRange).

(** [np.argsort(l)]: indices in ascending order of value (stable). *)
Definition argsort (l : list float) : list nat :=
  map snd (isort le_val (indexed l)).

(** [torch.argmax(l)]: the first index of a largest value; an empty
    reduction dimension is an error. *)
Definition argmax (l : list float) : result nat :=
  match isort ge_val (indexed l) with
  | (_, i) :: _ => Ok i
  | [] => Raise IndexError
  end.
End Selection.

(* ===================================================================== *)

(** ** The decoder object *)
(* ===================================================================== *)

(** Cross-attention of one decoder call: layers, then rows, heads, target
    positions, source positions (the last element of each layer's tuple). *)
Definition attention {F : FloatOps} : Type :=
  list (list (list (list (list float)))).

(** The external sequence model.  [first_step src] is
    [softmax(to_logits(decode(<sos>, encode(src))))[:, -1]]; [decoder src
    prefix] is the softmax of the decoder's output at the last position of
    [prefix], one distribution per row, with the attention weights. *)
Record Model {F : FloatOps} : Type := {
  first_step : list (list Z) -> list (list float);
  decoder : list (list Z) -> list (list Z) -> list (list float) * attention
}.

(** The fields of a [BeamSearch] instance and of its vocabularies. *)
Record BeamSearch {F : FloatOps} : Type := {
  model : Model;
  max_len : nat;
  beam_size : nat;
  _replace_unk : option (Z * Z);
  _length_norm : option float;
  sos_id : Z;           (* TRG.vocab.stoi['<sos>'] *)
  eos_id : Z;           (* TRG.vocab.stoi['<eos>'] *)
  itos : list string    (* TRG.vocab.itos *)
}.

(** What a call does besides computing: model invocations and warnings. *)
Inductive event : Type :=
| EvEncode
| EvDecode (t : nat)
| EvWarn (msg : string).

(** Computations that log events and may raise. *)
Definition M (A : Type) : Type := (list event * result A)%type.

Definition retM {A} (a : A) : M A := ([], Ok a).

Definition bindM {A B} (m : M A) (k : A -> M B) : M B :=
  match m with
  | (ev, Ok a) => let (ev', r) := k a in (ev ++ ev', r)
  | (ev, Raise e) => (ev, Raise e)
  end.

Definition emit (e : event) : M unit := ([e], Ok tt).

Definition lift {A} (r : result A) : M A := ([], r).

Declare Scope M_scope.
Delimit Scope M_scope with M.
Notation "x <~ e ;; k" := (bindM e (fun x => k))
  (at level 61, e at next level, right associativity) : M_scope.
Notation "' p <~ e ;; k" := (bindM e (fun x => match x with p => k end))
  (at level 61, p pattern, e at next level, right associativity) : M_scope.
Open Scope M_scope.

(* ===================================================================== *)

(** ** [compute_k_best] *)
(* ===================================================================== *)

Section StepExpander.
Context {F : FloatOps}.

(** [torch.where] on tensors of [bool], and of values, of one shape. *)
Definition where_ {A} (c : list (list bool)) (a b : list (list A)) : list (list A) :=
  zip_with (fun cr ab => zip_with (fun (cx : bool) (xy : A * A) => if cx then fst xy else snd xy)
                           cr (combine (fst ab) (snd ab)))
           c (combine a b).

(** One row of [torch.log(probs) + log_scores]. *)
Definition log_prob_row (p : list float) (s : float) : list float :=
  map (fun x => f_add (f_log x) s) p.

(** [torch.log(probs) + log_scores], where [log_scores] is a column
    [(s, 1)]: rows are paired, or the side with one row is broadcast. *)
Definition add_log_scores (probs : list (list float)) (log_scores : list float)
  : result (list (list float)) :=
  if length probs =? length log_scores then Ok (zip_with log_prob_row probs log_scores)
  else match log_scores, probs with
       | [s], _ => Ok (map (fun p => log_prob_row p s) probs)
       | _, [p] => Ok (map (fun s => log_prob_row p s) log_scores)
       | _, _ => Raise (RuntimeError SizeMismatch)
       end.

(** One row of [probs_rep] and of [ix_rep]: what a row whose previous
    token is [<eos>] offers in place of its top-k. *)
Definition eos_probs (k : nat) : list float := f_of_Z 1 :: repeat f_1e_100 (k - 1).
Definition eos_ids (k : nat) (eos_id : Z) : list Z := eos_id :: repeat (-1)%Z (k - 1).

(** The score [log(probability) + prior score] of candidate [c] (of
    [k * k]) of batch item [b]: its parent is row [b * k + c / k], its
    slot in the parent's top-k is [c mod k]. *)
Definition candidate (k : nat) (probs : list (list float)) (log_scores : list float)
           (b c : nat) : option float :=
  match nth_error probs (b * k + c / k), nth_error log_scores (b * k + c / k) with
  | Some p, Some s => option_map (fun x => f_add (f_log x) s) (nth_error p (c mod k))
  | _, _ => None
  end.

(** [sel] lists the candidates that batch item [b] keeps: [k] distinct
    candidates of the batch item, in non-increasing order of score, none
    of them beaten by a candidate left out; row [b * k + m] after the
    step takes the score of candidate [sel[m]], the first [i] tokens of
    the candidate's parent row and, at column [i], the candidate's
    token. *)
Definition keeps_top_k (k i : nat) (probs : list (list float)) (ix : list (list Z))
           (log_scores : list float) (outputs outputs' : list (list Z))
           (log_scores' : list float) (b : nat) (sel : list nat) : Prop :=
  length sel = k /\ NoDup sel /\
  (forall c, In c sel -> c < k * k) /\
  (forall m1 m2 c1 c2 s1 s2,
      m1 <= m2 -> nth_error sel m1 = Some c1 -> nth_error sel m2 = Some c2 ->
      candidate k probs log_scores b c1 = Some s1 ->
      candidate k probs log_scores b c2 = Some s2 ->
      f_leb s2 s1 = true) /\
  (forall c c' s s',
      c < k * k -> ~ In c sel -> In c' sel ->
      candidate k probs log_scores b c = Some s ->
      candidate k probs log_scores b c' = Some s' ->
      f_leb s s' = true) /\
  (forall m c, nth_error sel m = Some c ->
      exists parent old irow tok s,
        candidate k probs log_scores b c = Some s /\
        nth_error log_scores' (b * k + m) = Some s /\
        nth_error outputs (b * k + c / k) = Some parent /\
        nth_error outputs (b * k + m) = Some old /\
        nth_error ix (b * k + c / k) = Some irow /\
        nth_error irow (c mod k) = Some tok /\
        nth_error outputs' (b * k + m)
        = Some (firstn i parent ++ tok :: skipn (S i) old)).

(** A row is finished at timestep [i]: its token at column [i - 1] is
    [<eos>]. *)
Definition finished (eos_id : Z) (i : nat) (row : list Z) : Prop :=
  py_get row (Z.of_nat i - 1) = Ok eos_id.

(** Every row of batch item [b] has a first candidate (slot 0) that
    scores strictly higher than candidate [c]. *)
Definition outscored_by_first_slots (k : nat) (probs : list (list float))
           (log_scores : list float) (b c : nat) : Prop :=
  forall q s0 sc,
    q < k ->
    candidate k probs log_scores b (q * k) = Some s0 ->
    candidate k probs log_scores b c = Some sc ->
    f_leb s0 sc = false.

(** The first candidate (slot 0) of each of the [k] rows of batch item
    [b] scores above the logarithm of the stored [1e-100]: above minus
    infinity where [SentinelLaws] hold, as it does when the prior scores
    are finite and the largest probability of a row is positive. *)
Definition first_slots_finite (k : nat) (probs : list (list float))
           (log_scores : list float) (b : nat) : Prop :=
  forall q s0,
    q < k ->
    candidate k probs log_scores b (q * k) = Some s0 ->
    f_leb s0 (f_log f_1e_100) = false.

(** Within every batch item the [k] scores are in non-increasing order. *)
Definition beams_sorted (k : nat) (log_scores : list float) : Prop :=
  forall b j1 j2 s1 s2,
    j1 <= j2 -> j2 < k ->
    nth_error log_scores (b * k + j1) = Some s1 ->
    nth_error log_scores (b * k + j2) = Some s2 ->
    f_leb s2 s1 = true.

(** Lines 87-101: the top-k pairs of every row, with the rows whose
    previous token is [<eos>] overridden. *)
Definition masked_topk (beam_size : nat) (eos_id : Z) (outputs : list (list Z))
           (out : list (list float)) (i : nat)
  : result (list (list float) * list (list Z)) :=
  let row_b := length out in
  _ <- floordiv row_b beam_size ;;
  tk <- mapM (topk beam_size) out ;;
  let probs := map (map fst) tk in
  let ix := map (map (fun vi => Z.of_nat (snd vi))) tk in
  let probs_rep := repeat (eos_probs beam_size) row_b in
  let ix_rep := repeat (eos_ids beam_size eos_id) row_b in
  prev <- column outputs (Z.of_nat i - 1) ;;
  is_eos <- view_column row_b (map (Z.eqb eos_id) prev) ;;
  let check_eos := map (fun b => repeat b beam_size) is_eos in
  Ok (where_ check_eos probs_rep probs, where_ check_eos ix_rep ix).

(** Lines 106-117: the candidates' scores, the top-k of every batch item,
    and the update of [outputs]. *)
Definition select_k_best (beam_size : nat) (outputs : list (list Z)) (row_b : nat)
           (probs : list (list float)) (ix : list (list Z))
           (log_scores : list float) (i : nat)
  : result (list (list Z) * list float) :=
  batch_size <- floordiv row_b beam_size ;;
  log_probs <- add_log_scores probs log_scores ;;
  cands <- view_rows batch_size (concat log_probs) ;;
  k <- mapM (topk beam_size) cands ;;
  let k_probs := map (map fst) k in
  let k_ix := map (map snd) k in
  let row := map (fun vr => map (fun c => c / beam_size + fst vr * beam_size) (snd vr))
                 (enumerate k_ix) in
  let col := map (map (fun c => c mod beam_size)) k_ix in
  (* outputs[:, :i] = outputs[row.view(-1), :i] *)
  parents <- mapM (fun r => py_get outputs (Z.of_nat r)) (concat row) ;;
  parents <- expand_rows (length outputs) parents ;;
  let outputs := zip_with (fun old new => firstn i new ++ skipn i old) outputs parents in
  (* outputs[:, i] = ix[row.view(-1), col.view(-1)] *)
  toks <- mapM (fun rc => r <- py_get ix (Z.of_nat (fst rc)) ;; py_get r (Z.of_nat (snd rc)))
               (combine (concat row) (concat col)) ;;
  toks <- expand_rows (length outputs) toks ;;
  outputs <- mapM (fun rt => set_item i (snd rt) (fst rt)) (combine outputs toks) ;;
  Ok (outputs, concat k_probs).

Definition compute_k_best (beam_size : nat) (eos_id : Z) (outputs : list (list Z))
           (out : list (list float)) (log_scores : list float) (i : nat)
  : result (list (list Z) * list float) :=
  ' (probs, ix) <- masked_topk beam_size eos_id outputs out i ;;
  select_k_best beam_size outputs (length out) probs ix log_scores i.
End StepExpander.

(* ===================================================================== *)

(** ** [init_vars] and the search loop *)
(* ===================================================================== *)

Section Search.
Context {F : FloatOps}.

(** [math.log(p)]: a [ValueError] outside the domain. *)
Definition math_log (p : float) : result float :=
  if f_leb p (f_of_Z 0) then Raise ValueError else Ok (f_log p).

(** [t[:, j] = vals]. *)
Definition set_column (j : nat) (vals : list Z) (t : list (list Z))
  : result (list (list Z)) :=
  vals <- expand_rows (length t) vals ;;
  mapM (fun rv => set_item j (snd rv) (fst rv)) (combine t vals).

Definition init_vars (self : BeamSearch) (src : list (list Z))
  : M (list (list Z) * list float) :=
  let batch_size := length src in
  let row_b := beam_size self * batch_size in
  let init_tok := sos_id self in
  _ <~ emit EvEncode ;;
  _ <~ emit (EvDecode 1) ;;
  let out := first_step (model self) src in
  tk <~ lift (mapM (topk (beam_size self)) out) ;;
  let probs := map (map fst) tk in
  let ix := map (map (fun vi => Z.of_nat (snd vi))) tk in
  log_scores <~ lift (mapM math_log (concat probs)) ;;
  let outputs := repeat (repeat 0%Z (max_len self)) row_b in
  outputs <~ lift (mapM (set_item 0 init_tok) outputs) ;;
  outputs <~ lift (set_column 1 (concat ix) outputs) ;;
  retM (outputs, log_scores).

(** [torch.equal]: same size and same elements. *)
Fixpoint torch_equal (a b : list Z) : bool :=
  match a, b with
  | [], [] => true
  | x :: a', y :: b' => (x =? y)%Z && torch_equal a' b'
  | _, _ => false
  end.

(** One iteration of the loop body up to the update of the state
    (lines 187-192). *)
Definition loop_body (self : BeamSearch) (src : list (list Z)) (i : nat)
           (outputs : list (list Z)) (log_scores : list float)
  : M (list (list Z) * list float * attention) :=
  _ <~ emit (EvDecode i) ;;
  let '(out, attn) := decoder (model self) src (map (firstn i) outputs) in
  ' (outputs, log_scores) <~
    lift (compute_k_best (beam_size self) (eos_id self) outputs out log_scores i) ;;
  retM (outputs, log_scores, attn).

(** The [for] loop of [beam_search] over the timesteps [ts]; [attn] is
    unbound until the body has run once. *)
Fixpoint search_loop (self : BeamSearch) (src : list (list Z)) (is_finished : list Z)
         (ts : list nat) (outputs : list (list Z)) (log_scores : list float)
         (attn : option attention)
  : M (list (list Z) * list float * option attention) :=
  match ts with
  | [] => retM (outputs, log_scores, attn)
  | i :: ts' =>
      ' (outputs, log_scores, attn) <~ loop_body self src i outputs log_scores ;;
      col <~ lift (column outputs (Z.of_nat i)) ;;
      if torch_equal col is_finished then retM (outputs, log_scores, Some attn)
      else search_loop self src is_finished ts' outputs log_scores (Some attn)
  end.

(** Every row has [<eos>] at column [t]. *)
Definition all_rows_eos (eos_id : Z) (t : nat) (outputs : list (list Z)) : Prop :=
  Forall (fun row => nth_error row t = Some eos_id) outputs.

(** [n] iterations of the loop body from timestep [t] on, with no test
    for termination between them. *)
Fixpoint run_steps (self : BeamSearch) (src : list (list Z)) (n t : nat)
         (outputs : list (list Z)) (log_scores : list float) (attn : option attention)
  : M (list (list Z) * list float * option attention) :=
  match n with
  | 0 => retM (outputs, log_scores, attn)
  | S n' =>
      ' (outputs, log_scores, attn) <~ loop_body self src t outputs log_scores ;;
      run_steps self src n' (S t) outputs log_scores (Some attn)
  end.
End Search.

(* ===================================================================== *)

(** ** Trimming, length normalization, unknown-word replacement *)
(* ===================================================================== *)

(** An element of the [batch, beam] object array of translations: a list
    of tokens, or a single string where numpy built a 2-d array of
    strings out of lists of one length. *)
Inductive hypothesis : Type :=
| Tokens (ts : list string)
| Scalar (s : string).

(** The value [beam_search] returns: [translated_sentences[:, 0]] or
    [translated_sentences[:, :n_best]]. *)
Inductive translation : Type :=
| Best (sents : list hypothesis)
| NBest (sents : list (list hypothesis)).

Section PostProcessing.
Context {F : FloatOps}.

(** [np.nonzero(tokens == eos_tok)]: the positions of [eos_tok]. *)
Definition nonzero_eq (tokens : list Z) (eos_tok : Z) : list nat :=
  map fst (filter (fun it => (snd it =? eos_tok)%Z) (enumerate tokens)).

(** The truth value of a numpy integer array: false when empty (numpy
    before 2.2; later versions raise), the element's when it has one
    element, a [ValueError] when it has more. *)
Definition array_bool (a : list nat) : result bool :=
  match a with
  | [] => Ok false
  | [x] => Ok (negb (x =? 0))
  | _ :: _ :: _ => Raise ValueError
  end.

Definition _length (tokens : list Z) (eos_tok : Z) : result nat :=
  let eos := nonzero_eq tokens eos_tok in
  b <- array_bool eos ;;
  if negb b then Ok (length tokens) else Ok (hd 0 eos).

(** [[itos[i] for i in sent[1:_length(sent)]]]. *)
Definition trim_and_itos (self : BeamSearch) (sent : list Z) : result (list string) :=
  n <- _length sent (eos_id self) ;;
  mapM (py_get (itos self)) (skipn 1 (firstn n sent)).

(** [a.reshape((b, k))] of a 1-d array. *)
Definition reshape2 {A} (b k : nat) (a : list A) : result (list (list A)) :=
  if length a =? b * k then Ok (chunks b k a) else Raise ValueError.

(** [prb[ids]]: numpy indexing by an index array. *)
Definition take_indices {A} (prb : list A) (ids : list nat) : result (list A) :=
  mapM (fun j => py_get prb (Z.of_nat j)) ids.

Definition length_normalize (lengths : list (list nat)) (log_probs : list (list float))
           (coff : float) : result (list (list float) * list (list nat)) :=
  let lengths :=
    map (map (fun l => f_pow (f_div (f_of_Z (Z.of_nat l + 5)) (f_of_Z 6)) coff)) lengths in
  let penalized_probs :=
    zip_with (fun ps ls => zip_with f_div ps ls) log_probs lengths in
  let indices := rev (map argsort penalized_probs) in
  reorganized_probs <-
    mapM (fun pi => take_indices (fst pi) (snd pi)) (combine penalized_probs indices) ;;
  Ok (reorganized_probs, indices).

(** The one-character strings of a string (iterating over a [str]).  A
    character of a [string] stands for one code point of the Python
    string: tokens are modelled over an alphabet of 256 characters. *)
Fixpoint chars (s : string) : list string :=
  match s with
  | EmptyString => []
  | String c s' => String c EmptyString :: chars s'
  end.

(** [operator.itemgetter] of the indices [idx] applied to [seq], then
    iterated over: a tuple of the items for two indices or more, the item
    itself (a string) for one index. *)
Definition itemgetter (idx : list nat) (seq : list string) : result (list string) :=
  match idx with
  | [] => Raise TypeError
  | [j] => s <- py_get seq (Z.of_nat j) ;; Ok (chars s)
  | _ => take_indices seq idx
  end.

(** The construction of the [operator.itemgetter] alone, from the
    unpacked indices: Python evaluates it, the callee of line 148, before
    the argument [sentences[bidx // beam_size]], and it needs at least one
    index. *)
Definition itemgetter_args (idx : list nat) : result unit :=
  match idx with
  | [] => Raise TypeError
  | _ :: _ => Ok tt
  end.

Definition same_lengths {A} (rows : list (list A)) : bool :=
  match rows with
  | [] => true
  | r :: rs => forallb (fun r' => length r' =? length r) rs
  end.

(** [np.array(rows)] for lists of strings: a 2-d array of strings when
    the lists have one length, a 1-d array of lists otherwise (numpy
    before 1.24; later versions refuse ragged input).  The elements are
    given in row-major order. *)
Definition np_array (rows : list (list string)) : list hypothesis :=
  if same_lengths rows then map Scalar (concat rows) else map Tokens rows.

Definition replace_token (unknown_token : string) (rpl tok : string) : string :=
  if negb (String.eqb tok unknown_token) then tok else rpl.

(** Lines 133-155 of [replace_unknown]: the list [replaced], one list of
    tokens per hypothesis, before it is packed into an array. *)
Definition replaced_rows (outputs : list (list (list string)))
           (sentences : list (list string)) (attn : attention)
           (selector_tuple : Z * Z) (unknown_token : string)
  : result (list (list string)) :=
  let '(layer_used, head_used) := selector_tuple in
  layer <- py_get attn layer_used ;;
  used_attention <- column layer head_used ;;
  let flattened_outputs := concat outputs in
  select_id_src <- mapM (mapM argmax) used_attention ;;
  beam_size <- floordiv (length select_id_src) (length sentences) ;;
  replace_tokens <-
    mapM (fun bs => _ <- itemgetter_args (snd bs) ;;
                    b <- floordiv (fst bs) beam_size ;;
                    s <- py_get sentences (Z.of_nat b) ;;
                    itemgetter (snd bs) s)
         (enumerate select_id_src) ;;
  Ok (zip_with (fun orig repl => zip_with (replace_token unknown_token) repl orig)
               flattened_outputs replace_tokens).

(** [replace_unknown], on a [batch, beam] array of token lists:
    [np.array(replaced).reshape(outputs.shape)]. *)
Definition replace_unknown (outputs : list (list (list string)))
           (sentences : list (list string)) (attn : attention)
           (selector_tuple : Z * Z) (unknown_token : string)
  : result (list (list hypothesis)) :=
  replaced <- replaced_rows outputs sentences attn selector_tuple unknown_token ;;
  reshape2 (length outputs) (match outputs with [] => 0 | o :: _ => length o end)
           (np_array replaced).

Definition warn_msg : string :=
  "replace_unknown option enabled but no src_tokens supplied for the task. The method will not run.".

(** [replace_unk] as [beam_search] uses it: the argument, or the
    instance's value when the argument is [None]; [None] here stands for
    a false value. *)
Definition effective_replace_unk (self : BeamSearch) (replace_unk : option (option (Z * Z)))
  : option (Z * Z) :=
  match replace_unk with
  | None => _replace_unk self
  | Some v => v
  end.

Definition effective_length_norm (self : BeamSearch) (length_norm : option float)
  : option float :=
  match length_norm with
  | None => _length_norm self
  | Some c => Some c
  end.

(** Lines 214-223. *)
Definition replace_stage (self : BeamSearch) (src_tokens : option (list (list string)))
           (replace_unk : option (option (Z * Z))) (attn : option attention)
           (translated_sentences : list (list (list string)))
  : M (list (list hypothesis)) :=
  match effective_replace_unk self replace_unk with
  | Some sel =>
      match src_tokens with
      | None =>
          _ <~ emit (EvWarn warn_msg) ;;
          retM (map (map Tokens) translated_sentences)
      | Some toks =>
          match attn with
          | None => lift (Raise UnboundLocalError)
          | Some a => lift (replace_unknown translated_sentences toks a sel "<unk>")
          end
      end
  | None => retM (map (map Tokens) translated_sentences)
  end.

(** Lines 225-231. *)
Definition normalize_stage (self : BeamSearch) (length_norm : option float)
           (outputs : list (list (list Z))) (log_scores : list (list float))
           (translated_sentences : list (list hypothesis))
  : result (list (list hypothesis)) :=
  match effective_length_norm self length_norm with
  | Some coff =>
      lengths <- mapM (mapM (fun x => _length x (eos_id self))) outputs ;;
      ' (_, indices) <- length_normalize lengths log_scores coff ;;
      mapM (fun bi => take_indices (fst bi) (snd bi)) (combine translated_sentences indices)
  | None => Ok translated_sentences
  end.

Definition beam_search (self : BeamSearch) (batch : list (list Z))
           (src_tokens : option (list (list string))) (n_best : nat)
           (length_norm : option float) (replace_unk : option (option (Z * Z)))
  : M translation :=
  ' (outputs, log_scores) <~ init_vars self batch ;;
  let eos_tok := eos_id self in
  let is_finished := repeat eos_tok (beam_size self * length batch) in
  ' (outputs, log_scores, attn) <~
    search_loop self batch is_finished (seq 2 (max_len self - 2)) outputs log_scores None ;;
  let batch_size := length batch in
  outputs <~ lift (reshape2 batch_size (beam_size self) outputs) ;;
  log_scores <~ lift (reshape2 batch_size (beam_size self) log_scores) ;;
  translated_sentences <~ lift (mapM (mapM (trim_and_itos self)) outputs) ;;
  translated_sentences <~ replace_stage self src_tokens replace_unk attn translated_sentences ;;
  translated_sentences <~
    lift (normalize_stage self length_norm outputs log_scores translated_sentences) ;;
  if n_best =? 1
  then best <~ lift (mapM (fun beams => py_get beams 0%Z) translated_sentences) ;;
       retM (Best best)
  else retM (NBest (map (firstn n_best) translated_sentences)).
End PostProcessing.

(* ===================================================================== *)

(** ** A computable float model: rationals with a quantised logarithm *)
(* ===================================================================== *)

(** [floor (log2 x)], cut off below at [2^-20]; the logarithm of [1] is
    [0] and the function is monotone. *)
Definition qlog (x : Q) : Q :=
  inject_Z (Z.log2 (Qfloor (x * inject_Z (2 ^ 20))) - 20).

#[export] Instance QFloat : FloatOps := {|
  float := Q;
  f_leb := Qle_bool;
  f_log := qlog;
  f_add := Qplus;
  f_div := Qdiv;
  f_pow := fun x c => Qpower x (Qfloor c);
  f_of_Z := inject_Z;
  f_1e_100 := 0%Q
|}.

(** Rationals with minus infinity ([None]): the logarithm of a value
    that is not positive is minus infinity, minus infinity plus a score is
    minus infinity, and the stored [1e-100] is 0, as float32 holds it. *)
Definition eleb (x y : option Q) : bool :=
  match x, y with
  | None, _ => true
  | Some _, None => false
  | Some a, Some b => Qle_bool a b
  end.

Definition elog (x : option Q) : option Q :=
  match x with
  | Some q => if Qle_bool q 0 then None else Some (qlog q)
  | None => None
  end.

Definition elift2 (f : Q -> Q -> Q) (x y : option Q) : option Q :=
  match x, y with
  | Some a, Some b => Some (f a b)
  | _, _ => None
  end.

Definition EFloat : FloatOps := {|
  float := option Q;
  f_leb := eleb;
  f_log := elog;
  f_add := elift2 Qplus;
  f_div := elift2 Qdiv;
  f_pow := elift2 (fun x c => Qpower x (Qfloor c));
  f_of_Z := fun z => Some (inject_Z z);
  f_1e_100 := Some 0%Q
|}.

(** A toy decoder over the vocabulary [<pad>, <sos>, <eos>, a, b]: the
    first step prefers [a] to [b]; later steps give every row the
    distribution [next last], where [last] is the row's last token.  All
    attention goes to the first source position. *)
Definition toy_model (next : Z -> list Q) : Model := {|
  first_step := fun src => map (fun _ => [0; 0; 1 # 8; 1 # 2; 1 # 4]%Q) src;
  decoder := fun src prefix =>
    (map (fun row => next (last row 0%Z)) prefix,
     [map (fun row => [map (fun _ => [1; 0]%Q) row]) prefix])
|}.

(** After [a] the decoder prefers [<eos>], after another token [a]. *)
Definition next_eos_after_a (last : Z) : list Q :=
  if (last =? 3)%Z then [0; 0; 1 # 2; 1 # 4; 1 # 8]%Q else [0; 0; 1 # 8; 1 # 2; 1 # 4]%Q.

(** After [a] the decoder prefers [b], after another token [<eos>]. *)
Definition next_b_after_a (last : Z) : list Q :=
  if (last =? 3)%Z then [0; 0; 1 # 8; 1 # 4; 1 # 2]%Q
  else [1 # 8; 1 # 8; 1 # 2; 1 # 8; 1 # 8]%Q.

(** The decoder prefers [<eos>] after every token. *)
Definition next_eos (last : Z) : list Q := [1 # 8; 1 # 8; 1 # 2; 1 # 8; 1 # 8]%Q.

Definition toy_decoder (next : Z -> list Q) (max_len beam_size : nat) : BeamSearch := {|
  model := toy_model next;
  max_len := max_len;
  beam_size := beam_size;
  _replace_unk := None;
  _length_norm := None;
  sos_id := 1%Z;
  eos_id := 2%Z;
  itos := ["<pad>"; "<sos>"; "<eos>"; "a"; "b"]%string
|}.

(* ===================================================================== *)
(** ** [preprocess_batch], [_token_to_index], [transl_batch] *)
(* ===================================================================== *)

(** The source side of a [BeamSearch] instance: the tokenizer
    [SRC.preprocess], the mapping [SRC.vocab.stoi] (a mapping with a
    default: every token has an id), the inherited [_token_to_index] of
    [DecodeStrategy], and the flag [_use_synonym]. *)
Record Translator {F : FloatOps} : Type := {
  decoder_of : BeamSearch;
  SRC_preprocess : string -> list string;
  SRC_stoi : string -> Z;
  super_token_to_index : string -> Z;
  _use_synonym : bool
}.

(** The [batch] argument with its [field_processed] flag: raw sentences
    ([field_processed=False]) or a tensor of ids ([field_processed=True]). *)
Inductive batch_input : Type :=
| RawText (sents : list string)
| FieldProcessed (ids : list (list Z)).

(** What [preprocess_batch] returns: the tensor alone for field-processed
    input, otherwise always a pair, [(batch, processed_sent)] or
    [(batch, batch)]: the conditional expression of the [return] binds
    tighter than the comma. *)
Inductive preprocessed : Type :=
| IdsOnly (ids : list (list Z))
| WithTokens (ids : list (list Z)) (processed_sent : list (list string))
| WithIds (ids : list (list Z)) (again : list (list Z)).

(** What [transl_batch] returns: sentences, or the hypotheses as they are. *)
Inductive transl_output : Type :=
| Sentences (sents : list string)
| TokenLists (hyps : list hypothesis).

Section Translate.
Context {F : FloatOps}.

Definition _token_to_index (self : Translator) (tok : string) : Z :=
  if _use_synonym self then super_token_to_index self tok else SRC_stoi self tok.

(** [pad_sequence(seqs, True, padding_value)]: rows filled up at the end
    to the longest length; an empty list is refused with a [RuntimeError]
    (torch from 1.9 on; the annotations of the file need Python 3.10,
    hence a later torch). *)
Definition pad_sequence (seqs : list (list Z)) (padding_value : Z) : result (list (list Z)) :=
  match seqs with
  | [] => Raise (RuntimeError EmptySequences)
  | _ :: _ =>
      let n := fold_right Nat.max 0 (map (@length Z) seqs) in
      Ok (map (fun s => s ++ repeat padding_value (n - length s)) seqs)
  end.

(** The truth value of [src_size_limit]: [None] and [0] are false. *)
Definition limit_set (src_size_limit : option nat) : option nat :=
  match src_size_limit with
  | Some 0 => None
  | l => l
  end.

Definition preprocess_batch (self : Translator) (batch : batch_input)
           (src_size_limit : option nat) (output_tokens : bool) : result preprocessed :=
  match batch with
  | FieldProcessed ids =>
      match src_size_limit with
      | None => Ok (IdsOnly ids)
      | Some n => Ok (IdsOnly (map (firstn n) ids))
      end
  | RawText sents =>
      let processed_sent := map (SRC_preprocess self) sents in
      let processed_sent :=
        match limit_set src_size_limit with
        | Some n => map (firstn n) processed_sent
        | None => processed_sent
        end in
      let tokenized_sent := map (map (_token_to_index self)) processed_sent in
      batch <- pad_sequence tokenized_sent (SRC_stoi self "<pad>") ;;
      Ok (if output_tokens then WithTokens batch processed_sent else WithIds batch batch)
  end.

(** [' '.join(tokens)]: over a list of tokens, or over the characters of
    a string. *)
Definition join_tokens (h : hypothesis) : string :=
  match h with
  | Tokens ts => String.concat " " ts
  | Scalar s => String.concat " " (chars s)
  end.

(** [transl_batch]; [beam_search] is called with its default [n_best=1]
    and [length_norm=None], and [self.model.eval()] leaves the decoder as
    it is modelled here.  The two branches marked unreachable cannot
    occur: [preprocess_batch] is called with [output_tokens=True], and
    [n_best] is 1. *)
Definition transl_batch (self : Translator) (batch : batch_input)
           (src_size_limit : option nat) (output_tokens : bool)
           (replace_unk : option (option (Z * Z))) : M transl_output :=
  processed_batch <~ lift (preprocess_batch self batch src_size_limit true) ;;
  ids_tokens <~ lift (match processed_batch with
                      | IdsOnly ids => Ok (ids, None)
                      | WithTokens ids toks => Ok (ids, Some toks)
                      | WithIds _ _ => Raise TypeError  (* unreachable *)
                      end) ;;
  translated_sentences <~
    beam_search (decoder_of self) (fst ids_tokens) (snd ids_tokens) 1 None replace_unk ;;
  match translated_sentences with
  | Best sents =>
      if negb output_tokens then retM (Sentences (map join_tokens sents))
      else retM (TokenLists sents)
  | NBest _ => lift (Raise TypeError)  (* unreachable *)
  end.
End Translate.

Section StatePredicates.
Context {F : FloatOps}.

(** Rows of width [w] that start with [sos] and hold 0 in every column
    after column [t]. *)
Definition rows_written_to (w : nat) (sos : Z) (t : nat) (outputs : list (list Z)) : Prop :=
  Forall (fun row => length row = w /\ nth_error row 0 = Some sos /\
                     forall j, t < j -> j < w -> nth_error row j = Some 0%Z)
         outputs.

(** The scores of one batch item, each divided by the penalty of its
    length (lines 299-300). *)
Definition penalized_row (coff : float) (lengths : list nat) (log_probs : list float)
  : list float :=
  zip_with f_div log_probs
           (map (fun l => f_pow (f_div (f_of_Z (Z.of_nat l + 5)) (f_of_Z 6)) coff) lengths).
End StatePredicates.

(** A translator around the toy decoder: the tokenizer splits a sentence
    into its characters, and every character other than [a] and [b] has
    the id of [<pad>]. *)
Definition toy_translator (next : Z -> list Q) (max_len beam_size : nat) : Translator := {|
  decoder_of := toy_decoder next max_len beam_size;
  SRC_preprocess := chars;
  SRC_stoi := fun tok => if String.eqb tok "a" then 3%Z
                         else if String.eqb tok "b" then 4%Z else 0%Z;
  super_token_to_index := fun _ => 0%Z;
  _use_synonym := false
|}.

(* ===================================================================== *)
(** * Properties *)
(* ===================================================================== *)

(** ** The error monad *)

Lemma bind_ok {A B} (r : result A) (k : A -> result B) (b : B) :
  bind r k = Ok b -> exists a, r = Ok a /\ k a = Ok b.
Proof. destruct r as [a|e]; simpl; intros H; [eauto | discriminate]. Qed.

(** Splits a successful [bind] in hypothesis [H] into its two steps. *)
Ltac inv_bind H :=
  let a := fresh "x" in
  let Ha := fresh "E" in
  apply bind_ok in H; destruct H as (a & Ha & H).

Lemma mapM_Forall2 {A B} (f : A -> result B) (l : list A) (l' : list B) :
  mapM f l = Ok l' -> Forall2 (fun a b => f a = Ok b) l l'.
Proof.
  revert l'; induction l as [|a l IH]; simpl; intros l' H.
  - injection H as <-. constructor.
  - inv_bind H. inv_bind H. injection H as <-. constructor; auto.
Qed.

Lemma Forall2_nth_error_l {A B} (R : A -> B -> Prop) l l' n a :
  Forall2 R l l' -> nth_error l n = Some a ->
  exists b, nth_error l' n = Some b /\ R a b.
Proof.
  intros H; revert n; induction H; intros [|n] E; simpl in *; try discriminate.
  - injection E as <-. eauto.
  - eauto.
Qed.

Lemma Forall2_nth_error_r {A B} (R : A -> B -> Prop) l l' n b :
  Forall2 R l l' -> nth_error l' n = Some b ->
  exists a, nth_error l n = Some a /\ R a b.
Proof.
  intros H; revert n; induction H; intros [|n] E; simpl in *; try discriminate.
  - injection E as <-. eauto.
  - eauto.
Qed.

Lemma mapM_length {A B} (f : A -> result B) l l' :
  mapM f l = Ok l' -> length l' = length l.
Proof. intros H. symmetry. eapply Forall2_length, mapM_Forall2, H. Qed.

Lemma mapM_nth_error {A B} (f : A -> result B) l l' n b :
  mapM f l = Ok l' -> nth_error l' n = Some b ->
  exists a, nth_error l n = Some a /\ f a = Ok b.
Proof.
  intros H E.
  exact (Forall2_nth_error_r (R := fun a b => f a = Ok b) n (mapM_Forall2 _ _ H) E).
Qed.

(** ** Sorting *)

Section SortingFacts.
Context {A : Type} (le : A -> A -> bool).
Hypothesis le_total : forall x y, le x y = true \/ le y x = true.
Hypothesis le_trans : forall x y z, le x y = true -> le y z = true -> le x z = true.

Local Abbreviation R := (fun x y : A => le x y = true).

Lemma insert_sorted_perm x l : Permutation (insert_sorted le x l) (x :: l).
Proof.
  induction l as [|y l IH]; simpl; [reflexivity|].
  destruct (le x y); [reflexivity|].
  rewrite IH. apply perm_swap.
Qed.

Lemma isort_perm l : Permutation (isort le l) l.
Proof.
  induction l as [|x l IH]; simpl; [reflexivity|].
  rewrite insert_sorted_perm. now constructor.
Qed.

Lemma insert_sorted_sorted x l :
  StronglySorted R l -> StronglySorted R (insert_sorted le x l).
Proof.
  induction 1 as [|y l Hs IH Hy]; simpl.
  - repeat constructor.
  - destruct (le x y) eqn:E.
    + constructor; [now constructor|].
      constructor; [exact E|].
      eapply Forall_impl; [|exact Hy]. intros z Hz. eapply le_trans; eauto.
    + constructor; [exact IH|].
      assert (Hyx : R y x) by (destruct (le_total x y); [congruence | assumption]).
      eapply Permutation_Forall; [symmetry; apply insert_sorted_perm|].
      constructor; assumption.
Qed.

Lemma isort_sorted l : StronglySorted R (isort le l).
Proof.
  induction l as [|x l IH]; simpl; [constructor|].
  now apply insert_sorted_sorted.
Qed.

Lemma StronglySorted_app_inv (l1 l2 : list A) :
  StronglySorted R (l1 ++ l2) ->
  StronglySorted R l1 /\ forall a b, In a l1 -> In b l2 -> R a b.
Proof.
  induction l1 as [|x l1 IH]; simpl; intros H.
  - split; [constructor | intros ? ? []].
  - apply StronglySorted_inv in H. destruct H as [Hs Hx].
    destruct (IH Hs) as [IH1 IH2].
    rewrite Forall_app in Hx. destruct Hx as [Hx1 Hx2].
    split; [now constructor|].
    intros a b [<-|Ha] Hb; [|now auto].
    rewrite Forall_forall in Hx2. now apply Hx2.
Qed.

Lemma StronglySorted_nth_error l m1 m2 a b :
  StronglySorted R l -> m1 < m2 ->
  nth_error l m1 = Some a -> nth_error l m2 = Some b -> R a b.
Proof.
  intros H; revert m1 m2; induction H as [|x l Hs IH Hx]; intros m1 m2 Hlt E1 E2.
  - destruct m1; discriminate.
  - destruct m2 as [|m2]; [lia|]. simpl in E2.
    destruct m1 as [|m1]; simpl in E1.
    + injection E1 as <-. rewrite Forall_forall in Hx.
      apply Hx. eapply nth_error_In; eauto.
    + eapply IH; [|eassumption|eassumption]. lia.
Qed.
End SortingFacts.

(** ** Lists cut into rows *)

Lemma nth_error_concat_uniform {A} (w : nat) (ll : list (list A)) b j r :
  Forall (fun r => length r = w) ll ->
  nth_error ll b = Some r -> j < w ->
  nth_error (concat ll) (b * w + j) = nth_error r j.
Proof.
  intros H; revert b; induction H as [|r0 ll Hr Hll IH]; intros b Eb Hj.
  - destruct b; discriminate.
  - destruct b as [|b]; simpl in *.
    + injection Eb as ->. rewrite nth_error_app1 by lia. reflexivity.
    + rewrite nth_error_app2 by lia.
      replace (w + b * w + j - length r0) with (b * w + j) by lia.
      now apply IH.
Qed.

Lemma length_concat_uniform {A} (w : nat) (ll : list (list A)) :
  Forall (fun r => length r = w) ll -> length (concat ll) = length ll * w.
Proof.
  induction 1 as [|r ll Hr Hll IH]; simpl; [reflexivity|].
  rewrite length_app, IH, Hr. reflexivity.
Qed.

Lemma concat_firstn_uniform {A} (w k : nat) (ll : list (list A)) :
  Forall (fun r => length r = w) ll ->
  firstn (k * w) (concat ll) = concat (firstn k ll).
Proof.
  intros H; revert k; induction H as [|r ll Hr Hll IH]; intros k.
  - now rewrite !firstn_nil.
  - destruct k as [|k]; simpl; [reflexivity|].
    rewrite firstn_app. replace (w + k * w - length r) with (k * w) by lia.
    rewrite IH. rewrite firstn_all2 by lia. reflexivity.
Qed.

Lemma concat_skipn_uniform {A} (w k : nat) (ll : list (list A)) :
  Forall (fun r => length r = w) ll ->
  skipn (k * w) (concat ll) = concat (skipn k ll).
Proof.
  intros H; revert k; induction H as [|r ll Hr Hll IH]; intros k.
  - now rewrite !skipn_nil.
  - destruct k as [|k]; simpl; [reflexivity|].
    rewrite skipn_app. replace (w + k * w - length r) with (k * w) by lia.
    rewrite IH. rewrite skipn_all2 by lia. reflexivity.
Qed.

Lemma Forall_skipn {A} (P : A -> Prop) n l : Forall P l -> Forall P (skipn n l).
Proof.
  intros H. rewrite <- (firstn_skipn n l) in H. now apply Forall_app in H.
Qed.

Lemma Forall_firstn {A} (P : A -> Prop) n l : Forall P l -> Forall P (firstn n l).
Proof.
  intros H. rewrite <- (firstn_skipn n l) in H. now apply Forall_app in H.
Qed.

(** The [b]-th of the rows that [view(n, -1)] cuts out of a tensor of
    [n * k] rows of width [w] is the concatenation of the [k] rows from
    [b * k] on. *)
Lemma chunks_concat {A} (n k w : nat) (ll : list (list A)) b :
  Forall (fun r => length r = w) ll -> b < n ->
  nth_error (chunks n (k * w) (concat ll)) b
  = Some (concat (firstn k (skipn (b * k) ll))).
Proof.
  intros H; revert ll H b; induction n as [|n IH]; intros ll H b Hb; [lia|].
  destruct b as [|b]; simpl.
  - now rewrite concat_firstn_uniform.
  - rewrite concat_skipn_uniform by assumption.
    rewrite IH; [|now apply Forall_skipn|lia].
    rewrite skipn_skipn. now rewrite (Nat.add_comm (b * k) k).
Qed.

Lemma length_chunks {A} (n w : nat) (l : list A) : length (chunks n w l) = n.
Proof. revert l; induction n; simpl; intros; [reflexivity | now rewrite IHn]. Qed.

Lemma nth_error_firstn_skipn {A} (l : list A) (s k j : nat) :
  j < k -> nth_error (firstn k (skipn s l)) j = nth_error l (s + j).
Proof.
  intros Hj. rewrite nth_error_firstn.
  destruct (Nat.ltb_spec j k); [|lia]. now rewrite nth_error_skipn.
Qed.

Lemma nth_error_zip_with {A B C} (f : A -> B -> C) l1 l2 n :
  nth_error (zip_with f l1 l2) n
  = match nth_error l1 n, nth_error l2 n with
    | Some a, Some b => Some (f a b)
    | _, _ => None
    end.
Proof.
  revert l2 n; induction l1 as [|a l1 IH]; intros [|b l2] [|n]; simpl; try reflexivity.
  - now destruct (nth_error l1 n).
  - apply IH.
Qed.

Lemma length_zip_with {A B C} (f : A -> B -> C) l1 l2 :
  length (zip_with f l1 l2) = Nat.min (length l1) (length l2).
Proof.
  revert l2; induction l1 as [|a l1 IH]; intros [|b l2]; simpl; auto.
Qed.

Lemma nth_error_enumerate_from {A} (l : list A) s n :
  nth_error (enumerate_from s l) n = option_map (fun a => (s + n, a)) (nth_error l n).
Proof.
  revert s n; induction l as [|a l IH]; intros s [|n]; simpl; try reflexivity.
  - now rewrite Nat.add_0_r.
  - rewrite IH. destruct (nth_error l n); simpl; [|reflexivity].
    do 2 f_equal. lia.
Qed.

Lemma length_enumerate_from {A} (l : list A) s : length (enumerate_from s l) = length l.
Proof. revert s; induction l; simpl; intros; [reflexivity | now rewrite IHl]. Qed.

(** ** Top-k selection *)

Section SelectionFacts.
Context {F : FloatOps} {L : FloatLaws F}.

Lemma ge_val_total (x y : float * nat) : ge_val x y = true \/ ge_val y x = true.
Proof. unfold ge_val. apply f_leb_total. Qed.

Lemma ge_val_trans (x y z : float * nat) :
  ge_val x y = true -> ge_val y z = true -> ge_val x z = true.
Proof. unfold ge_val. intros H1 H2. eapply f_leb_trans; eauto. Qed.

Lemma f_leb_refl (x : float) : f_leb x x = true.
Proof. now destruct (f_leb_total x x). Qed.

Lemma map_fst_indexed (l : list float) : map fst (indexed l) = l.
Proof.
  unfold indexed. generalize 0. induction l as [|x l IH]; simpl; intros s; [reflexivity|].
  now rewrite IH.
Qed.

Lemma map_snd_indexed (l : list float) : map snd (indexed l) = seq 0 (length l).
Proof.
  unfold indexed. generalize 0. induction l as [|x l IH]; simpl; intros s; [reflexivity|].
  now rewrite IH.
Qed.

Lemma in_indexed (l : list float) v j :
  In (v, j) (indexed l) <-> nth_error l j = Some v.
Proof.
  unfold indexed.
  assert (G : forall s, In (v, j) (combine l (seq s (length l)))
                        <-> s <= j /\ nth_error l (j - s) = Some v).
  { induction l as [|x l IH]; simpl; intros s.
    - split; [intros [] | intros [_ H]; destruct (j - s); discriminate].
    - rewrite IH. split.
      + intros [E | [Hle Hn]].
        * injection E as -> ->. rewrite Nat.sub_diag. auto.
        * split; [lia|]. replace (j - s) with (S (j - S s)) by lia. exact Hn.
      + intros [Hle Hn]. destruct (j - s) as [|d] eqn:Ed.
        * left. injection Hn as ->. f_equal. lia.
        * right. split; [lia|]. replace (j - S s) with d by lia. exact Hn. }
  rewrite G, Nat.sub_0_r. intuition lia.
Qed.

(** What [topk] returns: the [k] first elements [sel] of a list [sel ++
    rest] that holds every (value, index) pair of the row once, in
    descending order of value. *)
Lemma topk_spec k (l : list float) sel :
  topk k l = Ok sel ->
  length sel = k /\
  exists rest,
    Permutation (sel ++ rest) (indexed l) /\
    StronglySorted (fun a b => ge_val a b = true) (sel ++ rest).
Proof.
  unfold topk. destruct (Nat.leb_spec k (length l)) as [Hk|]; [|discriminate].
  intros H. injection H as <-.
  assert (Hlen : length (isort ge_val (indexed l)) = length l).
  { rewrite (Permutation_length (isort_perm ge_val (indexed l))).
    rewrite <- (map_fst_indexed l) at 2. now rewrite length_map. }
  split; [rewrite length_firstn; lia|].
  exists (skipn k (isort ge_val (indexed l))).
  rewrite firstn_skipn. split; [apply isort_perm|].
  apply isort_sorted; [apply ge_val_total | apply ge_val_trans].
Qed.

Lemma topk_sorted k (l : list float) sel m1 m2 a b :
  topk k l = Ok sel -> m1 <= m2 ->
  nth_error sel m1 = Some a -> nth_error sel m2 = Some b ->
  f_leb (fst b) (fst a) = true.
Proof.
  intros H Hm E1 E2. apply topk_spec in H. destruct H as (_ & rest & _ & Hs).
  apply StronglySorted_app_inv in Hs. destruct Hs as [Hs _].
  destruct (Nat.eq_dec m1 m2) as [->|Hne].
  - rewrite E1 in E2. injection E2 as <-. apply f_leb_refl.
  - refine (StronglySorted_nth_error ge_val Hs _ E1 E2). lia.
Qed.
End SelectionFacts.

(** ** The masked candidates of [compute_k_best] *)

Lemma zip_with_repeat_select {A} (b : bool) (n : nat) (a x : list A) :
  length a = n -> length x = n ->
  zip_with (fun (cx : bool) (xy : A * A) => if cx then fst xy else snd xy)
           (repeat b n) (combine a x)
  = if b then a else x.
Proof.
  revert a x; induction n as [|n IH]; intros [|a0 a] [|x0 x] Ha Hx; simpl in *;
    try discriminate; try (now destruct b).
  rewrite IH by lia. now destruct b.
Qed.

Lemma nth_error_where_rows {A} (k : nat) (bs : list bool) (a x : list (list A)) r :
  Forall (fun row => length row = k) a ->
  Forall (fun row => length row = k) x ->
  nth_error (where_ (map (fun b => repeat b k) bs) a x) r
  = match nth_error bs r, nth_error a r, nth_error x r with
    | Some b, Some ar, Some xr => Some (if b then ar else xr)
    | _, _, _ => None
    end.
Proof.
  intros Ha Hx. unfold where_. rewrite nth_error_zip_with, nth_error_map.
  destruct (nth_error bs r) as [b|]; simpl; [|reflexivity].
  destruct (nth_error a r) as [ar|] eqn:Ea.
  - destruct (nth_error x r) as [xr|] eqn:Ex.
    + assert (Ec : nth_error (combine a x) r = Some (ar, xr)).
      { clear Ha Hx. revert x r Ea Ex.
        induction a as [|a0 a IH]; intros [|x0 x] [|r] Ea Ex; simpl in *; try discriminate.
        - now injection Ea as ->; injection Ex as ->.
        - now apply IH. }
      rewrite Ec. simpl. f_equal. apply zip_with_repeat_select.
      * rewrite Forall_forall in Ha. eapply Ha, nth_error_In, Ea.
      * rewrite Forall_forall in Hx. eapply Hx, nth_error_In, Ex.
    + assert (Ec : nth_error (combine a x) r = None).
      { apply nth_error_None. rewrite length_combine.
        apply nth_error_None in Ex. lia. }
      now rewrite Ec.
  - assert (Ec : nth_error (combine a x) r = None).
    { apply nth_error_None. rewrite length_combine.
      apply nth_error_None in Ea. lia. }
    now rewrite Ec.
Qed.

Section StepFacts.
Context {F : FloatOps}.

Lemma length_insert_sorted {A} (le : A -> A -> bool) x l :
  length (insert_sorted le x l) = S (length l).
Proof.
  induction l as [|y l IH]; simpl; [reflexivity|].
  destruct (le x y); simpl; [reflexivity | now rewrite IH].
Qed.

Lemma length_isort {A} (le : A -> A -> bool) l : length (isort le l) = length l.
Proof.
  induction l as [|x l IH]; simpl; [reflexivity|].
  now rewrite length_insert_sorted, IH.
Qed.

Lemma topk_length k (l : list float) sel : topk k l = Ok sel -> length sel = k.
Proof.
  unfold topk. destruct (Nat.leb_spec k (length l)); [|discriminate].
  intros E. injection E as <-.
  rewrite length_firstn, length_isort. unfold indexed.
  rewrite length_combine, length_seq. lia.
Qed.

Lemma mapM_topk_lengths k (ll : list (list float)) tk :
  mapM (topk k) ll = Ok tk -> Forall (fun r => length r = k) tk.
Proof.
  intros H. apply mapM_Forall2 in H.
  induction H; constructor; auto. eapply topk_length; eauto.
Qed.

(** Row by row, what lines 87-101 compute. *)
Lemma masked_topk_rows k eos_id outputs out i probs ix :
  masked_topk k eos_id outputs out i = Ok (probs, ix) ->
  k <> 0 /\ length outputs = length out /\
  length probs = length out /\ length ix = length out /\
  Forall (fun r => length r = k) probs /\ Forall (fun r => length r = k) ix /\
  forall r row, nth_error outputs r = Some row ->
    exists tok dist tk,
      py_get row (Z.of_nat i - 1) = Ok tok /\
      nth_error out r = Some dist /\
      topk k dist = Ok tk /\
      nth_error probs r
      = Some (if (eos_id =? tok)%Z then eos_probs k else map fst tk) /\
      nth_error ix r
      = Some (if (eos_id =? tok)%Z then eos_ids k eos_id
              else map (fun vi => Z.of_nat (snd vi)) tk).
Proof.
  unfold masked_topk. intros H.
  inv_bind H. inv_bind H. inv_bind H. inv_bind H. injection H as <- <-.
  rename x0 into tk, x1 into prev, x2 into is_eos.
  unfold floordiv in E. destruct (Nat.eqb_spec k 0) as [|Hk]; [discriminate|].
  unfold view_column in E2. rewrite length_map in E2.
  destruct (Nat.eqb_spec (length prev) (length out)) as [Hlen|]; [|discriminate].
  injection E2 as <-.
  pose proof (mapM_length _ _ E0) as Ltk.
  pose proof (mapM_length _ _ E1) as Lprev.
  pose proof (mapM_topk_lengths _ _ E0) as Wtk.
  assert (Wp : Forall (fun r : list float => length r = k) (map (map fst) tk)).
  { rewrite Forall_map. eapply Forall_impl; [|exact Wtk]. intros a Ha.
    now rewrite length_map. }
  assert (Wi : Forall (fun r : list Z => length r = k)
                      (map (map (fun vi : float * nat => Z.of_nat (snd vi))) tk)).
  { rewrite Forall_map. eapply Forall_impl; [|exact Wtk]. intros a Ha.
    now rewrite length_map. }
  assert (Wrp : Forall (fun r : list float => length r = k)
                       (repeat (eos_probs k) (length out))).
  { rewrite Forall_forall. intros a Ha. apply repeat_spec in Ha. subst a.
    unfold eos_probs. simpl. rewrite repeat_length. lia. }
  assert (Wri : Forall (fun r : list Z => length r = k)
                       (repeat (eos_ids k eos_id) (length out))).
  { rewrite Forall_forall. intros a Ha. apply repeat_spec in Ha. subst a.
    unfold eos_ids. simpl. rewrite repeat_length. lia. }
  assert (Lw : forall (A : Type) (a y : list (list A)),
             length a = length out -> length y = length out ->
             length (where_ (map (fun b => repeat b k) (map (Z.eqb eos_id) prev)) a y)
             = length out).
  { intros A a y La Ly. unfold where_.
    rewrite length_zip_with, length_combine, !length_map. lia. }
  repeat split; try assumption; try lia.
  - apply Lw; [apply repeat_length | now rewrite length_map].
  - apply Lw; [apply repeat_length | now rewrite length_map].
  - rewrite Forall_forall. intros a Ha. apply In_nth_error in Ha. destruct Ha as [r Hr].
    rewrite (nth_error_where_rows _ _ Wrp Wp) in Hr.
    destruct (nth_error (map (Z.eqb eos_id) prev) r) as [b|]; [|discriminate].
    destruct (nth_error (repeat (eos_probs k) (length out)) r) as [ar|] eqn:Ea; [|discriminate].
    destruct (nth_error (map (map fst) tk) r) as [xr|] eqn:Ex; [|discriminate].
    injection Hr as <-. rewrite Forall_forall in Wrp, Wp.
    destruct b; [eapply Wrp | eapply Wp]; eapply nth_error_In; eauto.
  - rewrite Forall_forall. intros a Ha. apply In_nth_error in Ha. destruct Ha as [r Hr].
    rewrite (nth_error_where_rows _ _ Wri Wi) in Hr.
    destruct (nth_error (map (Z.eqb eos_id) prev) r) as [b|]; [|discriminate].
    destruct (nth_error (repeat (eos_ids k eos_id) (length out)) r) as [ar|] eqn:Ea;
      [|discriminate].
    destruct (nth_error (map (map (fun vi : float * nat => Z.of_nat (snd vi))) tk) r)
      as [xr|] eqn:Ex; [|discriminate].
    injection Hr as <-. rewrite Forall_forall in Wri, Wi.
    destruct b; [eapply Wri | eapply Wi]; eapply nth_error_In; eauto.
  - intros r row Hrow.
    destruct (Forall2_nth_error_l r (mapM_Forall2 _ _ E1) Hrow) as (tok & Htok & Hget).
    assert (Hr : r < length out).
    { assert (r < length prev) by (apply nth_error_Some; congruence). lia. }
    destruct (nth_error out r) as [dist|] eqn:Ed;
      [|apply nth_error_None in Ed; lia].
    destruct (Forall2_nth_error_l r (mapM_Forall2 _ _ E0) Ed) as (tkr & Htk & Htop).
    exists tok, dist, tkr. repeat split; try assumption.
    + rewrite (nth_error_where_rows _ _ Wrp Wp).
      rewrite !nth_error_map, Htok, Htk. simpl.
      now rewrite nth_error_repeat by lia.
    + rewrite (nth_error_where_rows _ _ Wri Wi).
      rewrite !nth_error_map, Htok, Htk. simpl.
      now rewrite nth_error_repeat by lia.
Qed.
End StepFacts.

(** ** The selection of [compute_k_best] *)

Lemma py_get_nat {A} (l : list A) (n : nat) (a : A) :
  py_get l (Z.of_nat n) = Ok a <-> nth_error l n = Some a.
Proof.
  unfold py_get.
  destruct (Z.ltb_spec (Z.of_nat n) 0) as [|_]; [lia|].
  destruct (Z.ltb_spec (Z.of_nat n) 0) as [|_]; [lia|].
  rewrite Nat2Z.id. destruct (nth_error l n); split; congruence.
Qed.

Lemma nth_error_combine {A B} (a : list A) (b : list B) n :
  nth_error (combine a b) n
  = match nth_error a n, nth_error b n with
    | Some x, Some y => Some (x, y)
    | _, _ => None
    end.
Proof.
  revert b n; induction a as [|x a IH]; intros [|y b] [|n]; simpl; try reflexivity.
  - now destruct (nth_error a n).
  - apply IH.
Qed.

Lemma expand_rows_ok {A} (n : nat) (x y : list A) :
  expand_rows n x = Ok y ->
  (length x = n /\ y = x) \/ (length x = 1 /\ n <> 1 /\ length y = n).
Proof.
  unfold expand_rows. destruct (Nat.eqb_spec (length x) n) as [Hn|Hn].
  - intros H. injection H as <-. now left.
  - destruct x as [|a [|? ?]]; try discriminate.
    intros H. injection H as <-. right. simpl in *. rewrite repeat_length. auto.
Qed.

Lemma set_item_ok {A} (i : nat) (v : A) (row row' : list A) :
  set_item i v row = Ok row' ->
  i < length row /\ row' = firstn i row ++ v :: skipn (S i) row.
Proof.
  unfold set_item. destruct (Nat.ltb_spec i (length row)); [|discriminate].
  intros E. injection E as <-. auto.
Qed.

Section SelectFacts.
Context {F : FloatOps}.

Lemma select_k_best_rows k outputs probs ix log_scores i w outputs' scores' :
  Forall (fun r => length r = w) outputs ->
  Forall (fun r => length r = k) probs ->
  Forall (fun r => length r = k) ix ->
  length probs = length outputs ->
  length ix = length outputs ->
  length log_scores = length outputs ->
  select_k_best k outputs (length outputs) probs ix log_scores i = Ok (outputs', scores') ->
  exists B,
    k <> 0 /\ B <> 0 /\ length outputs = B * k /\ i < w /\
    length outputs' = length outputs /\ length scores' = length outputs /\
    forall b, b < B ->
      exists kb,
        topk k (concat (firstn k (skipn (b * k) (zip_with log_prob_row probs log_scores))))
        = Ok kb /\
        forall m v c, nth_error kb m = Some (v, c) ->
          nth_error scores' (b * k + m) = Some v /\
          exists parent old irow tok,
            nth_error outputs (c / k + b * k) = Some parent /\
            nth_error outputs (b * k + m) = Some old /\
            nth_error ix (c / k + b * k) = Some irow /\
            nth_error irow (c mod k) = Some tok /\
            nth_error outputs' (b * k + m)
            = Some (firstn i parent ++ tok :: skipn (S i) old).
Proof.
  intros Wo Wp Wi Lp Li Ls H. unfold select_k_best in H.
  inv_bind H. rename x into B, E into EB.
  inv_bind H. rename x into log_probs, E into Elp.
  inv_bind H. rename x into cands, E into Ec.
  inv_bind H. rename x into ks, E into Ek.
  inv_bind H. rename x into parents0, E into Ep0.
  inv_bind H. rename x into parents, E into Ep.
  inv_bind H. rename x into toks0, E into Et0.
  inv_bind H. rename x into toks, E into Et.
  inv_bind H. rename x into outs, E into Eo.
  injection H as <- <-.
  set (R := length outputs) in *.
  (* batch size *)
  unfold floordiv in EB. destruct (Nat.eqb_spec k 0) as [|Hk]; [discriminate|].
  injection EB as <-.
  (* log probs *)
  unfold add_log_scores in Elp. rewrite Lp, Ls, Nat.eqb_refl in Elp.
  injection Elp as <-.
  set (lp := zip_with log_prob_row probs log_scores) in *.
  assert (Wlp : Forall (fun r => length r = k) lp).
  { rewrite Forall_forall. intros r Hr. apply In_nth_error in Hr. destruct Hr as [n Hn].
    unfold lp in Hn. rewrite nth_error_zip_with in Hn.
    destruct (nth_error probs n) as [p|] eqn:Epn; [|discriminate].
    destruct (nth_error log_scores n); [|discriminate].
    injection Hn as <-. unfold log_prob_row. rewrite length_map.
    rewrite Forall_forall in Wp. eapply Wp, nth_error_In, Epn. }
  assert (Llp : length lp = R).
  { unfold lp. rewrite length_zip_with. lia. }
  (* the view into batch items *)
  unfold view_rows in Ec.
  destruct (Nat.eqb_spec (R / k) 0) as [|HB]; [discriminate|].
  destruct (Nat.eqb_spec (length (concat lp) mod (R / k)) 0) as [_|]; [|discriminate].
  simpl in Ec. injection Ec as <-.
  rewrite (length_concat_uniform Wlp), Llp in Ek.
  set (B := R / k) in *.
  pose proof (mapM_length _ _ Ek) as Lks. rewrite length_chunks in Lks.
  pose proof (mapM_topk_lengths _ _ Ek) as Wks.
  set (rows := concat (map (fun vr : nat * list nat =>
                              map (fun c : nat => c / k + fst vr * k) (snd vr))
                           (enumerate (map (map snd) ks)))) in *.
  set (cols := concat (map (map (fun c : nat => c mod k)) (map (map snd) ks))) in *.
  set (vals := concat (map (map fst) ks)).
  assert (Hsel : forall b kb m v c,
             nth_error ks b = Some kb -> nth_error kb m = Some (v, c) ->
             nth_error rows (b * k + m) = Some (c / k + b * k) /\
             nth_error cols (b * k + m) = Some (c mod k) /\
             nth_error vals (b * k + m) = Some v).
  { intros b kb m v c Hkb Hm.
    assert (Lkb : length kb = k).
    { rewrite Forall_forall in Wks. eapply Wks, nth_error_In, Hkb. }
    assert (Hmk : m < k).
    { rewrite <- Lkb. apply nth_error_Some. congruence. }
    repeat split.
    - unfold rows.
      rewrite nth_error_concat_uniform
        with (r := map (fun c0 => c0 / k + b * k) (map snd kb)); auto.
      + rewrite !nth_error_map, Hm. reflexivity.
      + rewrite Forall_map. unfold enumerate.
        rewrite Forall_forall. intros [n0 r0] Hin. simpl.
        apply In_nth_error in Hin. destruct Hin as [n Hn].
        rewrite nth_error_enumerate_from, nth_error_map in Hn.
        destruct (nth_error ks n) as [kn|] eqn:Ekn; [|discriminate].
        simpl in Hn. injection Hn as <- <-. rewrite !length_map.
        rewrite Forall_forall in Wks. eapply Wks, nth_error_In, Ekn.
      + rewrite nth_error_map. unfold enumerate.
        rewrite nth_error_enumerate_from, nth_error_map, Hkb. reflexivity.
    - unfold cols.
      rewrite nth_error_concat_uniform
        with (r := map (fun c0 => c0 mod k) (map snd kb)); auto.
      + rewrite !nth_error_map, Hm. reflexivity.
      + rewrite !Forall_map. eapply Forall_impl; [|exact Wks].
        intros a Ha. now rewrite !length_map.
      + rewrite !nth_error_map, Hkb. reflexivity.
    - unfold vals.
      rewrite nth_error_concat_uniform with (r := map fst kb); auto.
      + rewrite nth_error_map, Hm. reflexivity.
      + rewrite Forall_map. eapply Forall_impl; [|exact Wks].
        intros a Ha. now rewrite length_map.
      + rewrite nth_error_map, Hkb. reflexivity. }
  assert (Lrows : length rows = B * k).
  { unfold rows. rewrite length_concat_uniform with (w := k).
    - unfold enumerate. now rewrite length_map, length_enumerate_from, length_map, Lks.
    - rewrite Forall_map. unfold enumerate.
      rewrite Forall_forall. intros [n0 r0] Hin. simpl.
      apply In_nth_error in Hin. destruct Hin as [n Hn].
      rewrite nth_error_enumerate_from, nth_error_map in Hn.
      destruct (nth_error ks n) as [kn|] eqn:Ekn; [|discriminate].
      simpl in Hn. injection Hn as <- <-. rewrite !length_map.
      rewrite Forall_forall in Wks. eapply Wks, nth_error_In, Ekn. }
  assert (Lcols : length cols = B * k).
  { unfold cols. rewrite length_concat_uniform with (w := k).
    - now rewrite !length_map, Lks.
    - rewrite !Forall_map. eapply Forall_impl; [|exact Wks].
      intros a Ha. now rewrite !length_map. }
  assert (Lvals : length vals = B * k).
  { unfold vals. rewrite length_concat_uniform with (w := k).
    - now rewrite !length_map, Lks.
    - rewrite Forall_map. eapply Forall_impl; [|exact Wks].
      intros a Ha. now rewrite length_map. }
  (* the number of selected rows is the number of rows *)
  pose proof (mapM_length _ _ Ep0) as Lp0. rewrite Lrows in Lp0.
  assert (HR : R = B * k).
  { apply expand_rows_ok in Ep. destruct Ep as [[Hl _]|(Hl & Hn & _)]; [lia|].
    exfalso. rewrite Lp0 in Hl.
    assert (B = 1 /\ k = 1) as [HB1 Hk1] by nia.
    unfold B in HB1. rewrite Hk1, Nat.div_1_r in HB1. lia. }
  assert (Ep' : parents = parents0).
  { apply expand_rows_ok in Ep. destruct Ep as [[_ ->]|(Hl & Hn & _)]; [reflexivity | lia]. }
  subst parents.
  set (outs1 := zip_with (fun old new : list Z => firstn i new ++ skipn i old)
                         outputs parents0) in *.
  assert (Lo1 : length outs1 = R).
  { unfold outs1. rewrite length_zip_with. fold R. lia. }
  rewrite Lo1 in Et.
  pose proof (mapM_length _ _ Et0) as Lt0.
  rewrite length_combine, Lrows, Lcols, Nat.min_id in Lt0.
  assert (Et' : toks = toks0).
  { apply expand_rows_ok in Et. destruct Et as [[_ ->]|(Hl & Hn & _)]; [reflexivity | lia]. }
  subst toks.
  pose proof (mapM_length _ _ Eo) as Lo.
  rewrite length_combine, Lo1, Lt0 in Lo.
  assert (Hkk : R * k / B = k * k).
  { transitivity (k * k * B / B); [f_equal; lia | now apply Nat.div_mul]. }
  rewrite Hkk in Ek.
  (* every selected candidate, and the row it yields *)
  assert (Hrow : forall b, b < B -> exists kb,
             nth_error ks b = Some kb /\
             topk k (concat (firstn k (skipn (b * k) lp))) = Ok kb).
  { intros b Hb.
    pose proof (chunks_concat (n := B) k (w := k) Wlp Hb) as Hch.
    destruct (Forall2_nth_error_l b (mapM_Forall2 _ _ Ek) Hch) as (kb & Hkb & Htop).
    eauto. }
  assert (Hnew : forall b kb m v c,
             b < B -> nth_error ks b = Some kb -> nth_error kb m = Some (v, c) ->
             exists parent old irow tok o1,
               nth_error outputs (c / k + b * k) = Some parent /\
               nth_error outputs (b * k + m) = Some old /\
               nth_error ix (c / k + b * k) = Some irow /\
               nth_error irow (c mod k) = Some tok /\
               o1 = firstn i parent ++ skipn i old /\
               exists o, nth_error outs (b * k + m) = Some o /\ set_item i tok o1 = Ok o).
  { intros b kb m v c Hb Hkb Hm.
    destruct (Hsel _ _ _ _ _ Hkb Hm) as (Hr & Hc & _).
    destruct (Forall2_nth_error_l _ (mapM_Forall2 _ _ Ep0) Hr) as (parent & Hpar & Hget).
    apply py_get_nat in Hget.
    assert (Hlt : b * k + m < R).
    { assert (b * k + m < length parents0) by (apply nth_error_Some; congruence). lia. }
    destruct (nth_error outputs (b * k + m)) as [old|] eqn:Eold;
      [|apply nth_error_None in Eold; fold R in Eold; lia].
    assert (Hrc : nth_error (combine rows cols) (b * k + m) = Some (c / k + b * k, c mod k))
      by (now rewrite nth_error_combine, Hr, Hc).
    destruct (Forall2_nth_error_l _ (mapM_Forall2 _ _ Et0) Hrc) as (tok & Htok & Hgt).
    simpl in Hgt. inv_bind Hgt. rename x into irow.
    apply py_get_nat in E. apply py_get_nat in Hgt.
    assert (Ho1 : nth_error (combine outs1 toks0) (b * k + m)
                  = Some (firstn i parent ++ skipn i old, tok)).
    { rewrite nth_error_combine. unfold outs1.
      now rewrite nth_error_zip_with, Eold, Hpar, Htok. }
    destruct (Forall2_nth_error_l _ (mapM_Forall2 _ _ Eo) Ho1) as (o & Ho & Hset).
    simpl in Hset.
    exists parent, old, irow, tok, (firstn i parent ++ skipn i old).
    repeat split; auto. eauto. }
  assert (Hw : forall n r, nth_error outputs n = Some r -> length r = w).
  { intros n r Hn. rewrite Forall_forall in Wo. eapply Wo, nth_error_In, Hn. }
  assert (Hi : i < w).
  { assert (H0 : 0 < B) by lia.
    destruct (Hrow 0 H0) as (kb & Hkb & Htop).
    assert (Lkb : length kb = k) by (eapply topk_length; eauto).
    destruct kb as [|[v c] kb]; [simpl in Lkb; lia|].
    destruct (Hnew 0 _ 0 v c H0 Hkb eq_refl)
      as (parent & old & irow & tok & o1 & Hp & Hold & _ & _ & -> & o & _ & Hset).
    apply set_item_ok in Hset. destruct Hset as [Hlt _].
    rewrite length_app, length_firstn, length_skipn in Hlt.
    rewrite (Hw _ _ Hp), (Hw _ _ Hold) in Hlt. clear - Hlt. lia. }
  exists B. repeat split; auto; try lia.
  intros b Hb. destruct (Hrow b Hb) as (kb & Hkb & Htop).
  exists kb. split; [exact Htop|].
  intros m v c Hm.
  destruct (Hsel _ _ _ _ _ Hkb Hm) as (_ & _ & Hv). split; [exact Hv|].
  destruct (Hnew b _ m v c Hb Hkb Hm)
    as (parent & old & irow & tok & o1 & Hp & Hold & Hir & Htok & -> & o & Ho & Hset).
  exists parent, old, irow, tok. repeat split; auto.
  apply set_item_ok in Hset. destruct Hset as [_ ->]. rewrite Ho. f_equal.
  pose proof (Hw _ _ Hp) as Lpar.
  rewrite firstn_app, firstn_firstn, Nat.min_id, length_firstn, Lpar.
  replace (i - Nat.min i w) with 0 by lia. rewrite firstn_0, app_nil_r.
  rewrite skipn_app, length_firstn, Lpar.
  rewrite (skipn_all2 (n := S i)) by (rewrite length_firstn; lia).
  replace (S i - Nat.min i w) with 1 by lia.
  rewrite skipn_skipn. reflexivity.
Qed.
End SelectFacts.

Section CandidateFacts.
Context {F : FloatOps}.

(** The candidates of batch item [b], as [view(batch_size, -1)] lays
    them out, are the values of [candidate]. *)
Lemma candidate_flat k probs log_scores b c :
  Forall (fun r => length r = k) probs ->
  length probs = length log_scores ->
  c < k * k ->
  nth_error (concat (firstn k (skipn (b * k) (zip_with log_prob_row probs log_scores)))) c
  = candidate k probs log_scores b c.
Proof.
  intros Wp Lp Hc.
  assert (Hk : k <> 0) by (intros ->; lia).
  set (lp := zip_with log_prob_row probs log_scores).
  assert (Wlp : Forall (fun r => length r = k) lp).
  { rewrite Forall_forall. intros r Hr. apply In_nth_error in Hr. destruct Hr as [n Hn].
    unfold lp in Hn. rewrite nth_error_zip_with in Hn.
    destruct (nth_error probs n) as [p|] eqn:Epn; [|discriminate].
    destruct (nth_error log_scores n); [|discriminate].
    injection Hn as <-. unfold log_prob_row. rewrite length_map.
    rewrite Forall_forall in Wp. eapply Wp, nth_error_In, Epn. }
  assert (Hq : c / k < k) by (apply Nat.Div0.div_lt_upper_bound; lia).
  assert (Hm : c mod k < k) by (apply Nat.mod_upper_bound; lia).
  unfold candidate.
  pose proof (nth_error_firstn_skipn lp (b * k) Hq) as Hrow.
  unfold lp in Hrow at 2. rewrite nth_error_zip_with in Hrow.
  destruct (nth_error probs (b * k + c / k)) as [p|] eqn:Ep.
  - destruct (nth_error log_scores (b * k + c / k)) as [s|] eqn:Es.
    + rewrite (Nat.div_mod_eq c k) at 1. rewrite (Nat.mul_comm k).
      rewrite nth_error_concat_uniform with (r := log_prob_row p s); auto.
      * unfold log_prob_row. now rewrite nth_error_map.
      * now apply Forall_firstn, Forall_skipn.
    + apply nth_error_None in Es.
      assert (b * k + c / k < length probs) by (apply nth_error_Some; congruence). lia.
  - apply nth_error_None. rewrite length_concat_uniform with (w := k)
      by now apply Forall_firstn, Forall_skipn.
    apply nth_error_None in Hrow.
    assert (length (firstn k (skipn (b * k) lp)) * k <= (c / k) * k) by nia.
    pose proof (Nat.div_mod_eq c k). nia.
Qed.
End CandidateFacts.

(** ** The rational float model satisfies the laws *)

Lemma qlog_one : qlog (inject_Z 1) = inject_Z 0.
Proof. reflexivity. Qed.

Lemma QFloatLaws : FloatLaws QFloat.
Proof.
  constructor; simpl.
  - intros x y. rewrite !Qle_bool_iff.
    destruct (Qlt_le_dec x y) as [H|H]; [left; now apply Qlt_le_weak | now right].
  - intros x y z. rewrite !Qle_bool_iff. apply Qle_trans.
  - intros x y. rewrite !Qle_bool_iff. intros H. unfold qlog.
    rewrite <- Zle_Qle. apply Z.sub_le_mono_r, Z.log2_le_mono, Qfloor_resp_le.
    apply Qmult_le_compat_r; [exact H | discriminate].
  - intros [n d]. rewrite qlog_one. unfold Qplus. simpl.
    now rewrite Z.mul_1_r.
Qed.

(** ** C1: the step keeps, for every batch item, the top [k] of its
       [k * k] candidates *)

Section TopKPerBatchItem.
Context {F : FloatOps} {L : FloatLaws F}.

(** What [topk] selects from the candidates of one batch item. *)
Lemma topk_candidates k (cands : list float) kb :
  topk k cands = Ok kb ->
  let sel := map snd kb in
  length sel = k /\ NoDup sel /\
  (forall v c, In (v, c) kb -> nth_error cands c = Some v) /\
  (forall c s v' c', nth_error cands c = Some s -> ~ In c sel -> In (v', c') kb ->
                     f_leb s v' = true).
Proof.
  intros H. pose proof (topk_spec _ _ H) as (Hlen & rest & Hperm & Hsort).
  simpl. rewrite length_map. split; [exact Hlen|].
  assert (Hnd : NoDup (map snd (kb ++ rest))).
  { eapply Permutation_NoDup; [symmetry; apply Permutation_map, Hperm|].
    rewrite map_snd_indexed. apply seq_NoDup. }
  rewrite map_app in Hnd. split; [eapply NoDup_app_remove_r, Hnd|].
  split.
  - intros v c Hin. apply in_indexed.
    eapply Permutation_in; [exact Hperm|]. apply in_or_app. now left.
  - intros c s v' c' Hc Hnot Hin.
    apply in_indexed in Hc.
    apply (Permutation_in _ (Permutation_sym Hperm)) in Hc.
    apply in_app_or in Hc. destruct Hc as [Hc|Hc].
    + exfalso. apply Hnot. now apply (in_map snd) in Hc.
    + apply StronglySorted_app_inv in Hsort. destruct Hsort as [_ Hsort].
      exact (Hsort _ _ Hin Hc).
Qed.

(** The selection of one step, batch item by batch item. *)
Lemma compute_k_best_keeps_top_k k eos_id outputs out log_scores i w outputs' log_scores' :
  Forall (fun r => length r = w) outputs ->
  length log_scores = length outputs ->
  compute_k_best k eos_id outputs out log_scores i = Ok (outputs', log_scores') ->
  exists probs ix B,
    masked_topk k eos_id outputs out i = Ok (probs, ix) /\
    (i < w /\ Forall (fun r => length r = k) probs /\ length probs = length outputs) /\
    length outputs = B * k /\
    length outputs' = B * k /\ length log_scores' = B * k /\
    forall b, b < B ->
      exists sel : list nat,
        keeps_top_k k i probs ix log_scores outputs outputs' log_scores' b sel.
Proof.
  intros Wo Ls H.
  unfold compute_k_best in H. inv_bind H. destruct x as [probs ix].
  pose proof (masked_topk_rows _ _ _ _ _ E) as (Hk & Lo & Lp & Li & Wp & Wi & _).
  rewrite <- Lo in H, Lp, Li.
  pose proof (select_k_best_rows _ _ Wo Wp Wi Lp Li Ls H)
    as (B & _ & HB & HR & Hi & Lo' & Ls' & Hsel).
  exists probs, ix, B. repeat split; try congruence.
  intros b Hb. destruct (Hsel b Hb) as (kb & Htop & Hrows).
  pose proof (topk_candidates _ _ Htop) as (Hlen & Hnd & Hin & Hout).
  set (cands := concat (firstn k (skipn (b * k) (zip_with log_prob_row probs log_scores))))
    in *.
  assert (Lc : length cands = k * k).
  { unfold cands. rewrite length_concat_uniform with (w := k).
    - rewrite length_firstn, length_skipn, length_zip_with, Lp, Ls, Nat.min_id.
      pose proof (Nat.mul_le_mono_r (S b) B k ltac:(lia)) as Hle. simpl in Hle.
      rewrite Nat.min_l by lia. reflexivity.
    - apply Forall_firstn, Forall_skipn.
      rewrite Forall_forall. intros r Hr. apply In_nth_error in Hr. destruct Hr as [n Hn].
      rewrite nth_error_zip_with in Hn.
      destruct (nth_error probs n) as [p|] eqn:Epn; [|discriminate].
      destruct (nth_error log_scores n); [|discriminate].
      injection Hn as <-. unfold log_prob_row. rewrite length_map.
      rewrite Forall_forall in Wp. eapply Wp, nth_error_In, Epn. }
  assert (Hcand : forall c, c < k * k ->
                             nth_error cands c = candidate k probs log_scores b c).
  { intros c Hc. apply candidate_flat; auto. congruence. }
  assert (Hlt : forall v c, In (v, c) kb -> c < k * k).
  { intros v c Hvc. rewrite <- Lc. apply nth_error_Some. rewrite (Hin _ _ Hvc). discriminate. }
  assert (Hval : forall v c, In (v, c) kb -> candidate k probs log_scores b c = Some v).
  { intros v c Hvc. rewrite <- Hcand by eauto. eauto. }
  assert (Hnth : forall m c, nth_error (map snd kb) m = Some c ->
                             exists v, nth_error kb m = Some (v, c)).
  { intros m c Hm. rewrite nth_error_map in Hm.
    destruct (nth_error kb m) as [[v c0]|]; [|discriminate].
    injection Hm as <-. eauto. }
  exists (map snd kb). unfold keeps_top_k. repeat split; auto.
  - intros c Hc. apply in_map_iff in Hc. destruct Hc as ([v c0] & <- & Hc). eauto.
  - intros m1 m2 c1 c2 s1 s2 Hm H1 H2 E1 E2.
    destruct (Hnth _ _ H1) as (v1 & Hv1). destruct (Hnth _ _ H2) as (v2 & Hv2).
    rewrite (Hval _ _ (nth_error_In _ _ Hv1)) in E1.
    rewrite (Hval _ _ (nth_error_In _ _ Hv2)) in E2.
    injection E1 as <-. injection E2 as <-.
    exact (topk_sorted _ _ Htop Hm Hv1 Hv2).
  - intros c c' s s' Hc Hnot Hin' E1 E2.
    apply in_map_iff in Hin'. destruct Hin' as ([v' c0] & <- & Hin').
    simpl in E2. rewrite (Hval _ _ Hin') in E2. injection E2 as <-.
    rewrite <- Hcand in E1 by assumption.
    exact (Hout _ _ _ _ E1 Hnot Hin').
  - intros m c Hm. destruct (Hnth _ _ Hm) as (v & Hv).
    destruct (Hrows _ _ _ Hv) as (Hs & parent & old & irow & tok & Hp & Hold & Hir & Htok & Ho).
    exists parent, old, irow, tok, v.
    rewrite (Nat.add_comm (b * k) (c / k)).
    repeat split; auto. apply Hval. eapply nth_error_In; eauto.
Qed.

(** C1.  One step of [compute_k_best] on a beam state of [B * k] rows:
    for every batch item [b], the [k * k] candidates are the scores
    [log p + prior score] of the (masked) top-k pairs of its [k] rows;
    the [k] rows of the batch item after the step are [k] distinct
    candidates of that same batch item, in non-increasing order of
    score, and no candidate left out scores higher than a selected one
    ([keeps_top_k]).  Each new row is the prefix of its candidate's
    parent followed by the candidate's token; parents are rows of the
    same batch item only.  A parent can supply several survivors: in the
    example both rows after the step extend row 0. *)
Theorem compute_k_best_top_k_per_batch_item :
  (forall k eos_id outputs out log_scores i w outputs' log_scores',
      Forall (fun r => length r = w) outputs ->
      length log_scores = length outputs ->
      compute_k_best k eos_id outputs out log_scores i = Ok (outputs', log_scores') ->
      exists probs ix B,
        masked_topk k eos_id outputs out i = Ok (probs, ix) /\
        length outputs = B * k /\
        length outputs' = B * k /\ length log_scores' = B * k /\
        forall b, b < B ->
          exists sel : list nat,
            keeps_top_k k i probs ix log_scores outputs outputs' log_scores' b sel) /\
  compute_k_best (F := QFloat) 2 2%Z [[1; 3; 0]; [1; 4; 0]]%Z
                 [[0; 0; 1 # 8; 1 # 2; 1 # 4]; [0; 0; 1 # 2; 1 # 4; 1 # 8]]%Q
                 [(-1)%Q; (-5)%Q] 2
  = Ok ([[1; 3; 3]; [1; 3; 4]]%Z, [(-2)%Q; (-3)%Q]).
Proof.
  split; [|reflexivity].
  intros k eos_id outputs out log_scores i w outputs' log_scores' Wo Ls H.
  destruct (@compute_k_best_keeps_top_k _ _ _ _ _ _ _ _ _ Wo Ls H)
    as (probs & ix & B & Hm & _ & H1 & H2 & H3 & Hsel).
  exists probs, ix, B. auto.
Qed.
End TopKPerBatchItem.

Lemma compute_k_best_top_k_per_batch_item_witness :
  let outputs := [[1; 3; 0]; [1; 4; 0]]%Z in
  let out := [[0; 0; 1 # 8; 1 # 2; 1 # 4]; [0; 0; 1 # 2; 1 # 4; 1 # 8]]%Q in
  let log_scores := [(-1)%Q; (-5)%Q] in
  let outputs' := [[1; 3; 3]; [1; 3; 4]]%Z in
  let log_scores' := [(-2)%Q; (-3)%Q] in
  Forall (fun r => length r = 3) outputs /\
  length log_scores = length outputs /\
  compute_k_best (F := QFloat) 2 2%Z outputs out log_scores 2 = Ok (outputs', log_scores') /\
  exists probs ix B,
    masked_topk (F := QFloat) 2 2%Z outputs out 2 = Ok (probs, ix) /\
    length outputs = B * 2 /\
    length outputs' = B * 2 /\ length log_scores' = B * 2 /\
    forall b, b < B ->
      exists sel : list nat,
        keeps_top_k 2 2 probs ix log_scores outputs outputs' log_scores' b sel.
Proof.
  intros outputs out log_scores outputs' log_scores'.
  assert (W : Forall (fun r => length r = 3) outputs) by (repeat constructor).
  split; [exact W|]. split; [reflexivity|]. split; [reflexivity|].
  exact (proj1 (compute_k_best_top_k_per_batch_item (L := QFloatLaws))
               2 2%Z outputs out log_scores 2 3 outputs' log_scores' W eq_refl eq_refl).
Defined.

(** ** The logging monad *)

Lemma bindM_ok {A B} (m : M A) (k : A -> M B) ev (b : B) :
  bindM m k = (ev, Ok b) ->
  exists ev1 a ev2, m = (ev1, Ok a) /\ k a = (ev2, Ok b) /\ ev = ev1 ++ ev2.
Proof.
  unfold bindM. destruct m as [ev1 [a|e]]; [|discriminate].
  destruct (k a) as [ev2 r] eqn:Ek. intros H. injection H as <- ->.
  exists ev1, a, ev2. auto.
Qed.

Lemma lift_ok {A} (r : result A) ev (a : A) : lift r = (ev, Ok a) -> r = Ok a /\ ev = [].
Proof. unfold lift. intros H. now injection H as <- ->. Qed.

(** Splits a successful [bindM] in hypothesis [H] into its two steps. *)
Ltac inv_bindM H :=
  let ev1 := fresh "ev" in
  let a := fresh "x" in
  let ev2 := fresh "ev" in
  let Ha := fresh "E" in
  let Hev := fresh "Eev" in
  apply bindM_ok in H; destruct H as (ev1 & a & ev2 & Ha & H & Hev).

(** ** C10: the beams of a batch item are stored best first *)

Section BeamsSorted.
Context {F : FloatOps} {L : FloatLaws F}.

Lemma nth_error_concat_rows {A} (k : nat) (ll : list (list A)) b j a :
  Forall (fun r => length r = k) ll -> j < k ->
  nth_error (concat ll) (b * k + j) = Some a ->
  exists r, nth_error ll b = Some r /\ nth_error r j = Some a.
Proof.
  intros W Hj H. destruct (nth_error ll b) as [r|] eqn:Er.
  - exists r. split; [reflexivity|].
    now rewrite (nth_error_concat_uniform _ W Er Hj) in H.
  - apply nth_error_None in Er.
    assert (Hlt : b * k + j < length (concat ll)) by (apply nth_error_Some; congruence).
    rewrite (length_concat_uniform W) in Hlt. nia.
Qed.

(** The values of a row-wise [topk], flattened, are sorted in every row. *)
Lemma mapM_topk_sorted k (cands : list (list float)) ks :
  mapM (topk k) cands = Ok ks ->
  beams_sorted k (concat (map (map fst) ks)).
Proof.
  intros H b j1 j2 s1 s2 Hle Hj2 E1 E2.
  pose proof (mapM_topk_lengths _ _ H) as W.
  assert (W' : Forall (fun r : list float => length r = k) (map (map fst) ks)).
  { rewrite Forall_map. eapply Forall_impl; [|exact W]. intros a Ha.
    now rewrite length_map. }
  assert (Hj1 : j1 < k) by lia.
  destruct (nth_error_concat_rows b (j := j1) W' Hj1 E1) as (r1 & Hr1 & Hs1).
  destruct (nth_error_concat_rows b (j := j2) W' Hj2 E2) as (r2 & Hr2 & Hs2).
  rewrite Hr1 in Hr2. injection Hr2 as <-.
  rewrite nth_error_map in Hr1.
  destruct (nth_error ks b) as [kb|] eqn:Ekb; [|discriminate].
  injection Hr1 as <-. rewrite nth_error_map in Hs1, Hs2.
  destruct (nth_error kb j1) as [a1|] eqn:Ea1; [|discriminate].
  destruct (nth_error kb j2) as [a2|] eqn:Ea2; [|discriminate].
  injection Hs1 as <-. injection Hs2 as <-.
  destruct (Forall2_nth_error_r _ (mapM_Forall2 _ _ H) Ekb) as (c & _ & Htop).
  exact (topk_sorted _ _ Htop Hle Ea1 Ea2).
Qed.

Lemma compute_k_best_sorted k eos_id outputs out log_scores i outputs' log_scores' :
  compute_k_best k eos_id outputs out log_scores i = Ok (outputs', log_scores') ->
  beams_sorted k log_scores'.
Proof.
  unfold compute_k_best. intros H. inv_bind H. destruct x as [probs ix].
  unfold select_k_best in H. do 9 inv_bind H. injection H as _ <-.
  eapply mapM_topk_sorted; eauto.
Qed.

Lemma init_vars_sorted self src ev outputs log_scores :
  init_vars self src = (ev, Ok (outputs, log_scores)) ->
  beams_sorted (beam_size self) log_scores.
Proof.
  unfold init_vars. intros H.
  do 6 inv_bindM H. unfold retM in H. injection H as _ _ <-.
  apply lift_ok in E1, E2. destruct E1 as [Etk _]. destruct E2 as [Elog _].
  clear E E0 E3 E4.
  pose proof (mapM_topk_sorted _ Etk) as Hs.
  intros b j1 j2 s1 s2 Hle Hj2 E1 E2.
  destruct (mapM_nth_error _ _ _ Elog E1) as (p1 & Hp1 & Hl1).
  destruct (mapM_nth_error _ _ _ Elog E2) as (p2 & Hp2 & Hl2).
  unfold math_log in Hl1, Hl2.
  destruct (f_leb p1 (f_of_Z 0)); [discriminate|].
  destruct (f_leb p2 (f_of_Z 0)); [discriminate|].
  injection Hl1 as <-. injection Hl2 as <-.
  apply f_log_mono. exact (Hs b j1 j2 p1 p2 Hle Hj2 Hp1 Hp2).
Qed.

Lemma search_loop_sorted self src fin ts :
  forall outputs log_scores attn ev outputs' log_scores' attn',
    beams_sorted (beam_size self) log_scores ->
    search_loop self src fin ts outputs log_scores attn
    = (ev, Ok (outputs', log_scores', attn')) ->
    beams_sorted (beam_size self) log_scores'.
Proof.
  induction ts as [|i ts IH]; cbn [search_loop];
    intros outputs log_scores attn ev outputs' log_scores' attn' Hs H.
  - unfold retM in H. now injection H as _ _ <- _.
  - inv_bindM H. destruct x as [[o1 s1] a1].
    inv_bindM H.
    assert (Hs1 : beams_sorted (beam_size self) s1).
    { unfold loop_body in E. inv_bindM E.
      destruct (decoder (model self) src (map (firstn i) outputs)) as [out attn0].
      inv_bindM E. destruct x1 as [o2 s2]. unfold retM in E. injection E as _ _ <- _.
      apply lift_ok in E2. destruct E2 as [E2 _].
      eapply compute_k_best_sorted; eauto. }
    destruct (torch_equal x fin).
    + unfold retM in H. now injection H as _ _ <- _.
    + eapply IH; eauto.
Qed.

(** C10.  After [init_vars], after every [compute_k_best] step, and so
    after the search loop, the [k] scores of every batch item are in
    non-increasing order: the row at index [b * k] carries the batch
    item's highest score, and each of the first [n_best] rows scores at
    least as high as each row after them. *)
Theorem beams_stored_best_first :
  (forall self src ev outputs log_scores,
      init_vars self src = (ev, Ok (outputs, log_scores)) ->
      beams_sorted (beam_size self) log_scores) /\
  (forall k eos_id outputs out log_scores i outputs' log_scores',
      compute_k_best k eos_id outputs out log_scores i = Ok (outputs', log_scores') ->
      beams_sorted k log_scores') /\
  (forall self src fin ts outputs log_scores attn ev outputs' log_scores' attn',
      beams_sorted (beam_size self) log_scores ->
      search_loop self src fin ts outputs log_scores attn
      = (ev, Ok (outputs', log_scores', attn')) ->
      beams_sorted (beam_size self) log_scores') /\
  (forall k log_scores,
      beams_sorted k log_scores ->
      (forall b j s0 s,
          j < k -> nth_error log_scores (b * k) = Some s0 ->
          nth_error log_scores (b * k + j) = Some s -> f_leb s s0 = true) /\
      (forall n_best b j1 j2 s1 s2,
          j1 < n_best -> n_best <= j2 -> j2 < k ->
          nth_error log_scores (b * k + j1) = Some s1 ->
          nth_error log_scores (b * k + j2) = Some s2 -> f_leb s2 s1 = true)).
Proof.
  split; [exact init_vars_sorted|].
  split; [exact compute_k_best_sorted|].
  split; [intros; eapply search_loop_sorted; eauto|].
  intros k log_scores Hs. split.
  - intros b j s0 s Hj E0 E. apply (Hs b 0 j s0 s); auto; try lia.
    now rewrite Nat.add_0_r.
  - intros n_best b j1 j2 s1 s2 H1 H2 H3 E1 E2.
    apply (Hs b j1 j2 s1 s2); auto; lia.
Qed.
End BeamsSorted.

Lemma beams_stored_best_first_witness :
  compute_k_best (F := QFloat) 2 2%Z [[1; 3; 0]; [1; 4; 0]]%Z
                 [[0; 0; 1 # 8; 1 # 2; 1 # 4]; [0; 0; 1 # 2; 1 # 4; 1 # 8]]%Q
                 [(-1)%Q; (-5)%Q] 2
  = Ok ([[1; 3; 3]; [1; 3; 4]]%Z, [(-2)%Q; (-3)%Q]) /\
  beams_sorted (F := QFloat) 2 [(-2)%Q; (-3)%Q].
Proof.
  split; [reflexivity|].
  exact (proj1 (proj2 (beams_stored_best_first (L := QFloatLaws)))
               2 2%Z [[1; 3; 0]; [1; 4; 0]]%Z
               [[0; 0; 1 # 8; 1 # 2; 1 # 4]; [0; 0; 1 # 2; 1 # 4; 1 # 8]]%Q
               [(-1)%Q; (-5)%Q] 2 _ _ eq_refl).
Defined.

(** ** C2: rows whose previous token is [<eos>] *)

Section FinishedRows.
Context {F : FloatOps} {L : FloatLaws F} {SL : SentinelLaws F}.

Lemma candidate_first_slot k probs log_scores b q :
  Forall (fun r => length r = k) probs ->
  length probs = length log_scores ->
  q < k -> b * k + q < length probs ->
  exists s0, candidate k probs log_scores b (q * k) = Some s0.
Proof.
  intros W Lp Hq Hlt. unfold candidate.
  rewrite Nat.div_mul, Nat.Div0.mod_mul by lia.
  destruct (nth_error probs (b * k + q)) as [p|] eqn:Ep;
    [|apply nth_error_None in Ep; lia].
  destruct (nth_error log_scores (b * k + q)) as [s|] eqn:Es;
    [|apply nth_error_None in Es; lia].
  assert (Hp : length p = k).
  { rewrite Forall_forall in W. eapply W, nth_error_In, Ep. }
  destruct p as [|x p]; [simpl in Hp; lia|]. simpl. eauto.
Qed.

(** A selected candidate is not strictly outscored by the first
    candidates of all [k] rows of its batch item: they would all be
    selected with it. *)
Lemma outscored_not_selected k i probs ix log_scores outputs outputs' log_scores' b sel c :
  Forall (fun r => length r = k) probs ->
  length probs = length log_scores ->
  b * k + k <= length probs ->
  keeps_top_k k i probs ix log_scores outputs outputs' log_scores' b sel ->
  outscored_by_first_slots k probs log_scores b c ->
  ~ In c sel.
Proof.
  intros W Lp Hb (Hlen & Hnd & Hrange & _ & Hout & Hrows) Hc Hin.
  assert (Hk : k <> 0).
  { intros ->. destruct sel; [destruct Hin | discriminate]. }
  destruct (In_nth_error _ _ Hin) as (m & Hm).
  destruct (Hrows _ _ Hm) as (_ & _ & _ & _ & sc & Hsc & _).
  assert (Hfirst : forall q, q < k -> In (q * k) sel /\ q * k <> c).
  { intros q Hq.
    destruct (candidate_first_slot log_scores b W Lp Hq ltac:(lia)) as (s0 & Hs0).
    pose proof (Hc q s0 sc Hq Hs0 Hsc) as Hlt.
    split.
    - destruct (in_dec Nat.eq_dec (q * k) sel) as [Hi|Hn]; [exact Hi|].
      assert (q * k < k * k) by nia.
      rewrite (Hout (q * k) c s0 sc) in Hlt; auto; discriminate.
    - intros <-. rewrite Hs0 in Hsc. injection Hsc as <-.
      rewrite f_leb_refl in Hlt. discriminate. }
  assert (Hnd' : NoDup (c :: map (fun q => q * k) (seq 0 k))).
  { constructor.
    - intros Hi. apply in_map_iff in Hi. destruct Hi as (q & Hq & Hs).
      apply in_seq in Hs. destruct (Hfirst q ltac:(lia)) as [_ Hne]. contradiction.
    - apply Finite.Injective_map_NoDup; [|apply seq_NoDup].
      intros x y Hxy. nia. }
  assert (Hincl : incl (c :: map (fun q => q * k) (seq 0 k)) sel).
  { intros x [<-|Hx]; [exact Hin|].
    apply in_map_iff in Hx. destruct Hx as (q & <- & Hs).
    apply in_seq in Hs. now apply Hfirst; lia. }
  pose proof (NoDup_incl_length Hnd' Hincl) as Hle.
  simpl in Hle. rewrite length_map, length_seq in Hle. lia.
Qed.

Lemma nth_error_eos_ids k eos_id j tok :
  nth_error (eos_ids k eos_id) j = Some tok ->
  (j = 0 -> tok = eos_id) /\ (j <> 0 -> tok = (-1)%Z).
Proof.
  unfold eos_ids. destruct j as [|j]; simpl; intros H.
  - injection H as <-. split; [reflexivity | intros []; reflexivity].
  - split; [discriminate|]. intros _. apply nth_error_In, repeat_spec in H. exact H.
Qed.

(** C2, as the code has it.  After one application of [compute_k_best]
    at timestep [i]: a finished row (token [<eos>] at column [i - 1])
    offers [<eos>] with probability 1 in exactly one candidate slot,
    slot 0, and the sentinel id [-1] with the stored [1e-100] in the
    others.  Where the logarithm of the stored [1e-100] is minus
    infinity and the first candidates of the rows of the batch item are
    finite, no sentinel is selected: every new row whose selected parent
    is finished comes from the parent's slot 0, keeps the parent's prefix
    and the parent's score, and its token at column [i] is [<eos>]. *)
Theorem finished_parent_survivors :
  forall k eos_id outputs out log_scores i w outputs' log_scores',
    Forall (fun r => length r = w) outputs ->
    length log_scores = length outputs ->
    compute_k_best k eos_id outputs out log_scores i = Ok (outputs', log_scores') ->
    exists probs ix B,
      masked_topk k eos_id outputs out i = Ok (probs, ix) /\
      length outputs = B * k /\
      (forall r row,
          nth_error outputs r = Some row -> finished eos_id i row ->
          nth_error probs r = Some (f_of_Z 1 :: repeat f_1e_100 (k - 1)) /\
          nth_error ix r = Some (eos_id :: repeat (-1)%Z (k - 1))) /\
      forall b, b < B ->
        first_slots_finite k probs log_scores b ->
        exists sel : list nat,
          keeps_top_k k i probs ix log_scores outputs outputs' log_scores' b sel /\
          forall m c parent s,
            nth_error sel m = Some c ->
            nth_error outputs (b * k + c / k) = Some parent ->
            finished eos_id i parent ->
            nth_error log_scores (b * k + c / k) = Some s ->
            c mod k = 0 /\
            exists row',
              nth_error outputs' (b * k + m) = Some row' /\
              firstn i row' = firstn i parent /\
              nth_error row' i = Some eos_id /\
              nth_error log_scores' (b * k + m) = Some s.
Proof.
  intros k eos_id outputs out log_scores i w outputs' log_scores' Wo Ls H.
  destruct (@compute_k_best_keeps_top_k _ _ _ _ _ _ _ _ _ _ _ Wo Ls H)
    as (probs & ix & B & Hm & (Hi & Wp & Lp) & HR & _ & _ & Hsel).
  pose proof (masked_topk_rows _ _ _ _ _ Hm) as (Hk & _ & _ & _ & _ & _ & Hrows).
  assert (Hfin : forall r row,
             nth_error outputs r = Some row -> finished eos_id i row ->
             nth_error probs r = Some (eos_probs k) /\
             nth_error ix r = Some (eos_ids k eos_id)).
  { intros r row Hr Hf. destruct (Hrows _ _ Hr) as (tok & dist & tk & Ht & _ & _ & Hp & Hx).
    unfold finished in Hf. rewrite Hf in Ht. injection Ht as <-.
    now rewrite Z.eqb_refl in Hp, Hx. }
  exists probs, ix, B. repeat split; auto; try (eapply Hfin; eassumption).
  intros b Hb Hfinite. destruct (Hsel b Hb) as (sel & Hkeep).
  exists sel. split; [exact Hkeep|].
  intros m c parent s Hm' Hpar Hf Hs.
  destruct (Hfin _ _ Hpar Hf) as (Hpr & Hix).
  assert (Hzero : c mod k = 0).
  { destruct (c mod k) as [|j] eqn:Ec; [reflexivity|]. exfalso.
    assert (Hjk : S j < k) by (rewrite <- Ec; now apply Nat.mod_upper_bound).
    assert (Hcand : candidate k probs log_scores b c = Some (f_log f_1e_100)).
    { unfold candidate. rewrite Hpr, Hs, Ec. unfold eos_probs. cbn [nth_error].
      rewrite nth_error_repeat by lia. simpl. now rewrite f_add_stored. }
    assert (Hin : In c sel) by (eapply nth_error_In; eauto).
    revert Hin. eapply outscored_not_selected; eauto; try congruence.
    - pose proof (Nat.mul_le_mono_r (S b) B k ltac:(lia)) as Hle. simpl in Hle. lia.
    - intros q s0 sc Hq Hs0 Hsc. rewrite Hcand in Hsc. injection Hsc as <-.
      exact (Hfinite q s0 Hq Hs0). }
  split; [exact Hzero|].
  destruct Hkeep as (_ & _ & _ & _ & _ & Hnew).
  destruct (Hnew _ _ Hm')
    as (parent' & old & irow & tok & s' & Hc & Hs' & Hp' & Hold & Hir & Htok & Ho).
  rewrite Hpar in Hp'. injection Hp' as <-.
  rewrite Hix in Hir. injection Hir as <-.
  assert (Lpar : length parent = w).
  { rewrite Forall_forall in Wo. eapply Wo, nth_error_In, Hpar. }
  exists (firstn i parent ++ tok :: skipn (S i) old).
  split; [exact Ho|]. split.
  { rewrite firstn_app, firstn_firstn, Nat.min_id, length_firstn, Lpar.
    replace (i - Nat.min i w) with 0 by lia. now rewrite firstn_0, app_nil_r. }
  assert (Hnth : nth_error (firstn i parent ++ tok :: skipn (S i) old) i = Some tok).
  { rewrite nth_error_app2 by (rewrite length_firstn; lia).
    rewrite length_firstn, Lpar. now replace (i - Nat.min i w) with 0 by lia. }
  destruct (nth_error_eos_ids _ _ _ Htok) as (H0 & _).
  rewrite Hnth, (H0 Hzero). split; [reflexivity|].
  rewrite Hs'. rewrite <- Hc. unfold candidate. rewrite Hpr, Hs, Hzero. simpl.
  now rewrite f_log_one.
Qed.
End FinishedRows.

(** ** The extended rationals satisfy the laws *)

Lemma EFloatLaws : FloatLaws EFloat.
Proof.
  constructor; simpl.
  - intros [x|] [y|]; simpl; auto. rewrite !Qle_bool_iff.
    destruct (Qlt_le_dec x y) as [H|H]; [left; now apply Qlt_le_weak | now right].
  - intros [x|] [y|] [z|]; simpl; auto; try discriminate.
    rewrite !Qle_bool_iff. apply Qle_trans.
  - intros [x|] [y|]; simpl; auto; try discriminate. intros H.
    destruct (Qle_bool x 0) eqn:Ex; [reflexivity|].
    destruct (Qle_bool y 0) eqn:Ey.
    + rewrite Qle_bool_iff in H, Ey.
      assert (Hx : Qle_bool x 0 = true) by (apply Qle_bool_iff; eapply Qle_trans; eauto).
      congruence.
    + simpl. exact (f_log_mono (FloatLaws := QFloatLaws) x y H).
  - intros [s|]; simpl; [|reflexivity].
    f_equal. exact (f_log_one (FloatLaws := QFloatLaws) s).
Qed.

Lemma EFloatSentinel : SentinelLaws EFloat.
Proof. constructor; reflexivity. Qed.

Lemma finished_parent_survivors_witness :
  let outputs := [[1; 2; 0]; [1; 3; 0]]%Z in
  let out : list (list (option Q)) :=
    [map Some [0; 0; 1 # 2; 1 # 4; 1 # 8]; map Some [0; 0; 1 # 8; 1 # 2; 1 # 4]]%Q in
  let log_scores := [Some (-1)%Q; Some (-30)%Q] in
  let outputs' := [[1; 2; 2]; [1; 3; 3]]%Z in
  let log_scores' := [Some (-1)%Q; Some (-31)%Q] in
  let probs := [[Some 1%Q; Some 0%Q]; [Some (1 # 2)%Q; Some (1 # 4)%Q]] in
  let ix := [[2; -1]; [3; 4]]%Z in
  Forall (fun r => length r = 3) outputs /\
  length log_scores = length outputs /\
  compute_k_best (F := EFloat) 2 2%Z outputs out log_scores 2 = Ok (outputs', log_scores') /\
  masked_topk (F := EFloat) 2 2%Z outputs out 2 = Ok (probs, ix) /\
  first_slots_finite (F := EFloat) 2 probs log_scores 0 /\
  exists sel : list nat,
    keeps_top_k (F := EFloat) 2 2 probs ix log_scores outputs outputs' log_scores' 0 sel /\
    forall m c parent s,
      nth_error sel m = Some c ->
      nth_error outputs (0 * 2 + c / 2) = Some parent ->
      finished 2%Z 2 parent ->
      nth_error log_scores (0 * 2 + c / 2) = Some s ->
      c mod 2 = 0 /\
      exists row',
        nth_error outputs' (0 * 2 + m) = Some row' /\
        firstn 2 row' = firstn 2 parent /\
        nth_error row' 2 = Some 2%Z /\
        nth_error log_scores' (0 * 2 + m) = Some s.
Proof.
  intros outputs out log_scores outputs' log_scores' probs ix.
  assert (W : Forall (fun r => length r = 3) outputs) by (repeat constructor).
  assert (Hfinite : first_slots_finite (F := EFloat) 2 probs log_scores 0).
  { intros [|[|q]] s0 Hq Hs0; try lia; vm_compute in Hs0; injection Hs0 as <-;
      reflexivity. }
  split; [exact W|]. split; [reflexivity|]. split; [reflexivity|].
  split; [reflexivity|]. split; [exact Hfinite|].
  destruct (@finished_parent_survivors EFloat EFloatLaws EFloatSentinel
              2 2%Z outputs out log_scores 2 3 outputs' log_scores' W eq_refl eq_refl)
    as (probs0 & ix0 & B & Hm & HB & _ & Hb).
  assert (Hm' : masked_topk (F := EFloat) 2 2%Z outputs out 2 = Ok (probs, ix))
    by reflexivity.
  rewrite Hm' in Hm. injection Hm as <- <-.
  assert (H0 : 0 < B) by (simpl in HB; lia).
  exact (Hb 0 H0 Hfinite).
Defined.

(** The claim as stated, with "that row" the row of the same index: the
    finished row 1 of this state is replaced by a second continuation of
    row 0, so its score changes and its token at column 2 is not [<eos>]. *)
Lemma finished_row_can_be_replaced :
  ~ (forall k eos_id outputs out log_scores i outputs' log_scores' r row s,
        compute_k_best (F := QFloat) k eos_id outputs out log_scores i
        = Ok (outputs', log_scores') ->
        nth_error outputs r = Some row ->
        finished eos_id i row ->
        nth_error log_scores r = Some s ->
        nth_error log_scores' r = Some s /\
        exists row', nth_error outputs' r = Some row' /\ nth_error row' i = Some eos_id).
Proof.
  intros H.
  destruct (H 2 2%Z [[1; 3; 0]; [1; 2; 0]]%Z
              [[0; 0; 1 # 8; 1 # 2; 1 # 4]; [0; 0; 1 # 2; 1 # 4; 1 # 8]]%Q
              [(-1)%Q; (-5)%Q] 2
              [[1; 3; 3]; [1; 3; 4]]%Z [(-2)%Q; (-3)%Q]
              1 [1; 2; 0]%Z (-5)%Q eq_refl eq_refl eq_refl eq_refl) as [E _].
  discriminate E.
Qed.

(** ** C7: a distribution with the wrong number of rows *)

Lemma mapM_ok_intro {A B} (f : A -> result B) (l : list A) :
  Forall (fun a => exists b, f a = Ok b) l -> exists l', mapM f l = Ok l'.
Proof.
  induction 1 as [|a l [b Hb] Hl [l' IH]]; simpl.
  - eauto.
  - rewrite Hb, IH. simpl. eauto.
Qed.

Section RowMismatch.
Context {F : FloatOps}.

(** C7.  When the number of rows of [out] is not the number of rows of
    [outputs], [compute_k_best] raises and returns no state; the
    exception is the shape error of [view(row_b, 1)] whenever the
    earlier lines succeed (a beam size of at least 1 and at most the
    vocabulary size, a column [i - 1] in every row). *)
Theorem compute_k_best_row_mismatch :
  forall k eos_id outputs out log_scores i,
    length out <> length outputs ->
    (exists e, compute_k_best k eos_id outputs out log_scores i = Raise e) /\
    (k <> 0 ->
     Forall (fun dist => k <= length dist) out ->
     Forall (fun row => 1 <= i <= length row) outputs ->
     compute_k_best k eos_id outputs out log_scores i
     = Raise (RuntimeError ShapeInvalid)).
Proof.
  intros k eos_id outputs out log_scores i Hne.
  assert (Hview : forall prev,
             column outputs (Z.of_nat i - 1) = Ok prev ->
             view_column (length out) (map (Z.eqb eos_id) prev)
             = Raise (RuntimeError ShapeInvalid)).
  { intros prev Hp. unfold column in Hp. apply mapM_length in Hp.
    unfold view_column. rewrite length_map, Hp.
    destruct (Nat.eqb_spec (length outputs) (length out)); [congruence | reflexivity]. }
  unfold compute_k_best, masked_topk. split.
  - destruct (floordiv (length out) k) as [q|e]; simpl; [|eauto].
    destruct (mapM (topk k) out) as [tk|e]; simpl; [|eauto].
    destruct (column outputs (Z.of_nat i - 1)) as [prev|e] eqn:Ec; simpl; [|eauto].
    rewrite (Hview _ eq_refl). simpl. eauto.
  - intros Hk Hout Hrows.
    unfold floordiv. destruct (Nat.eqb_spec k 0) as [|_]; [contradiction|]. simpl.
    destruct (@mapM_ok_intro _ _ (topk k) out) as [tk ->].
    { eapply Forall_impl; [|exact Hout]. intros d Hd. cbv beta in Hd. unfold topk.
      destruct (Nat.leb_spec k (length d)); [eauto | lia]. }
    simpl.
    destruct (@mapM_ok_intro _ _ (fun row : list Z => py_get row (Z.of_nat i - 1)) outputs)
      as [prev Hprev].
    { eapply Forall_impl; [|exact Hrows]. intros row Hrow. cbv beta in Hrow. destruct Hrow as [H1 H2]. unfold py_get.
      destruct (Z.ltb_spec (Z.of_nat i - 1) 0); [lia|].
      destruct (Z.ltb_spec (Z.of_nat i - 1) 0); [lia|].
      destruct (nth_error row (Z.to_nat (Z.of_nat i - 1))) eqn:En; [eauto|].
      apply nth_error_None in En. lia. }
    unfold column. rewrite Hprev. simpl. rewrite (Hview _ Hprev). reflexivity.
Qed.
End RowMismatch.

Lemma compute_k_best_row_mismatch_witness :
  let outputs := [[1; 3; 0]; [1; 2; 0]]%Z in
  let out := [[0; 0; 1 # 8; 1 # 2; 1 # 4]]%Q in
  length out <> length outputs /\
  (exists e, compute_k_best (F := QFloat) 2 2%Z outputs out [(-1)%Q; (-5)%Q] 2 = Raise e) /\
  (2 <> 0 ->
   Forall (fun dist => 2 <= length dist) out ->
   Forall (fun row => 1 <= 2 <= length row) outputs ->
   compute_k_best (F := QFloat) 2 2%Z outputs out [(-1)%Q; (-5)%Q] 2
   = Raise (RuntimeError ShapeInvalid)).
Proof.
  intros outputs out.
  assert (Hne : length out <> length outputs) by (simpl; lia).
  split; [exact Hne|].
  exact (@compute_k_best_row_mismatch QFloat 2 2%Z outputs out [(-1)%Q; (-5)%Q] 2 Hne).
Defined.

(** ** C3: the search loop and its early stop *)

Lemma expand_rows_length {A} (n : nat) (x y : list A) :
  expand_rows n x = Ok y -> length y = n.
Proof.
  intros H. apply expand_rows_ok in H. destruct H as [[H ->]|(_ & _ & H)]; assumption.
Qed.

Lemma torch_equal_eq (a b : list Z) : torch_equal a b = true <-> a = b.
Proof.
  revert b; induction a as [|x a IH]; intros [|y b]; simpl; split; try congruence;
    try discriminate.
  - intros H. apply andb_true_iff in H. destruct H as [Hx Ha].
    apply Z.eqb_eq in Hx. apply IH in Ha. congruence.
  - intros H. injection H as -> ->. rewrite Z.eqb_refl. now apply IH.
Qed.

(** The test of line 195, for an [is_finished] with one entry per row. *)
Lemma column_all_eos (eos_id : Z) (t : nat) (outputs : list (list Z)) col :
  column outputs (Z.of_nat t) = Ok col ->
  (col = repeat eos_id (length outputs) <-> all_rows_eos eos_id t outputs).
Proof.
  unfold column, all_rows_eos. revert col.
  induction outputs as [|row outputs IH]; simpl; intros col H.
  - injection H as <-. split; [constructor | reflexivity].
  - inv_bind H. inv_bind H. injection H as <-. apply py_get_nat in E.
    specialize (IH _ E0). split.
    + intros Hc. injection Hc as -> Hc. constructor; [exact E | now apply IH].
    + intros Hf. apply Forall_cons_iff in Hf. destruct Hf as [Hr Hf].
      rewrite E in Hr. injection Hr as ->. f_equal. now apply IH.
Qed.

Section SearchLoop.
Context {F : FloatOps}.

Lemma compute_k_best_length k eos_id outputs out log_scores i outputs' log_scores' :
  compute_k_best k eos_id outputs out log_scores i = Ok (outputs', log_scores') ->
  length outputs' = length outputs.
Proof.
  unfold compute_k_best. intros H. inv_bind H. destruct x as [probs ix].
  unfold select_k_best in H. do 9 inv_bind H. injection H as <- _.
  apply mapM_length in E8. apply expand_rows_length in E5, E7.
  rewrite E8, length_combine, E7, Nat.min_id, length_zip_with, E5. apply Nat.min_id.
Qed.

Lemma loop_body_ok self src i outputs log_scores ev o s a :
  loop_body self src i outputs log_scores = (ev, Ok (o, s, a)) ->
  ev = [EvDecode i] /\ length o = length outputs.
Proof.
  unfold loop_body. intros H. inv_bindM H.
  destruct (decoder (model self) src (map (firstn i) outputs)) as [out attn0].
  inv_bindM H. destruct x0 as [o2 s2]. unfold retM in H. injection H as <- <- _ _.
  apply lift_ok in E0. destruct E0 as [E0 ->].
  unfold emit in E. injection E as <- _. subst.
  split; [reflexivity|]. eapply compute_k_best_length; eauto.
Qed.

Lemma search_loop_trace self src m :
  forall t outputs log_scores attn ev outputs' log_scores' attn',
    search_loop self src (repeat (eos_id self) (length outputs)) (seq t m)
                outputs log_scores attn
    = (ev, Ok (outputs', log_scores', attn')) ->
    exists n,
      n <= m /\
      ev = map EvDecode (seq t n) /\
      run_steps self src n t outputs log_scores attn
      = (ev, Ok (outputs', log_scores', attn')) /\
      (forall j evj o s a,
          0 < j < n ->
          run_steps self src j t outputs log_scores attn = (evj, Ok (o, s, a)) ->
          ~ all_rows_eos (eos_id self) (t + j - 1) o) /\
      (n < m -> 0 < n /\ all_rows_eos (eos_id self) (t + n - 1) outputs').
Proof.
  induction m as [|m IH]; cbn [seq search_loop];
    intros t outputs log_scores attn ev outputs' log_scores' attn' H.
  - exists 0. unfold retM in H. injection H as <- <- <- <-.
    repeat split; auto; try lia; intros; lia.
  - inv_bindM H. destruct x as [[o1 s1] a1].
    pose proof (loop_body_ok _ _ _ _ _ E) as [-> Lo1].
    inv_bindM H. rename x into col. apply lift_ok in E0. destruct E0 as [Ecol ->].
    pose proof (column_all_eos (eos_id self) _ _ Ecol) as Hall.
    rewrite Lo1 in Hall.
    destruct (torch_equal col (repeat (eos_id self) (length outputs))) eqn:Eq.
    + apply torch_equal_eq in Eq. apply Hall in Eq.
      unfold retM in H. injection H as <- <- <- <-. subst.
      exists 1. cbn [run_steps seq map]. rewrite E. unfold bindM, retM. simpl.
      repeat split; auto; try lia.
      now replace (t + 1 - 1) with t by lia.
    + assert (Hnot : ~ all_rows_eos (eos_id self) t o1).
      { intros Ha. apply Hall in Ha. apply torch_equal_eq in Ha. congruence. }
      rewrite <- Lo1 in H.
      destruct (IH _ _ _ _ _ _ _ _ H) as (n & Hn & Hev & Hrun & Hmid & Hlast).
      subst. exists (S n). cbn [run_steps seq map]. rewrite E. unfold bindM at 1.
      rewrite Hrun. simpl.
      repeat split; auto; try lia.
      * intros j evj o s a Hj Hr.
        destruct j as [|j]; [lia|]. cbn [run_steps] in Hr. rewrite E in Hr.
        unfold bindM at 1 in Hr.
        destruct (run_steps self src j (S t) o1 s1 (Some a1)) as [evr [[[o' s'] a']|e]] eqn:Er;
          [|discriminate].
        injection Hr as _ <- _ _.
        destruct j as [|j].
        -- cbn [run_steps] in Er. unfold retM in Er. injection Er as _ <- _ _.
           now replace (t + 1 - 1) with t by lia.
        -- replace (t + S (S j) - 1) with (S t + S j - 1) by lia.
           eapply Hmid; [|exact Er]. lia.
      * replace (t + S n - 1) with (S t + n - 1) by lia. apply Hlast. lia.
Qed.

Lemma init_vars_rows self src ev outputs log_scores :
  init_vars self src = (ev, Ok (outputs, log_scores)) ->
  length outputs = beam_size self * length src.
Proof.
  unfold init_vars. intros H. do 6 inv_bindM H. unfold retM in H. injection H as _ <- _.
  apply lift_ok in E3, E4. destruct E3 as [E3 _]. destruct E4 as [E4 _].
  unfold set_column in E4. inv_bind E4.
  apply mapM_length in E3, E4. apply expand_rows_length in E5.
  rewrite E4, length_combine, E5, Nat.min_id, E3. apply repeat_length.
Qed.

(** C3.  The loop of [beam_search] over the timesteps [2 .. max_len - 1],
    started on the state of [init_vars]: a run that returns has executed
    the timesteps [2 .. n + 1] for some [n <= max_len - 2] (one decoder
    call each) and returns the state after these [n] steps; after every
    earlier step some row lacked [<eos>] at the column just written, and
    when the loop stops before [max_len - 1] every row of the whole grid
    has [<eos>] at the column just written. *)
Theorem search_loop_early_stop :
  forall self batch ev0 outputs log_scores ev outputs' log_scores' attn',
    init_vars self batch = (ev0, Ok (outputs, log_scores)) ->
    search_loop self batch (repeat (eos_id self) (beam_size self * length batch))
                (seq 2 (max_len self - 2)) outputs log_scores None
    = (ev, Ok (outputs', log_scores', attn')) ->
    exists n,
      n <= max_len self - 2 /\
      ev = map EvDecode (seq 2 n) /\
      run_steps self batch n 2 outputs log_scores None
      = (ev, Ok (outputs', log_scores', attn')) /\
      (forall j evj o s a,
          0 < j < n ->
          run_steps self batch j 2 outputs log_scores None = (evj, Ok (o, s, a)) ->
          ~ all_rows_eos (eos_id self) (j + 1) o) /\
      (n < max_len self - 2 -> 0 < n /\ all_rows_eos (eos_id self) (n + 1) outputs').
Proof.
  intros self batch ev0 outputs log_scores ev outputs' log_scores' attn' Hinit H.
  rewrite <- (init_vars_rows _ _ Hinit) in H.
  destruct (search_loop_trace _ _ _ _ _ _ _ H) as (n & Hn & Hev & Hrun & Hmid & Hlast).
  exists n. repeat split; auto.
  - intros j evj o s a Hj Hr. replace (j + 1) with (2 + j - 1) by lia. eauto.
  - apply Hlast. assumption.
  - replace (n + 1) with (2 + n - 1) by lia. now apply Hlast.
Qed.
End SearchLoop.

Lemma search_loop_early_stop_witness :
  let self := toy_decoder next_eos_after_a 5 2 in
  let batch := [[7; 8]%Z] in
  let outputs := [[1; 3; 0; 0; 0]; [1; 4; 0; 0; 0]]%Z in
  let log_scores := [(-1)%Q; (-2)%Q] in
  let outputs' := [[1; 3; 2; 2; 0]; [1; 3; 3; 2; 0]]%Z in
  let log_scores' := [(-2)%Q; (-4)%Q] in
  let attn' := Some [[[[[1; 0]; [1; 0]; [1; 0]]]; [[[1; 0]; [1; 0]; [1; 0]]]]]%Q in
  let ev := [EvDecode 2; EvDecode 3] in
  init_vars self batch = ([EvEncode; EvDecode 1], Ok (outputs, log_scores)) /\
  search_loop self batch (repeat (eos_id self) (beam_size self * length batch))
              (seq 2 (max_len self - 2)) outputs log_scores None
  = (ev, Ok (outputs', log_scores', attn')) /\
  exists n,
    n <= max_len self - 2 /\
    ev = map EvDecode (seq 2 n) /\
    run_steps self batch n 2 outputs log_scores None
    = (ev, Ok (outputs', log_scores', attn')) /\
    (forall j evj o s a,
        0 < j < n ->
        run_steps self batch j 2 outputs log_scores None = (evj, Ok (o, s, a)) ->
        ~ all_rows_eos (eos_id self) (j + 1) o) /\
    (n < max_len self - 2 -> 0 < n /\ all_rows_eos (eos_id self) (n + 1) outputs').
Proof.
  intros self batch outputs log_scores outputs' log_scores' attn' ev.
  split; [reflexivity|]. split; [reflexivity|].
  exact (@search_loop_early_stop QFloat self batch [EvEncode; EvDecode 1] outputs log_scores
           ev outputs' log_scores' attn' eq_refl eq_refl).
Defined.

(** ** C4: trimming at the first [<eos>] *)

Section Trimming.
Context {F : FloatOps}.

(** The positions of [e] in [l], counted from [s]. *)
Lemma nonzero_from_cons (e : Z) (s : nat) (x : Z) (l : list Z) :
  map fst (filter (fun it => (snd it =? e)%Z) (enumerate_from s (x :: l)))
  = (if (x =? e)%Z then [s] else [])
      ++ map fst (filter (fun it => (snd it =? e)%Z) (enumerate_from (S s) l)).
Proof. simpl. now destruct (x =? e)%Z. Qed.

Lemma nonzero_from_absent (e : Z) (s : nat) (l : list Z) :
  ~ In e l ->
  map fst (filter (fun it => (snd it =? e)%Z) (enumerate_from s l)) = [].
Proof.
  revert s; induction l as [|x l IH]; intros s Hn; [reflexivity|].
  rewrite nonzero_from_cons, IH by (intros Hi; apply Hn; now right).
  destruct (Z.eqb_spec x e) as [->|]; [|reflexivity].
  exfalso. apply Hn. now left.
Qed.

Lemma nonzero_from_first (e : Z) (s : nat) (pre post : list Z) :
  ~ In e pre ->
  map fst (filter (fun it => (snd it =? e)%Z) (enumerate_from s (pre ++ e :: post)))
  = (s + length pre)
      :: map fst (filter (fun it => (snd it =? e)%Z)
                         (enumerate_from (S (s + length pre)) post)).
Proof.
  revert s; induction pre as [|x pre IH]; intros s Hn.
  - simpl app. rewrite nonzero_from_cons, Z.eqb_refl. simpl. now rewrite Nat.add_0_r.
  - simpl app. rewrite nonzero_from_cons.
    destruct (Z.eqb_spec x e) as [->|_]; [exfalso; apply Hn; now left|].
    rewrite IH by (intros Hi; apply Hn; now right).
    replace (S s + length pre) with (s + length (x :: pre)) by (simpl; lia).
    reflexivity.
Qed.

(** [_length] is the position of the first [<eos>] only for a row that
    holds [<eos>] once, and not at position 0; a row without [<eos>]
    gives its length, and so does a row whose only [<eos>] is at
    position 0; a second [<eos>] raises. *)
Lemma _length_cases (eos_tok : Z) :
  (forall tokens, ~ In eos_tok tokens -> _length tokens eos_tok = Ok (length tokens)) /\
  (forall pre post,
      ~ In eos_tok pre -> ~ In eos_tok post -> pre <> [] ->
      _length (pre ++ eos_tok :: post) eos_tok = Ok (length pre)) /\
  (forall post,
      ~ In eos_tok post ->
      _length (eos_tok :: post) eos_tok = Ok (length (eos_tok :: post))) /\
  (forall pre mid post,
      ~ In eos_tok pre -> ~ In eos_tok mid ->
      _length (pre ++ eos_tok :: mid ++ eos_tok :: post) eos_tok = Raise ValueError).
Proof.
  unfold _length, nonzero_eq, enumerate. repeat split.
  - intros tokens Hn. now rewrite nonzero_from_absent.
  - intros pre post Hpre Hpost Hne.
    rewrite nonzero_from_first, nonzero_from_absent by assumption. simpl.
    destruct pre; [contradiction | reflexivity].
  - intros post Hpost.
    change (eos_tok :: post) with ([] ++ eos_tok :: post) at 1.
    rewrite (@nonzero_from_first eos_tok 0 [] post) by (intros []).
    rewrite nonzero_from_absent by assumption. reflexivity.
  - intros pre mid post Hpre Hmid.
    rewrite nonzero_from_first by assumption.
    rewrite nonzero_from_first by assumption. reflexivity.
Qed.

(** The trimmed sentence of a row with a single [<eos>], after position
    0, and of a row with none: the tokens after [<sos>] up to [<eos>]. *)
Lemma trim_and_itos_cases (self : BeamSearch) :
  (forall sos pre post,
      ~ In (eos_id self) (sos :: pre) -> ~ In (eos_id self) post ->
      trim_and_itos self (sos :: pre ++ eos_id self :: post)
      = mapM (py_get (itos self)) pre) /\
  (forall sos rest,
      ~ In (eos_id self) (sos :: rest) ->
      trim_and_itos self (sos :: rest) = mapM (py_get (itos self)) rest).
Proof.
  destruct (_length_cases (eos_id self)) as (Hnone & Hone & _ & _). split.
  - intros sos pre post Hpre Hpost. unfold trim_and_itos.
    change (sos :: pre ++ eos_id self :: post) with ((sos :: pre) ++ eos_id self :: post).
    rewrite (Hone (sos :: pre) post Hpre Hpost) by discriminate.
    cbn [bind]. rewrite firstn_app, firstn_all, Nat.sub_diag. simpl.
    now rewrite app_nil_r.
  - intros sos rest Hn. unfold trim_and_itos. rewrite (Hnone _ Hn).
    simpl. now rewrite firstn_all.
Qed.
End Trimming.

(** C4, on the code: a row that a beam finished one step before the loop
    stopped holds [<eos>] twice, and its extraction raises [ValueError]
    instead of yielding the tokens before the first [<eos>]; the rows of
    the specification's examples are extracted as stated.  The decoding
    of the toy decoder, whose first beam finishes at timestep 2 and whose
    second beam finishes at timestep 3, fails for this reason. *)
Theorem trimming_raises_on_second_eos :
  let self := toy_decoder next_eos_after_a 5 2 in
  _length [1; 3; 2; 2; 0]%Z 2%Z = Raise ValueError /\
  trim_and_itos self [1; 3; 2; 2; 0]%Z = Raise ValueError /\
  trim_and_itos self [1; 3; 4; 2; 0; 0]%Z = Ok ["a"; "b"]%string /\
  trim_and_itos self [1; 3; 4; 3; 4]%Z = Ok ["a"; "b"; "a"; "b"]%string /\
  beam_search self [[7; 8]%Z] None 1 None None
  = ([EvEncode; EvDecode 1; EvDecode 2; EvDecode 3], Raise ValueError).
Proof. repeat split; reflexivity. Qed.

(** ** C5: length normalization *)

Section LengthNormalize.
Context {F : FloatOps}.

Lemma length_argsort (l : list float) : length (argsort l) = length l.
Proof.
  unfold argsort, indexed.
  rewrite length_map, length_isort, length_combine, length_seq. apply Nat.min_id.
Qed.

Lemma argsort_perm (l : list float) : Permutation (argsort l) (seq 0 (length l)).
Proof.
  unfold argsort. rewrite <- map_snd_indexed.
  apply Permutation_map, isort_perm.
Qed.

(** The indices [length_normalize] returns for a batch item are a
    permutation of the positions [0 .. K-1] of a batch item (of the item
    at the mirrored position in the batch). *)
Lemma length_normalize_indices lengths log_probs coff scores indices :
  length_normalize lengths log_probs coff = Ok (scores, indices) ->
  Forall (fun ids => Permutation ids (seq 0 (length ids))) indices.
Proof.
  unfold length_normalize. intros H. inv_bind H. injection H as _ <-.
  apply Forall_rev. rewrite Forall_map. rewrite Forall_forall. intros p _.
  rewrite length_argsort. apply argsort_perm.
Qed.

Lemma take_indices_nth_error {A} (prb : list A) ids out j a :
  take_indices prb ids = Ok out -> nth_error out j = Some a ->
  exists i, nth_error ids j = Some i /\ nth_error prb i = Some a.
Proof.
  unfold take_indices. intros H Hj.
  destruct (mapM_nth_error _ _ _ H Hj) as (i & Hi & Hg).
  apply py_get_nat in Hg. eauto.
Qed.
End LengthNormalize.

Section LengthNormalizeOrder.
Context {F : FloatOps} {L : FloatLaws F}.

Lemma le_val_total (x y : float * nat) : le_val x y = true \/ le_val y x = true.
Proof. unfold le_val. apply f_leb_total. Qed.

Lemma le_val_trans (x y z : float * nat) :
  le_val x y = true -> le_val y z = true -> le_val x z = true.
Proof. unfold le_val. apply f_leb_trans. Qed.

(** For a batch of one item the scores come back in non-decreasing
    order: worst first. *)
Lemma length_normalize_one_item lens ps coff scores indices :
  length_normalize [lens] [ps] coff = Ok (scores, indices) ->
  exists r, scores = [r] /\
    forall j1 j2 a b, j1 <= j2 -> nth_error r j1 = Some a -> nth_error r j2 = Some b ->
                      f_leb a b = true.
Proof.
  unfold length_normalize. simpl. intros H. inv_bind H. injection H as <- <-.
  inv_bind E. injection E as <-. rename x0 into r, E0 into E.
  exists r. split; [reflexivity|].
  set (pen := zip_with f_div ps _) in *.
  intros j1 j2 a b Hle Ha Hb.
  destruct (take_indices_nth_error _ _ _ E Ha) as (i1 & Hi1 & Hp1).
  destruct (take_indices_nth_error _ _ _ E Hb) as (i2 & Hi2 & Hp2).
  unfold argsort in Hi1, Hi2. rewrite nth_error_map in Hi1, Hi2.
  destruct (nth_error (isort le_val (indexed pen)) j1) as [[v1 k1]|] eqn:E1; [|discriminate].
  destruct (nth_error (isort le_val (indexed pen)) j2) as [[v2 k2]|] eqn:E2; [|discriminate].
  simpl in Hi1, Hi2. injection Hi1 as ->. injection Hi2 as ->.
  assert (Hv1 : nth_error pen i1 = Some v1).
  { apply in_indexed. eapply Permutation_in; [apply isort_perm|].
    eapply nth_error_In; eauto. }
  assert (Hv2 : nth_error pen i2 = Some v2).
  { apply in_indexed. eapply Permutation_in; [apply isort_perm|].
    eapply nth_error_In; eauto. }
  rewrite Hv1 in Hp1. rewrite Hv2 in Hp2. injection Hp1 as <-. injection Hp2 as <-.
  destruct (Nat.eq_dec j1 j2) as [->|Hne].
  - rewrite E1 in E2. injection E2 as <- _. apply f_leb_refl.
  - pose proof (isort_sorted le_val le_val_total le_val_trans (indexed pen)) as Hs.
    refine (StronglySorted_nth_error le_val Hs _ E1 E2). lia.
Qed.
End LengthNormalizeOrder.

(** C5, on the code: the scores are the log-scores divided by
    [((length + 5) / 6) ^ alpha] and the indices reorder them, but the
    reversal of [argsort] runs over the batch axis, not within a batch
    item: the scores of a batch item come back in ascending order, and in
    a batch of two the items exchange their index rows.  With the
    coefficient 0, which leaves every score as it is, [beam_search]
    returns the second-best hypothesis [b] in place of the best [a]. *)
Theorem length_normalize_not_descending :
  let self := toy_decoder next_eos 5 2 in
  length_normalize (F := QFloat) [[3; 3]] [[(-1)%Q; (-4)%Q]] 0%Q
  = Ok ([[(-4)%Q; (-1)%Q]], [[1; 0]]) /\
  length_normalize (F := QFloat) [[3; 3]; [3; 3]]
                   [[(-1)%Q; (-4)%Q]; [(-4)%Q; (-1)%Q]] 0%Q
  = Ok ([[(-1)%Q; (-4)%Q]; [(-1)%Q; (-4)%Q]], [[0; 1]; [1; 0]]) /\
  length_normalize (F := QFloat) [[3; 3]; [3; 3]]
                   [[(-1)%Q; (-4)%Q]; [(-1)%Q; (-4)%Q]] 0%Q
  = Ok ([[(-4)%Q; (-1)%Q]; [(-4)%Q; (-1)%Q]], [[1; 0]; [1; 0]]) /\
  beam_search self [[7; 8]%Z] None 1 None None
  = ([EvEncode; EvDecode 1; EvDecode 2], Ok (Best [Tokens ["a"%string]])) /\
  beam_search self [[7; 8]%Z] None 1 (Some 0%Q) None
  = ([EvEncode; EvDecode 1; EvDecode 2], Ok (Best [Tokens ["b"%string]])).
Proof. repeat split; reflexivity. Qed.

(** ** C6: beam width and [n_best] out of range *)

Lemma chunks_rows {A} (n w : nat) (l : list A) :
  n * w <= length l -> Forall (fun r => length r = w) (chunks n w l).
Proof.
  revert l; induction n as [|n IH]; simpl; intros l Hl; constructor.
  - rewrite length_firstn. lia.
  - apply IH. rewrite length_skipn. lia.
Qed.

Lemma reshape2_rows {A} (b k : nat) (a : list A) rows :
  reshape2 b k a = Ok rows -> length rows = b /\ Forall (fun r => length r = k) rows.
Proof.
  unfold reshape2. destruct (Nat.eqb_spec (length a) (b * k)) as [Hl|]; [|discriminate].
  intros H. injection H as <-. split; [apply length_chunks | apply chunks_rows; lia].
Qed.

Lemma mapM_rows_lengths {A B} (f : A -> result B) (k : nat) rows rows' :
  mapM (mapM f) rows = Ok rows' ->
  Forall (fun r => length r = k) rows -> Forall (fun r => length r = k) rows'.
Proof.
  intros H W. apply mapM_Forall2 in H. induction H; constructor.
  - apply mapM_length in H. apply Forall_inv in W. lia.
  - apply IHForall2. eapply Forall_inv_tail; eauto.
Qed.

Section OutOfRange.
Context {F : FloatOps}.

Lemma replace_stage_rows self src_tokens replace_unk attn translated k ev out :
  replace_stage self src_tokens replace_unk attn translated = (ev, Ok out) ->
  Forall (fun r => length r = k) translated ->
  Forall (fun r => length r = k) out.
Proof.
  unfold replace_stage. intros H W.
  assert (Wt : Forall (fun r : list hypothesis => length r = k)
                      (map (map Tokens) translated)).
  { rewrite Forall_map. eapply Forall_impl; [|exact W]. intros a Ha.
    now rewrite length_map. }
  destruct (effective_replace_unk self replace_unk) as [sel|].
  - destruct src_tokens as [toks|].
    + destruct attn as [a|]; [|discriminate].
      apply lift_ok in H. destruct H as [H _].
      unfold replace_unknown in H. inv_bind H.
      apply reshape2_rows in H. destruct H as [Hl Hw].
      destruct translated as [|o os].
      * destruct out; [constructor | discriminate].
      * apply Forall_inv in W. now rewrite W in Hw.
    + inv_bindM H. unfold retM in H. now injection H as _ <-.
  - unfold retM in H. now injection H as _ <-.
Qed.

Lemma normalize_stage_rows self length_norm outputs log_scores translated k out :
  normalize_stage self length_norm outputs log_scores translated = Ok out ->
  Forall (fun r => length r = k) outputs ->
  Forall (fun r => length r = k) log_scores ->
  Forall (fun r => length r = k) translated ->
  Forall (fun r => length r = k) out.
Proof.
  unfold normalize_stage. intros H Wo Ws Wt.
  destruct (effective_length_norm self length_norm) as [coff|];
    [|injection H as <-; exact Wt].
  inv_bind H. rename x into lengths. inv_bind H. destruct x as [scores indices].
  pose proof (@mapM_rows_lengths _ _ _ _ _ _ E Wo) as Wl.
  unfold length_normalize in E0. inv_bind E0. injection E0 as _ <-.
  rewrite Forall_forall. intros r Hr. apply In_nth_error in Hr. destruct Hr as [n Hn].
  destruct (mapM_nth_error _ _ _ H Hn) as ([beams ids] & Hc & Ht).
  apply mapM_length in Ht. simpl in Ht. rewrite Ht.
  rewrite nth_error_combine in Hc.
  destruct (nth_error translated n); [|discriminate].
  destruct (nth_error (rev _) n) as [ids'|] eqn:Ei; [|discriminate].
  injection Hc as _ <-.
  apply nth_error_In, in_rev, in_map_iff in Ei. destruct Ei as (pen & <- & Hpen).
  rewrite length_argsort. apply In_nth_error in Hpen. destruct Hpen as [j Hj].
  rewrite nth_error_zip_with in Hj.
  destruct (nth_error log_scores j) as [ps|] eqn:Eps; [|discriminate].
  rewrite nth_error_map in Hj.
  destruct (nth_error lengths j) as [ls|] eqn:Els; [|discriminate].
  simpl in Hj. injection Hj as <-.
  rewrite length_zip_with, length_map.
  rewrite Forall_forall in Ws, Wl.
  rewrite (Ws _ (nth_error_In _ _ Eps)), (Wl _ (nth_error_In _ _ Els)). apply Nat.min_id.
Qed.

(** The hypotheses that [beam_search] returns for every batch item. *)
Lemma beam_search_rows self batch src_tokens n_best length_norm replace_unk ev t :
  beam_search self batch src_tokens n_best length_norm replace_unk = (ev, Ok t) ->
  match t with
  | Best _ => n_best = 1
  | NBest sents =>
      n_best <> 1 /\
      Forall (fun hyps => length hyps = Nat.min n_best (beam_size self)) sents
  end.
Proof.
  unfold beam_search. intros H.
  inv_bindM H. destruct x as [outputs log_scores].
  inv_bindM H. destruct x as [[outputs1 log_scores1] attn].
  inv_bindM H. rename x into outputs3. apply lift_ok in E1. destruct E1 as [E1 _].
  inv_bindM H. rename x into scores3. apply lift_ok in E2. destruct E2 as [E2 _].
  inv_bindM H. rename x into translated. apply lift_ok in E3. destruct E3 as [E3 _].
  inv_bindM H. rename x into replaced.
  inv_bindM H. rename x into normalized. apply lift_ok in E5. destruct E5 as [E5 _].
  apply reshape2_rows in E1, E2. destruct E1 as [_ Wo]. destruct E2 as [_ Ws].
  pose proof (@mapM_rows_lengths _ _ _ _ _ _ E3 Wo) as Wt.
  pose proof (@replace_stage_rows _ _ _ _ _ _ _ _ E4 Wt) as Wr.
  pose proof (@normalize_stage_rows _ _ _ _ _ _ _ E5 Wo Ws Wr) as Wn.
  destruct (Nat.eqb_spec n_best 1) as [Hn|Hn].
  - inv_bindM H. unfold retM in H. now injection H as _ <-.
  - unfold retM in H. injection H as _ <-. split; [exact Hn|].
    rewrite Forall_map. eapply Forall_impl; [|exact Wn].
    intros a Ha. rewrite length_firstn. cbv beta in Ha. lia.
Qed.

(** C6, as the code has it.  A beam width above the vocabulary size makes
    [beam_search] fail, without truncating the width: the first [topk] of
    [init_vars] raises its range error, once the encoder and the first
    decoder step have run.  An [n_best] above the beam width raises
    nothing: a call that returns gives every batch item its [beam_size]
    hypotheses. *)
Theorem beam_search_out_of_range :
  (forall self batch src_tokens n_best length_norm replace_unk dist rest,
      first_step (model self) batch = dist :: rest ->
      length dist < beam_size self ->
      beam_search self batch src_tokens n_best length_norm replace_unk
      = ([EvEncode; EvDecode 1], Raise (RuntimeError TopkRange))) /\
  (forall self batch src_tokens n_best length_norm replace_unk ev t,
      0 < beam_size self < n_best ->
      beam_search self batch src_tokens n_best length_norm replace_unk = (ev, Ok t) ->
      exists sents,
        t = NBest sents /\
        Forall (fun hyps => length hyps = beam_size self) sents).
Proof.
  split.
  - intros self batch src_tokens n_best length_norm replace_unk dist rest Hd Hk.
    unfold beam_search, init_vars. rewrite Hd. simpl mapM. unfold topk at 1.
    destruct (Nat.leb_spec (beam_size self) (length dist)); [lia|]. reflexivity.
  - intros self batch src_tokens n_best length_norm replace_unk ev t Hk H.
    apply beam_search_rows in H. destruct t as [sents|sents]; [lia|].
    destruct H as [_ H]. exists sents. split; [reflexivity|].
    eapply Forall_impl; [|exact H]. intros a Ha. cbv beta in Ha. lia.
Qed.
End OutOfRange.

Lemma beam_search_out_of_range_witness :
  let wide := toy_decoder next_eos 5 9 in
  let self := toy_decoder next_eos 5 2 in
  let sents := [[Tokens ["a"%string]; Tokens ["b"%string]]] in
  (first_step (model wide) [[7; 8]%Z] = [[0; 0; 1 # 8; 1 # 2; 1 # 4]%Q] /\
   5 < beam_size wide /\
   beam_search wide [[7; 8]%Z] None 1 None None
   = ([EvEncode; EvDecode 1], Raise (RuntimeError TopkRange))) /\
  (0 < beam_size self < 3 /\
   beam_search self [[7; 8]%Z] None 3 None None
   = ([EvEncode; EvDecode 1; EvDecode 2], Ok (NBest sents)) /\
   exists sents',
     NBest sents = NBest sents' /\
     Forall (fun hyps => length hyps = beam_size self) sents').
Proof.
  intros wide self sents. split.
  - split; [reflexivity|]. split; [simpl; lia|].
    exact (proj1 (@beam_search_out_of_range QFloat) wide [[7; 8]%Z] None 1 None None
                 [0; 0; 1 # 8; 1 # 2; 1 # 4]%Q [] eq_refl ltac:(simpl; lia)).
  - assert (Hk : 0 < beam_size self < 3) by (simpl; lia).
    split; [exact Hk|]. split; [reflexivity|].
    exact (proj2 (@beam_search_out_of_range QFloat) self [[7; 8]%Z] None 3 None None
                 [EvEncode; EvDecode 1; EvDecode 2] (NBest sents) Hk eq_refl).
Defined.

(** The claim as stated fails for [n_best]: with a beam of 2 and [n_best =
    3] the call returns, and gives the batch item its 2 hypotheses. *)
Lemma n_best_above_beam_size_returns :
  let self := toy_decoder next_eos 5 2 in
  beam_size self < 3 /\
  beam_search self [[7; 8]%Z] None 3 None None
  = ([EvEncode; EvDecode 1; EvDecode 2],
     Ok (NBest [[Tokens ["a"%string]; Tokens ["b"%string]]])).
Proof. split; [simpl; lia | reflexivity]. Qed.

(** ** C9: replacement requested without source tokens *)

Section MissingSourceTokens.
Context {F : FloatOps}.

Lemma replace_stage_without_tokens self replace_unk sel attn translated :
  effective_replace_unk self replace_unk = Some sel ->
  replace_stage self None replace_unk attn translated
  = ([EvWarn warn_msg], Ok (map (map Tokens) translated)) /\
  replace_stage self None (Some None) attn translated
  = ([], Ok (map (map Tokens) translated)).
Proof.
  intros H. unfold replace_stage. rewrite H. simpl. split; reflexivity.
Qed.

(** C9.  When [replace_unk] is in force (passed, or the instance's value)
    and [src_tokens] is [None], [beam_search] gives the result of the
    same call with replacement switched off: the same translated
    sentences, or the same exception if the decoding itself raises; a
    call that returns has logged the warning once, after everything the
    other call logs. *)
Theorem replace_unk_without_src_tokens :
  forall self batch n_best length_norm replace_unk sel,
    effective_replace_unk self replace_unk = Some sel ->
    let requested := beam_search self batch None n_best length_norm replace_unk in
    let plain := beam_search self batch None n_best length_norm (Some None) in
    snd requested = snd plain /\
    (fst requested = fst plain \/ fst requested = fst plain ++ [EvWarn warn_msg]) /\
    (forall t, snd requested = Ok t -> fst requested = fst plain ++ [EvWarn warn_msg]).
Proof.
  intros self batch n_best length_norm replace_unk sel Hsel. simpl.
  unfold beam_search.
  destruct (init_vars self batch) as [ev0 [[outputs log_scores]|e]];
    [|simpl; split; [reflexivity | split; [now left | discriminate]]].
  cbn [bindM].
  destruct (search_loop self batch _ _ outputs log_scores None)
    as [ev1 [[[outputs1 log_scores1] attn]|e]];
    [|simpl; split; [reflexivity | split; [now left | discriminate]]].
  cbn [bindM].
  destruct (reshape2 (length batch) (beam_size self) outputs1) as [outputs3|e];
    [|simpl; split; [reflexivity | split; [now left | discriminate]]].
  cbn [bindM lift].
  destruct (reshape2 (length batch) (beam_size self) log_scores1) as [scores3|e];
    [|simpl; split; [reflexivity | split; [now left | discriminate]]].
  cbn [bindM lift].
  destruct (mapM (mapM (trim_and_itos self)) outputs3) as [translated|e];
    [|simpl; split; [reflexivity | split; [now left | discriminate]]].
  cbn [bindM lift].
  destruct (replace_stage_without_tokens self replace_unk attn translated Hsel) as [-> ->].
  cbn [bindM].
  assert (Hev : ev0 ++ ev1 ++ [EvWarn warn_msg] = (ev0 ++ ev1) ++ [EvWarn warn_msg])
    by apply app_assoc.
  destruct (normalize_stage self length_norm outputs3 scores3 (map (map Tokens) translated))
    as [normalized|e];
    [|simpl; rewrite ?app_nil_r; split; [reflexivity | split; [now right | discriminate]]].
  cbn [bindM lift].
  destruct (n_best =? 1).
  - cbn [bindM lift].
    destruct (mapM (fun beams : list hypothesis => py_get beams 0%Z) normalized) as [best|e];
      simpl; rewrite ?app_nil_r;
      (split; [reflexivity | split; [now right | intros; try discriminate; assumption]]).
  - simpl. rewrite ?app_nil_r. split; [reflexivity | split; [now right | intros; assumption]].
Qed.
End MissingSourceTokens.

Lemma replace_unk_without_src_tokens_witness :
  let self := toy_decoder next_eos 5 2 in
  let requested := beam_search self [[7; 8]%Z] None 1 None (Some (Some (0, 0)%Z)) in
  let plain := beam_search self [[7; 8]%Z] None 1 None (Some None) in
  effective_replace_unk self (Some (Some (0, 0)%Z)) = Some (0, 0)%Z /\
  requested = ([EvEncode; EvDecode 1; EvDecode 2; EvWarn warn_msg],
               Ok (Best [Tokens ["a"%string]])) /\
  snd requested = snd plain /\
  (fst requested = fst plain \/ fst requested = fst plain ++ [EvWarn warn_msg]) /\
  (forall t, snd requested = Ok t -> fst requested = fst plain ++ [EvWarn warn_msg]).
Proof.
  intros self requested plain.
  split; [reflexivity|]. split; [reflexivity|].
  exact (@replace_unk_without_src_tokens QFloat self [[7; 8]%Z] 1 None
           (Some (Some (0, 0)%Z)) (0, 0)%Z eq_refl).
Defined.

(** ** C8: unknown-word replacement *)

Section UnknownReplacer.
Context {F : FloatOps}.

Lemma itemgetter_tuple (idx : list nat) (sent : list string) repl :
  2 <= length idx ->
  itemgetter idx sent = Ok repl ->
  length repl = length idx /\
  forall j p, nth_error idx j = Some p ->
              exists rpl, nth_error sent p = Some rpl /\ nth_error repl j = Some rpl.
Proof.
  intros Hl H. destruct idx as [|i0 [|i1 idx]]; simpl in Hl; try lia.
  unfold itemgetter, take_indices in H.
  split; [eapply mapM_length; eauto|].
  intros j p Hj.
  destruct (Forall2_nth_error_l j (mapM_Forall2 _ _ H) Hj) as (rpl & Hr & Hg).
  apply py_get_nat in Hg. eauto.
Qed.

(** The list [replaced] of [replace_unknown], hypothesis by hypothesis:
    hypothesis [n] is cut to the shorter of its length and the target
    length of the attention; a token that is the unknown token is
    replaced by the source token at the position of largest attention
    for its position, every other token is kept. *)
Lemma replaced_rows_spec outputs sentences attn layer_used head_used unknown_token replaced :
  replaced_rows outputs sentences attn (layer_used, head_used) unknown_token = Ok replaced ->
  exists layer used_attention,
    py_get attn layer_used = Ok layer /\
    column layer head_used = Ok used_attention /\
    length replaced = Nat.min (length (concat outputs)) (length used_attention) /\
    forall n orig row,
      nth_error (concat outputs) n = Some orig ->
      nth_error replaced n = Some row ->
      exists weights sent,
        nth_error used_attention n = Some weights /\
        nth_error sentences (n / (length used_attention / length sentences)) = Some sent /\
        (2 <= length weights ->
         length row = Nat.min (length weights) (length orig) /\
         forall j tok,
           nth_error orig j = Some tok -> j < length weights ->
           exists w p rpl,
             nth_error weights j = Some w /\ argmax w = Ok p /\
             nth_error sent p = Some rpl /\
             nth_error row j
             = Some (if String.eqb tok unknown_token then rpl else tok)).
Proof.
  unfold replaced_rows. intros H.
  inv_bind H. rename x into layer, E into El.
  inv_bind H. rename x into used, E into Eu.
  inv_bind H. rename x into select, E into Es.
  inv_bind H. rename x into beam, E into Eb.
  inv_bind H. rename x into repls, E into Er.
  injection H as <-.
  pose proof (mapM_length _ _ Es) as Ls.
  pose proof (mapM_length _ _ Er) as Lr.
  unfold enumerate in Lr. rewrite length_enumerate_from in Lr.
  unfold floordiv in Eb. destruct (length sentences =? 0); [discriminate|].
  injection Eb as <-. rewrite Ls in *.
  exists layer, used. repeat split; auto.
  { rewrite length_zip_with. lia. }
  intros n orig row Ho Hrow.
  rewrite nth_error_zip_with, Ho in Hrow.
  destruct (nth_error repls n) as [repl|] eqn:Erepl; [|discriminate].
  injection Hrow as <-.
  destruct (mapM_nth_error _ _ _ Er Erepl) as ([n' idx] & Hen & Hget).
  unfold enumerate in Hen. rewrite nth_error_enumerate_from in Hen.
  destruct (nth_error select n) as [idx'|] eqn:Eidx; [|discriminate].
  simpl in Hen. injection Hen as <- <-.
  destruct (mapM_nth_error _ _ _ Es Eidx) as (weights & Hw & Harg).
  simpl in Hget. inv_bind Hget. clear E x.
  inv_bind Hget. rename x into b. inv_bind Hget. rename x into sent.
  unfold floordiv in E.
  destruct (length used / length sentences =? 0); [discriminate|]. injection E as <-.
  apply py_get_nat in E0.
  exists weights, sent. split; [exact Hw|]. split; [exact E0|].
  intros Hl2.
  pose proof (mapM_length _ _ Harg) as La.
  assert (Hl2' : 2 <= length idx') by lia.
  destruct (@itemgetter_tuple _ _ _ Hl2' Hget) as [Lrepl Hrepl].
  split.
  - rewrite length_zip_with. lia.
  - intros j tok Htok Hj.
    destruct (nth_error weights j) as [w|] eqn:Ew; [|apply nth_error_None in Ew; lia].
    destruct (Forall2_nth_error_l j (mapM_Forall2 _ _ Harg) Ew) as (p & Hp & Hargp).
    destruct (Hrepl _ _ Hp) as (rpl & Hsp & Hrj).
    exists w, p, rpl. repeat split; auto.
    rewrite nth_error_zip_with, Hrj, Htok. unfold replace_token.
    now destruct (String.eqb tok unknown_token).
Qed.
End UnknownReplacer.

(** C8, on the code: the substitution itself is as specified (the list
    [replaced], cut to the attention's target length where that is
    shorter), but packing it with [np.array(...).reshape(outputs.shape)]
    fails whenever all hypotheses have one length other than 1, as a
    single hypothesis of two tokens has: numpy then builds a 2-d array of
    strings, which does not have the [batch, beam] shape.  Hypotheses of
    different lengths are returned replaced; hypotheses of length 1 come
    back as strings in place of lists.  A decoding with beam width 1 that
    yields two tokens fails once replacement is requested with source
    tokens. *)
Theorem replace_unknown_raises_on_equal_lengths :
  let attn1 : attention (F := QFloat) := [[[[[1; 0]; [0; 1]]]]]%Q in
  let attn2 : attention (F := QFloat) :=
    [[[[[1; 0]; [0; 1]]]; [[[0; 1]; [0; 1]]]]]%Q in
  let self := toy_decoder next_b_after_a 6 1 in
  replaced_rows [[["a"; "<unk>"]]]%string [["x"; "y"]]%string attn1 (0, 0)%Z "<unk>"
  = Ok [["a"; "y"]]%string /\
  replace_unknown [[["a"; "<unk>"]]]%string [["x"; "y"]]%string attn1 (0, 0)%Z "<unk>"
  = Raise ValueError /\
  replaced_rows [[["a"; "<unk>"; "<unk>"]]]%string [["x"; "y"]]%string attn1 (0, 0)%Z "<unk>"
  = Ok [["a"; "y"]]%string /\
  replace_unknown [[["a"; "<unk>"]; ["<unk>"]]]%string [["x"; "y"]]%string attn2
                  (0, 0)%Z "<unk>"
  = Ok [[Tokens ["a"; "y"]%string; Tokens ["y"%string]]] /\
  replace_unknown [[["a"]; ["<unk>"]]]%string [["x"; "y"]]%string attn2 (0, 0)%Z "<unk>"
  = Ok [[Scalar "a"; Scalar "y"]] /\
  beam_search self [[7; 8]%Z] None 1 None None
  = ([EvEncode; EvDecode 1; EvDecode 2; EvDecode 3], Ok (Best [Tokens ["a"; "b"]%string])) /\
  beam_search self [[7; 8]%Z] (Some [["x"; "y"]]%string) 1 None (Some (Some (0, 0)%Z))
  = ([EvEncode; EvDecode 1; EvDecode 2; EvDecode 3], Raise ValueError).
Proof. repeat split; reflexivity. Qed.

(** * Further properties of the code *)

(** ** The state that [init_vars] builds *)

Section InitVars.
Context {F : FloatOps}.

Lemma mapM_math_log (l l' : list float) :
  mapM math_log l = Ok l' ->
  l' = map f_log l /\ Forall (fun p => f_leb p (f_of_Z 0) = false) l.
Proof.
  revert l'; induction l as [|p l IH]; simpl; intros l' H.
  - injection H as <-. split; constructor.
  - inv_bind H. inv_bind H. injection H as <-.
    unfold math_log in E. destruct (f_leb p (f_of_Z 0)) eqn:Ep; [discriminate|].
    injection E as <-. destruct (IH _ E0) as [-> Hl]. split; [reflexivity|].
    constructor; assumption.
Qed.

Lemma mapM_math_log_raises (l : list float) p :
  In p l -> f_leb p (f_of_Z 0) = true -> mapM math_log l = Raise ValueError.
Proof.
  induction l as [|q l IH]; simpl; intros Hin Hp; [contradiction|].
  unfold math_log at 1. destruct (f_leb q (f_of_Z 0)) eqn:Eq; [reflexivity|].
  destruct Hin as [->|Hin]; [congruence|]. simpl. now rewrite IH.
Qed.

Lemma expand_rows_In {A} (n : nat) (x y : list A) a :
  expand_rows n x = Ok y -> In a y -> In a x.
Proof.
  unfold expand_rows. destruct (length x =? n).
  - intros H. now injection H as <-.
  - destruct x as [|b [|? ?]]; try discriminate.
    intros H Hin. injection H as <-. apply repeat_spec in Hin. subst. now left.
Qed.

Lemma init_vars_ok :
  forall self src ev outputs log_scores,
    init_vars self src = (ev, Ok (outputs, log_scores)) ->
    exists tk,
      mapM (topk (beam_size self)) (first_step (model self) src) = Ok tk /\
      ev = [EvEncode; EvDecode 1] /\
      log_scores = map f_log (concat (map (map fst) tk)) /\
      Forall (fun p => f_leb p (f_of_Z 0) = false) (concat (map (map fst) tk)) /\
      length outputs = beam_size self * length src /\
      forall r row,
        nth_error outputs r = Some row ->
        2 <= max_len self /\
        exists v,
          row = sos_id self :: v :: repeat 0%Z (max_len self - 2) /\
          In v (concat (map (map (fun vi => Z.of_nat (snd vi))) tk)) /\
          (length (first_step (model self) src) = length src ->
           nth_error (concat (map (map (fun vi => Z.of_nat (snd vi))) tk)) r = Some v).
Proof.
  unfold init_vars. intros self src ev outputs log_scores H.
  do 6 inv_bindM H. unfold retM in H. injection H as <- <- <-.
  unfold emit in E, E0. injection E as <- _. injection E0 as <- _.
  apply lift_ok in E1, E2, E3, E4.
  destruct E1 as [Etk ->]. destruct E2 as [Elog ->].
  destruct E3 as [E3 ->]. destruct E4 as [E4 ->]. subst.
  rename x1 into tk, x3 into o0.
  destruct (mapM_math_log _ Elog) as [-> Hpos].
  exists tk. simpl.
  unfold set_column in E4. inv_bind E4.
  match goal with H : expand_rows _ _ = Ok ?v |- _ => rename v into vals end.
  pose proof (mapM_length _ _ E3) as L3. rewrite repeat_length in L3.
  pose proof (expand_rows_length _ _ E) as Lv.
  pose proof (mapM_length _ _ E4) as L4. rewrite length_combine, Lv, Nat.min_id, L3 in L4.
  split; [exact Etk|]. split; [reflexivity|]. split; [reflexivity|].
  split; [exact Hpos|]. split; [exact L4|].
  intros r row Hr.
    destruct (mapM_nth_error _ _ _ E4 Hr) as ([row0 v] & Hc & Hset).
    rewrite nth_error_combine in Hc.
    destruct (nth_error o0 r) as [row0'|] eqn:E0; [|discriminate].
    destruct (nth_error vals r) as [v'|] eqn:Ev; [|discriminate].
    injection Hc as -> ->.
    destruct (mapM_nth_error _ _ _ E3 E0) as (z & Hz & Hset0).
    apply nth_error_In, repeat_spec in Hz. subst z.
    apply set_item_ok in Hset0. destruct Hset0 as [H0 ->].
    rewrite repeat_length in H0. simpl in Hset.
    apply set_item_ok in Hset. destruct Hset as [H1 ->].
    destruct (max_len self) as [|[|w]] eqn:Ew; simpl in *; try lia.
    split; [lia|]. exists v. rewrite Nat.sub_0_r. repeat split.
    + eapply expand_rows_In; eauto. eapply nth_error_In; eauto.
    + intros Hlen. apply expand_rows_ok in E.
      destruct E as [[_ ->]|(Hl & Hn & _)]; [exact Ev|].
      exfalso. rewrite (length_concat_uniform (w := beam_size self)) in Hl.
      * rewrite length_map, (mapM_length _ _ Etk), Hlen in Hl. rewrite L3 in Hn. lia.
      * rewrite Forall_map. eapply Forall_impl; [|exact (mapM_topk_lengths _ _ Etk)].
        intros a Ha. now rewrite length_map.
Qed.

(** X1.  A successful [init_vars] has called the encoder and then the
    decoder once, and returns the logarithms of the top-k first-step
    probabilities (all positive) and [beam_size * len(src)] rows of width
    [max_len >= 2]: [<sos>], a top-k token id, then zeros; with one
    first-step distribution per source sentence, row [r] carries the
    [r]-th of the top-k ids in row-major order. *)
Theorem init_vars_state :
  forall self src ev outputs log_scores,
    init_vars self src = (ev, Ok (outputs, log_scores)) ->
    exists tk,
      mapM (topk (beam_size self)) (first_step (model self) src) = Ok tk /\
      ev = [EvEncode; EvDecode 1] /\
      log_scores = map f_log (concat (map (map fst) tk)) /\
      Forall (fun p => f_leb p (f_of_Z 0) = false) (concat (map (map fst) tk)) /\
      length outputs = beam_size self * length src /\
      forall r row,
        nth_error outputs r = Some row ->
        2 <= max_len self /\
        exists v,
          row = sos_id self :: v :: repeat 0%Z (max_len self - 2) /\
          In v (concat (map (map (fun vi => Z.of_nat (snd vi))) tk)) /\
          (length (first_step (model self) src) = length src ->
           nth_error (concat (map (map (fun vi => Z.of_nat (snd vi))) tk)) r = Some v).
Proof. exact init_vars_ok. Qed.
End InitVars.

Lemma init_vars_state_witness :
  init_vars (F := QFloat) (toy_decoder next_eos 4 2) [[3; 4]%Z]
  = ([EvEncode; EvDecode 1],
     Ok ([[1; 3; 0; 0]; [1; 4; 0; 0]]%Z, [(-1)%Q; (-2)%Q])) /\
  exists tk,
    mapM (topk (F := QFloat) 2) (first_step (toy_model next_eos) [[3; 4]%Z]) = Ok tk /\
    [EvEncode; EvDecode 1] = [EvEncode; EvDecode 1] /\
    [(-1)%Q; (-2)%Q] = map qlog (concat (map (map fst) tk)) /\
    Forall (fun p => f_leb (FloatOps := QFloat) p (f_of_Z 0) = false)
           (concat (map (map fst) tk)) /\
    length [[1; 3; 0; 0]; [1; 4; 0; 0]]%Z = 2 * 1 /\
    forall r row,
      nth_error [[1; 3; 0; 0]; [1; 4; 0; 0]]%Z r = Some row ->
      2 <= 4 /\
      exists v,
        row = 1%Z :: v :: repeat 0%Z (4 - 2) /\
        In v (concat (map (map (fun vi => Z.of_nat (snd vi))) tk)) /\
        (length (first_step (toy_model next_eos) [[3; 4]%Z]) = 1 ->
         nth_error (concat (map (map (fun vi => Z.of_nat (snd vi))) tk)) r = Some v).
Proof.
  split; [reflexivity|].
  exact (init_vars_state (F := QFloat) (toy_decoder next_eos 4 2) [[3; 4]%Z] eq_refl).
Defined.

(** [init_vars] takes the logarithm with [math.log], which rejects a
    probability that is not positive. *)

Section InitVarsDomain.
Context {F : FloatOps}.

(** X2.  When one of the top-k probabilities of the first decoder step is
    not positive, [init_vars] raises [ValueError] (the domain error of
    [math.log]) after the encoder and the decoder have been called. *)
Theorem init_vars_log_domain :
  forall self src tk p,
    mapM (topk (beam_size self)) (first_step (model self) src) = Ok tk ->
    In p (concat (map (map fst) tk)) ->
    f_leb p (f_of_Z 0) = true ->
    init_vars self src = ([EvEncode; EvDecode 1], Raise ValueError).
Proof.
  intros self src tk p Etk Hin Hp. unfold init_vars.
  cbn [bindM emit lift app]. rewrite Etk. cbn [bindM lift app].
  now rewrite (mapM_math_log_raises _ _ Hin Hp).
Qed.
End InitVarsDomain.

Lemma init_vars_log_domain_witness :
  mapM (topk (F := QFloat) 4) (first_step (toy_model next_eos) [[3; 4]%Z])
  = Ok [[((1 # 2)%Q, 3); ((1 # 4)%Q, 4); ((1 # 8)%Q, 2); (0%Q, 0)]] /\
  init_vars (F := QFloat) (toy_decoder next_eos 4 4) [[3; 4]%Z]
  = ([EvEncode; EvDecode 1], Raise ValueError).
Proof.
  split; [reflexivity|].
  refine (@init_vars_log_domain QFloat (toy_decoder next_eos 4 4) [[3; 4]%Z]
            [[((1 # 2)%Q, 3); ((1 # 4)%Q, 4); ((1 # 8)%Q, 2); (0%Q, 0)]]
            0%Q eq_refl _ eq_refl).
  simpl. auto.
Defined.

(** ** The search state through the loop *)

Section SearchState.
Context {F : FloatOps}.

Lemma In_zip_with {A B C} (f : A -> B -> C) l1 l2 c :
  In c (zip_with f l1 l2) -> exists a b, In a l1 /\ In b l2 /\ c = f a b.
Proof.
  revert l2; induction l1 as [|a l1 IH]; intros [|b l2]; simpl; try contradiction.
  intros [<-|H].
  - exists a, b. auto.
  - destruct (IH _ H) as (a' & b' & ? & ? & ?). exists a', b'. auto.
Qed.

Lemma mapM_In {A B} (f : A -> result B) l l' b :
  mapM f l = Ok l' -> In b l' -> exists a, In a l /\ f a = Ok b.
Proof.
  intros H Hin. apply In_nth_error in Hin. destruct Hin as [n Hn].
  destruct (mapM_nth_error _ _ _ H Hn) as (a & Ha & Hf).
  exists a. split; [eapply nth_error_In; eauto|assumption].
Qed.

(** Every row that [select_k_best] returns is a row of [outputs] whose
    columns before [i] were taken from another row of [outputs] and whose
    column [i] was overwritten. *)
Lemma select_k_best_new_rows k outputs row_b probs ix log_scores i outputs' log_scores' :
  select_k_best k outputs row_b probs ix log_scores i = Ok (outputs', log_scores') ->
  Forall (fun row' => exists parent old tok,
              In parent outputs /\ In old outputs /\
              set_item i tok (firstn i parent ++ skipn i old) = Ok row') outputs'.
Proof.
  unfold select_k_best. intros H. do 9 inv_bind H. injection H as <- _.
  apply Forall_forall. intros row' Hin.
  destruct (mapM_In _ _ _ E7 Hin) as ([o1 tok] & Hc & Hset). simpl in Hset.
  apply in_combine_l in Hc. apply In_zip_with in Hc.
  destruct Hc as (old & parent & Hold & Hpar & ->).
  exists parent, old, tok. split; [|split; [exact Hold|exact Hset]].
  pose proof (expand_rows_In _ _ _ E4 Hpar) as Hp.
  destruct (mapM_In _ _ _ E3 Hp) as (r & _ & Hr).
  apply py_get_nat in Hr. eapply nth_error_In; eauto.
Qed.

Lemma nth_error_spliced {A} (i j : nat) (tok : A) (parent old row' : list A) :
  length parent = length old ->
  set_item i tok (firstn i parent ++ skipn i old) = Ok row' ->
  i < length old /\ length row' = length old /\
  (j < i -> nth_error row' j = nth_error parent j) /\
  (j = i -> nth_error row' j = Some tok) /\
  (i < j -> nth_error row' j = nth_error old j).
Proof.
  intros Hlen H. apply set_item_ok in H. destruct H as [Hi ->].
  rewrite length_app, length_firstn, length_skipn in Hi.
  assert (Hi' : i < length old) by lia.
  assert (Hf : length (firstn i (firstn i parent ++ skipn i old)) = i).
  { rewrite length_firstn, length_app, length_firstn, length_skipn. lia. }
  split; [exact Hi'|]. split; [|split; [|split]].
  - rewrite length_app, Hf. cbn [length].
    rewrite length_skipn, length_app, length_firstn, length_skipn.
    lia.
  - intros Hj. rewrite nth_error_app1 by lia.
    rewrite nth_error_firstn. destruct (Nat.ltb_spec j i); [|lia].
    rewrite nth_error_app1 by (rewrite length_firstn; lia).
    rewrite nth_error_firstn. destruct (Nat.ltb_spec j i); [reflexivity|lia].
  - intros ->. rewrite nth_error_app2 by lia. rewrite Hf, Nat.sub_diag. reflexivity.
  - intros Hj. rewrite nth_error_app2 by lia. rewrite Hf.
    destruct (j - i) as [|d] eqn:Ed; [lia|]. cbn [nth_error].
    rewrite nth_error_skipn.
    rewrite nth_error_app2 by (rewrite length_firstn; lia).
    rewrite length_firstn, nth_error_skipn. f_equal. lia.
Qed.

(** One call of [compute_k_best] at timestep [i >= 1] keeps the width of
    the rows and their first column, and writes no column after [i]. *)
Lemma compute_k_best_written w sos t k eos outputs out log_scores i outputs' log_scores' :
  rows_written_to w sos t outputs -> t <= i -> 1 <= i ->
  compute_k_best k eos outputs out log_scores i = Ok (outputs', log_scores') ->
  rows_written_to w sos i outputs' /\ (outputs' <> [] -> i < w).
Proof.
  intros Hrows Hti Hi H. unfold compute_k_best in H. inv_bind H.
  destruct x as [probs ix]. apply select_k_best_new_rows in H.
  unfold rows_written_to in *. rewrite Forall_forall in Hrows.
  assert (Hall : Forall (fun row => (length row = w /\ nth_error row 0 = Some sos /\
                   forall j, i < j -> j < w -> nth_error row j = Some 0%Z) /\ i < w) outputs').
  { eapply Forall_impl; [|exact H]. cbv beta.
    intros row' (parent & old & tok & Hp & Ho & Hset).
    destruct (Hrows _ Hp) as (Lp & Sp & _). destruct (Hrows _ Ho) as (Lo & _ & Zo).
    assert (Hlen : length parent = length old) by congruence.
    pose proof (fun j => @nth_error_spliced _ _ j _ _ _ _ Hlen Hset) as Hs.
    destruct (Hs 0) as (Hiw & Lr & H0 & _). split; [|lia].
    split; [congruence|]. split; [rewrite H0 by lia; exact Sp|].
    intros j Hj Hjw. destruct (Hs j) as (_ & _ & _ & _ & Hgt).
    rewrite Hgt by lia. apply Zo; lia. }
  split.
  - eapply Forall_impl; [|exact Hall]. cbv beta. tauto.
  - destruct outputs' as [|r rs]; [congruence|]. intros _. now inversion Hall.
Qed.

Lemma loop_body_written w sos t self src i outputs log_scores ev o s a :
  rows_written_to w sos t outputs -> t <= i -> 1 <= i ->
  loop_body self src i outputs log_scores = (ev, Ok (o, s, a)) ->
  rows_written_to w sos i o /\ (o <> [] -> i < w).
Proof.
  intros Hrows Hti Hi H. unfold loop_body in H. inv_bindM H.
  destruct (decoder (model self) src (map (firstn i) outputs)) as [out attn0].
  inv_bindM H. destruct x0 as [o2 s2]. unfold retM in H. injection H as _ <- _ _.
  apply lift_ok in E0. destruct E0 as [E0 _].
  eapply compute_k_best_written; eauto.
Qed.

Lemma rows_written_to_weaken w sos t t' outputs :
  t <= t' -> rows_written_to w sos t outputs -> rows_written_to w sos t' outputs.
Proof.
  intros Ht H. unfold rows_written_to in *. eapply Forall_impl; [|exact H]. cbv beta.
  intros row (Hl & H0 & Hz). repeat split; auto. intros j Hj Hjw. apply Hz; lia.
Qed.

Lemma search_loop_written w sos self src fin m :
  forall t outputs log_scores attn ev outputs' log_scores' attn',
    1 <= t ->
    rows_written_to w sos (t - 1) outputs ->
    search_loop self src fin (seq t m) outputs log_scores attn
    = (ev, Ok (outputs', log_scores', attn')) ->
    exists n,
      n <= m /\
      ev = map EvDecode (seq t n) /\
      length outputs' = length outputs /\
      rows_written_to w sos (t - 1 + n) outputs' /\
      (n = 0 -> outputs' = outputs /\ attn' = attn) /\
      (0 < n -> attn' <> None /\ (outputs' <> [] -> t - 1 + n < w)).
Proof.
  induction m as [|m IH]; intros t outputs log_scores attn ev outputs' log_scores' attn' Ht Hrows H.
  - simpl in H. unfold retM in H. injection H as <- <- _ <-.
    exists 0. rewrite Nat.add_0_r. repeat split; auto; lia.
  - cbn [seq search_loop] in H. inv_bindM H. destruct x as [[o1 s1] a1].
    inv_bindM H. rename x into col. apply lift_ok in E0. destruct E0 as [Ecol ->].
    destruct (@loop_body_ok _ _ _ _ _ _ _ _ _ _ E) as [-> L1].
    assert (Hle : t - 1 <= t) by lia.
    destruct (@loop_body_written w sos (t - 1) _ _ _ _ _ _ _ _ _ Hrows Hle Ht E)
      as [R1 W1].
    destruct (torch_equal col fin).
    + unfold retM in H. injection H as <- <- _ <-. subst.
      exists 1. simpl. replace (t - 1 + 1) with t by lia.
      repeat split; auto; try lia; congruence.
    + apply IH in H; [|lia|simpl; now rewrite Nat.sub_0_r].
      destruct H as (n & Hn & -> & Ln & Rn & H0 & Hpos). subst.
      exists (S n). simpl in Rn. rewrite Nat.sub_0_r in Rn.
      replace (t - 1 + S n) with (t + n) by lia.
      split; [lia|]. split; [reflexivity|]. split; [congruence|]. split; [exact Rn|].
      split; [lia|]. intros _.
      destruct n as [|n].
      * destruct (H0 eq_refl) as [-> ->]. split; [congruence|].
        rewrite Nat.add_0_r. exact W1.
      * destruct (Hpos ltac:(lia)) as [Ha Hw]. split; [exact Ha|].
        intros Hne. specialize (Hw Hne). simpl in Hw. lia.
Qed.

(** X3.  Through the loop of [beam_search] the state keeps its shape:
    after [n] executed iterations (the decoder calls at the timesteps
    [2 .. n+1]) there are still [beam_size * len(batch)] rows of width
    [max_len], every row starts with [<sos>], and every column after
    column [n + 1] still holds the 0 it was created with. *)
Theorem search_loop_state :
  forall self batch fin m ev0 outputs log_scores ev outputs' log_scores' attn,
    init_vars self batch = (ev0, Ok (outputs, log_scores)) ->
    search_loop self batch fin (seq 2 m) outputs log_scores None
    = (ev, Ok (outputs', log_scores', attn)) ->
    exists n,
      n <= m /\
      ev = map EvDecode (seq 2 n) /\
      length outputs' = beam_size self * length batch /\
      rows_written_to (max_len self) (sos_id self) (n + 1) outputs' /\
      (outputs' <> [] -> n + 1 < max_len self) /\
      (attn = None <-> n = 0).
Proof.
  intros self batch fin m ev0 outputs log_scores ev outputs' log_scores' attn Hinit Hloop.
  destruct (@init_vars_ok _ _ _ _ _ _ Hinit) as (tk & _ & _ & _ & _ & Hlen & Hrow).
  assert (R0 : rows_written_to (max_len self) (sos_id self) (2 - 1) outputs).
  { apply Forall_forall. intros row Hin. apply In_nth_error in Hin. destruct Hin as [r Hr].
    destruct (Hrow _ _ Hr) as (Hw & v & -> & _). simpl.
    rewrite repeat_length. split; [lia|]. split; [reflexivity|].
    intros [|[|j]] Hj Hjw; try lia. simpl.
    apply nth_error_repeat. lia. }
  assert (H12 : 1 <= 2) by lia.
  destruct (@search_loop_written _ _ _ _ _ _ 2 _ _ _ _ _ _ _ H12 R0 Hloop)
    as (n & Hn & -> & Ln & Rn & H0 & Hpos).
  exists n. replace (2 - 1 + n) with (n + 1) in * by lia.
  split; [exact Hn|]. split; [reflexivity|]. split; [congruence|]. split; [exact Rn|].
  split.
  - intros Hne. destruct n as [|n].
    + destruct (H0 eq_refl) as [-> _]. destruct outputs as [|r rs]; [congruence|].
      destruct (Hrow 0 r eq_refl) as [Hw _]. simpl. lia.
    + apply Hpos; [lia|exact Hne].
  - split.
    + intros ->. destruct n as [|n]; [reflexivity|]. destruct (Hpos ltac:(lia)) as [Ha _].
      congruence.
    + intros ->. now destruct (H0 eq_refl).
Qed.
End SearchState.

Lemma search_loop_state_witness :
  init_vars (F := QFloat) (toy_decoder next_eos 4 2) [[3; 4]%Z]
  = ([EvEncode; EvDecode 1],
     Ok ([[1; 3; 0; 0]; [1; 4; 0; 0]]%Z, [(-1)%Q; (-2)%Q])) /\
  search_loop (F := QFloat) (toy_decoder next_eos 4 2) [[3; 4]%Z] [2; 2]%Z (seq 2 2)
              [[1; 3; 0; 0]; [1; 4; 0; 0]]%Z [(-1)%Q; (-2)%Q] None
  = ([EvDecode 2],
     Ok ([[1; 3; 2; 0]; [1; 4; 2; 0]]%Z, [(-2)%Q; (-3)%Q],
         Some [[[[[1; 0]; [1; 0]]]; [[[1; 0]; [1; 0]]]]]%Q)) /\
  exists n,
    n <= 2 /\
    [EvDecode 2] = map EvDecode (seq 2 n) /\
    length [[1; 3; 2; 0]; [1; 4; 2; 0]]%Z = 2 * 1 /\
    rows_written_to 4 1%Z (n + 1) [[1; 3; 2; 0]; [1; 4; 2; 0]]%Z /\
    ([[1; 3; 2; 0]; [1; 4; 2; 0]]%Z <> [] -> n + 1 < 4) /\
    (Some [[[[[1; 0]; [1; 0]]]; [[[1; 0]; [1; 0]]]]]%Q = None <-> n = 0).
Proof.
  split; [reflexivity|]. split; [reflexivity|].
  exact (@search_loop_state QFloat (toy_decoder next_eos 4 2) [[3; 4]%Z] [2; 2]%Z 2
           _ _ _ _ _ _ _ eq_refl eq_refl).
Defined.

(** ** The calls [beam_search] makes *)

Section Events.
Context {F : FloatOps}.

Lemma init_vars_events self src : fst (init_vars self src) = [EvEncode; EvDecode 1].
Proof.
  unfold init_vars. cbn [bindM emit lift app].
  destruct (mapM (topk (beam_size self)) (first_step (model self) src)) as [tk|e];
    [|reflexivity].
  cbn [bindM lift app].
  destruct (mapM math_log (concat (map (map fst) tk))) as [ls|e]; [|reflexivity].
  cbn [bindM lift app].
  destruct (mapM (set_item 0 (sos_id self)) _) as [o|e]; [|reflexivity].
  cbn [bindM lift app].
  destruct (set_column 1 _ o) as [o'|e]; reflexivity.
Qed.

Lemma loop_body_events self src i outputs log_scores :
  fst (loop_body self src i outputs log_scores) = [EvDecode i].
Proof.
  unfold loop_body. cbn [bindM emit].
  destruct (decoder (model self) src (map (firstn i) outputs)) as [out attn0].
  destruct (compute_k_best _ _ _ _ _ _) as [[o s]|e]; reflexivity.
Qed.

Lemma fst_bindM {A B} (m : M A) (k : A -> M B) :
  fst (bindM m k) = fst m ++ match snd m with Ok a => fst (k a) | Raise _ => [] end.
Proof.
  unfold bindM. destruct m as [ev [a|e]]; simpl.
  - now destruct (k a).
  - now rewrite app_nil_r.
Qed.

Lemma search_loop_events self src fin m :
  forall t outputs log_scores attn,
  exists n, n <= m /\
    fst (search_loop self src fin (seq t m) outputs log_scores attn)
    = map EvDecode (seq t n).
Proof.
  induction m as [|m IH]; intros t outputs log_scores attn.
  - exists 0. split; [lia|reflexivity].
  - cbn [seq search_loop]. rewrite fst_bindM, loop_body_events.
    destruct (snd (loop_body self src t outputs log_scores)) as [[[o s] a]|e].
    + rewrite fst_bindM. cbn [lift fst snd app].
      destruct (column o (Z.of_nat t)) as [col|e].
      * destruct (torch_equal col fin).
        -- exists 1. split; [lia|reflexivity].
        -- destruct (IH (S t) o s (Some a)) as (n & Hn & ->).
           exists (S n). split; [lia|reflexivity].
      * exists 1. split; [lia|reflexivity].
    + exists 1. split; [lia|reflexivity].
Qed.

Lemma replace_stage_events self src_tokens replace_unk attn translated :
  fst (replace_stage self src_tokens replace_unk attn translated) = [] \/
  (fst (replace_stage self src_tokens replace_unk attn translated) = [EvWarn warn_msg] /\
   src_tokens = None /\ effective_replace_unk self replace_unk <> None).
Proof.
  unfold replace_stage.
  destruct (effective_replace_unk self replace_unk) as [sel|]; [|now left].
  destruct src_tokens as [toks|].
  - left. destruct attn; reflexivity.
  - right. split; [reflexivity|]. split; [reflexivity|discriminate].
Qed.

Lemma beam_search_events self batch src_tokens n_best length_norm replace_unk :
  exists n w,
    n <= max_len self - 2 /\
    fst (beam_search self batch src_tokens n_best length_norm replace_unk)
    = [EvEncode; EvDecode 1] ++ map EvDecode (seq 2 n) ++ w /\
    (w = [] \/
     (w = [EvWarn warn_msg] /\ src_tokens = None /\
      effective_replace_unk self replace_unk <> None)).
Proof.
  unfold beam_search. rewrite fst_bindM, init_vars_events.
  destruct (snd (init_vars self batch)) as [[o s]|e].
  2:{ exists 0, []. split; [lia|]. split; [reflexivity|now left]. }
  rewrite fst_bindM.
  destruct (search_loop_events self batch (repeat (eos_id self) (beam_size self * length batch))
              (max_len self - 2) 2 o s None) as (n & Hn & ->).
  destruct (snd (search_loop _ _ _ _ _ _ _)) as [[[o' s'] a]|e].
  2:{ exists n, []. split; [lia|]. split; [reflexivity|now left]. }
  rewrite fst_bindM. cbn [lift fst snd app].
  destruct (reshape2 (length batch) (beam_size self) o') as [o3|e].
  2:{ exists n, []. split; [lia|]. split; [reflexivity|now left]. }
  rewrite fst_bindM. cbn [lift fst snd app].
  destruct (reshape2 (length batch) (beam_size self) s') as [s3|e].
  2:{ exists n, []. split; [lia|]. split; [reflexivity|now left]. }
  rewrite fst_bindM. cbn [lift fst snd app].
  destruct (mapM (mapM (trim_and_itos self)) o3) as [tr|e].
  2:{ exists n, []. split; [lia|]. split; [reflexivity|now left]. }
  rewrite fst_bindM.
  exists n, (fst (replace_stage self src_tokens replace_unk a tr)).
  split; [lia|]. split; [|apply replace_stage_events].
  do 2 f_equal. f_equal.
  destruct (snd (replace_stage self src_tokens replace_unk a tr)) as [tr2|e];
    [|now rewrite app_nil_r].
  rewrite fst_bindM. cbn [lift fst snd app].
  destruct (normalize_stage self length_norm o3 s3 tr2) as [tr3|e];
    [|now rewrite app_nil_r].
  destruct (n_best =? 1).
  - rewrite fst_bindM. cbn [lift fst snd app].
    destruct (mapM _ tr3); now rewrite app_nil_r.
  - now rewrite app_nil_r.
Qed.

(** X4.  Whatever its outcome, [beam_search] calls the encoder exactly
    once and first, then the decoder at the timesteps [1, 2, ..., n + 1]
    in this order with [n <= max_len - 2], and logs at most one thing
    after that: the warning that replacement is enabled without source
    tokens, and only when no source tokens were given. *)
Theorem beam_search_call_order :
  forall self batch src_tokens n_best length_norm replace_unk,
  exists n w,
    n <= max_len self - 2 /\
    fst (beam_search self batch src_tokens n_best length_norm replace_unk)
    = [EvEncode; EvDecode 1] ++ map EvDecode (seq 2 n) ++ w /\
    (w = [] \/
     (w = [EvWarn warn_msg] /\ src_tokens = None /\
      effective_replace_unk self replace_unk <> None)).
Proof. exact beam_search_events. Qed.
End Events.

(** ** What a returning [beam_search] has gone through *)

Section Returning.
Context {F : FloatOps}.

(** The stages of a call of [beam_search] that returns. *)
Lemma beam_search_ok self batch src_tokens n_best length_norm replace_unk ev t :
  beam_search self batch src_tokens n_best length_norm replace_unk = (ev, Ok t) ->
  exists ev0 o s ev1 o' s' attn o3 s3 tr ev2 tr2 tr3,
    init_vars self batch = (ev0, Ok (o, s)) /\
    search_loop self batch (repeat (eos_id self) (beam_size self * length batch))
                (seq 2 (max_len self - 2)) o s None = (ev1, Ok (o', s', attn)) /\
    reshape2 (length batch) (beam_size self) o' = Ok o3 /\
    reshape2 (length batch) (beam_size self) s' = Ok s3 /\
    mapM (mapM (trim_and_itos self)) o3 = Ok tr /\
    replace_stage self src_tokens replace_unk attn tr = (ev2, Ok tr2) /\
    normalize_stage self length_norm o3 s3 tr2 = Ok tr3 /\
    ev = ev0 ++ ev1 ++ ev2 /\
    (if n_best =? 1
     then exists best, mapM (fun beams => py_get beams 0%Z) tr3 = Ok best /\ t = Best best
     else t = NBest (map (firstn n_best) tr3)).
Proof.
  unfold beam_search. intros H.
  inv_bindM H. destruct x as [o s].
  inv_bindM H. destruct x as [[o' s'] attn].
  inv_bindM H. rename x into o3. apply lift_ok in E1. destruct E1 as [E1 ->].
  inv_bindM H. rename x into s3. apply lift_ok in E2. destruct E2 as [E2 ->].
  inv_bindM H. rename x into tr. apply lift_ok in E3. destruct E3 as [E3 ->].
  inv_bindM H. rename x into tr2.
  inv_bindM H. rename x into tr3. apply lift_ok in E5. destruct E5 as [E5 ->].
  exists ev0, o, s, ev2, o', s', attn, o3, s3, tr, ev4, tr2, tr3.
  repeat (split; [eassumption|]).
  destruct (n_best =? 1).
  - inv_bindM H. apply lift_ok in E6. destruct E6 as [E6 ->].
    unfold retM in H. injection H as <- <-. subst. simpl.
    split; [now rewrite !app_nil_r|]. eauto.
  - unfold retM in H. injection H as <- <-. subst. simpl.
    split; [now rewrite !app_nil_r|reflexivity].
Qed.

Lemma replace_stage_length self src_tokens replace_unk attn translated ev out :
  replace_stage self src_tokens replace_unk attn translated = (ev, Ok out) ->
  length out = length translated.
Proof.
  unfold replace_stage.
  destruct (effective_replace_unk self replace_unk) as [sel|].
  - destruct src_tokens as [toks|].
    + destruct attn as [a|]; [|discriminate].
      intros H. apply lift_ok in H. destruct H as [H _].
      unfold replace_unknown in H. inv_bind H. apply reshape2_rows in H. tauto.
    + intros H. inv_bindM H. unfold retM in H. injection H as _ <-. apply length_map.
  - unfold retM. intros H. injection H as _ <-. apply length_map.
Qed.

Lemma normalize_stage_length self length_norm outputs log_scores translated out :
  normalize_stage self length_norm outputs log_scores translated = Ok out ->
  length outputs = length translated -> length log_scores = length translated ->
  length out = length translated.
Proof.
  unfold normalize_stage.
  destruct (effective_length_norm self length_norm) as [coff|].
  - intros H Lo Ls. inv_bind H. rename x into lengths.
    inv_bind H. destruct x as [scores indices].
    apply mapM_length in E. apply mapM_length in H.
    unfold length_normalize in E0. inv_bind E0. injection E0 as _ <-.
    rewrite H, length_combine, length_rev, length_map, length_zip_with, length_map.
    lia.
  - intros H _ _. now injection H as <-.
Qed.

Lemma beam_search_entries :
  forall self batch src_tokens n_best length_norm replace_unk ev t,
    beam_search self batch src_tokens n_best length_norm replace_unk = (ev, Ok t) ->
    match t with
    | Best sents => n_best = 1 /\ length sents = length batch
    | NBest sents =>
        n_best <> 1 /\ length sents = length batch /\
        Forall (fun hyps => length hyps = Nat.min n_best (beam_size self)) sents
    end.
Proof.
  intros self batch src_tokens n_best length_norm replace_unk ev t H.
  pose proof (@beam_search_rows _ _ _ _ _ _ _ _ _ H) as Hrows.
  apply beam_search_ok in H.
  destruct H as (ev0 & o & s & ev1 & o' & s' & attn & o3 & s3 & tr & ev2 & tr2 & tr3
                 & _ & _ & Eo & Es & Etr & Erep & Enorm & _ & Hret).
  apply reshape2_rows in Eo, Es. destruct Eo as [Lo _]. destruct Es as [Ls _].
  apply mapM_length in Etr. apply replace_stage_length in Erep.
  apply normalize_stage_length in Enorm; [|congruence|congruence].
  assert (L3 : length tr3 = length batch) by congruence.
  destruct (n_best =? 1).
  - destruct Hret as (best & Hbest & ->). apply mapM_length in Hbest.
    split; [exact Hrows|congruence].
  - subst t. destruct Hrows as [Hn Hw]. split; [exact Hn|]. split; [|exact Hw].
    now rewrite length_map.
Qed.

(** X5.  A call of [beam_search] that returns gives one entry per
    sentence of the batch: one hypothesis each for [n_best = 1], and
    otherwise one list of [min(n_best, beam_size)] hypotheses each. *)
Theorem beam_search_one_entry_per_sentence :
  forall self batch src_tokens n_best length_norm replace_unk ev t,
    beam_search self batch src_tokens n_best length_norm replace_unk = (ev, Ok t) ->
    match t with
    | Best sents => n_best = 1 /\ length sents = length batch
    | NBest sents =>
        n_best <> 1 /\ length sents = length batch /\
        Forall (fun hyps => length hyps = Nat.min n_best (beam_size self)) sents
    end.
Proof. exact beam_search_entries. Qed.

Lemma concat_chunks {A} (n w : nat) (l : list A) :
  length l = n * w -> concat (chunks n w l) = l.
Proof.
  revert l; induction n as [|n IH]; intros l Hl; simpl.
  - destruct l; [reflexivity|discriminate].
  - rewrite IH; [apply firstn_skipn|]. rewrite length_skipn. simpl in Hl. lia.
Qed.

Lemma length_nonzero_from (e : Z) (tokens : list Z) (s : nat) :
  length (map fst (filter (fun it => (snd it =? e)%Z) (enumerate_from s tokens)))
  = count_occ Z.eq_dec tokens e.
Proof.
  revert s; induction tokens as [|x tokens IH]; intros s; simpl; [reflexivity|].
  destruct (Z.eq_dec x e) as [Heq|Hneq]; destruct (Z.eqb_spec x e) as [Heq'|Hne];
    try congruence; simpl; now rewrite IH.
Qed.

Lemma _length_ok_count (tokens : list Z) (e : Z) n :
  _length tokens e = Ok n -> count_occ Z.eq_dec tokens e <= 1.
Proof.
  unfold _length, nonzero_eq, enumerate. intros H. inv_bind H.
  rewrite <- (length_nonzero_from e tokens 0).
  destruct (map fst _) as [|a [|b l]]; simpl in *; try lia. discriminate.
Qed.

(** X6.  [beam_search] returns only when every row of the state the loop
    left holds [<eos>] at most once. *)
Theorem beam_search_returns_single_eos :
  forall self batch src_tokens n_best length_norm replace_unk ev0 o s ev1 o' s' attn ev t,
    init_vars self batch = (ev0, Ok (o, s)) ->
    search_loop self batch (repeat (eos_id self) (beam_size self * length batch))
                (seq 2 (max_len self - 2)) o s None = (ev1, Ok (o', s', attn)) ->
    beam_search self batch src_tokens n_best length_norm replace_unk = (ev, Ok t) ->
    Forall (fun row => count_occ Z.eq_dec row (eos_id self) <= 1) o'.
Proof.
  intros self batch src_tokens n_best length_norm replace_unk ev0 o s ev1 o' s' attn ev t
         Hinit Hloop H.
  apply beam_search_ok in H.
  destruct H as (ev0' & o0 & s0 & ev1' & o1 & s1 & attn1 & o3 & s3 & tr & ev2 & tr2 & tr3
                 & Hinit' & Hloop' & Eo & _ & Etr & _).
  rewrite Hinit in Hinit'. injection Hinit' as <- <- <-.
  rewrite Hloop in Hloop'. injection Hloop' as <- <- <- <-.
  unfold reshape2 in Eo. destruct (Nat.eqb_spec (length o') (length batch * beam_size self))
    as [Hl|]; [|discriminate].
  injection Eo as <-. rewrite <- (concat_chunks _ _ _ Hl).
  apply Forall_concat. apply Forall_forall. intros rows Hrows.
  apply In_nth_error in Hrows. destruct Hrows as [b Hb].
  destruct (Forall2_nth_error_l b (mapM_Forall2 _ _ Etr) Hb) as (trb & _ & Hm).
  apply Forall_forall. intros row Hrow. apply In_nth_error in Hrow. destruct Hrow as [j Hj].
  destruct (Forall2_nth_error_l j (mapM_Forall2 _ _ Hm) Hj) as (toks & _ & Ht).
  unfold trim_and_itos in Ht. inv_bind Ht. eapply _length_ok_count; eauto.
Qed.

(** X7.  With unknown-word replacement in force and source tokens given,
    a decoder whose [max_len] is at most 2 never returns: the loop body
    does not run, and [attn], which only the loop body binds, is read.
    The exception is [UnboundLocalError] whenever the model gives one
    first-step distribution per sentence and the trimming of the rows
    succeeds. *)
Theorem beam_search_replace_needs_a_loop_step :
  forall self batch toks n_best length_norm replace_unk sel,
    max_len self <= 2 ->
    effective_replace_unk self replace_unk = Some sel ->
    exists e,
      snd (beam_search self batch (Some toks) n_best length_norm replace_unk) = Raise e /\
      forall o s tr,
        snd (init_vars self batch) = Ok (o, s) ->
        length (first_step (model self) batch) = length batch ->
        mapM (mapM (trim_and_itos self)) (chunks (length batch) (beam_size self) o) = Ok tr ->
        e = UnboundLocalError.
Proof.
  intros self batch toks n_best length_norm replace_unk sel Hm Hsel.
  unfold beam_search. replace (max_len self - 2) with 0 by lia.
  destruct (init_vars self batch) as [ev0 [[o s]|e]] eqn:Hinit.
  2:{ exists e. split; [reflexivity|]. intros o s tr Ho. discriminate. }
  cbn [bindM seq search_loop retM app]. unfold reshape2.
  destruct (@init_vars_ok _ _ _ _ _ _ Hinit) as (tk & Etk & _ & Hs & _ & Ho & _).
  rewrite Ho, (Nat.mul_comm (beam_size self)), Nat.eqb_refl.
  cbn [bindM lift app].
  destruct (length s =? length batch * beam_size self) eqn:Es.
  2:{ eexists. split; [reflexivity|]. intros o1 s1 tr H1 Hl _. exfalso.
      apply Nat.eqb_neq in Es. apply Es. rewrite Hs, length_map.
      rewrite (length_concat_uniform (w := beam_size self)).
      - now rewrite length_map, (mapM_length _ _ Etk), Hl.
      - rewrite Forall_map. eapply Forall_impl; [|exact (mapM_topk_lengths _ _ Etk)].
        intros a Ha. now rewrite length_map. }
  cbn [bindM lift app].
  destruct (mapM (mapM (trim_and_itos self)) _) as [tr|e] eqn:Etr.
  2:{ exists e. split; [reflexivity|]. intros o1 s1 tr H1 _ Htr. simpl in H1.
      injection H1 as <- <-. congruence. }
  cbn [bindM lift app]. unfold replace_stage. rewrite Hsel.
  exists UnboundLocalError. split; reflexivity.
Qed.
End Returning.

Lemma beam_search_one_entry_per_sentence_witness :
  beam_search (F := QFloat) (toy_decoder next_eos 4 2) [[3; 4]%Z] None 2 None None
  = ([EvEncode; EvDecode 1; EvDecode 2],
     Ok (NBest [[Tokens ["a"%string]; Tokens ["b"%string]]])) /\
  (2 <> 1 /\
   length [[Tokens ["a"%string]; Tokens ["b"%string]]] = length [[3; 4]%Z] /\
   Forall (fun hyps : list hypothesis => length hyps = Nat.min 2 2)
          [[Tokens ["a"%string]; Tokens ["b"%string]]]).
Proof.
  split; [reflexivity|].
  exact (@beam_search_one_entry_per_sentence QFloat (toy_decoder next_eos 4 2)
           [[3; 4]%Z] None 2 None None _ _ eq_refl).
Defined.

Lemma beam_search_returns_single_eos_witness :
  init_vars (F := QFloat) (toy_decoder next_eos 4 2) [[3; 4]%Z]
  = ([EvEncode; EvDecode 1],
     Ok ([[1; 3; 0; 0]; [1; 4; 0; 0]]%Z, [(-1)%Q; (-2)%Q])) /\
  search_loop (F := QFloat) (toy_decoder next_eos 4 2) [[3; 4]%Z] (repeat 2%Z (2 * 1))
              (seq 2 (4 - 2)) [[1; 3; 0; 0]; [1; 4; 0; 0]]%Z [(-1)%Q; (-2)%Q] None
  = ([EvDecode 2],
     Ok ([[1; 3; 2; 0]; [1; 4; 2; 0]]%Z, [(-2)%Q; (-3)%Q],
         Some [[[[[1; 0]; [1; 0]]]; [[[1; 0]; [1; 0]]]]]%Q)) /\
  beam_search (F := QFloat) (toy_decoder next_eos 4 2) [[3; 4]%Z] None 1 None None
  = ([EvEncode; EvDecode 1; EvDecode 2], Ok (Best [Tokens ["a"%string]])) /\
  Forall (fun row => count_occ Z.eq_dec row 2%Z <= 1) [[1; 3; 2; 0]; [1; 4; 2; 0]]%Z.
Proof.
  split; [reflexivity|]. split; [reflexivity|]. split; [reflexivity|].
  exact (@beam_search_returns_single_eos QFloat (toy_decoder next_eos 4 2) [[3; 4]%Z]
           None 1 None None _ _ _ _ _ _ _ _ _ eq_refl eq_refl eq_refl).
Defined.

Lemma beam_search_replace_needs_a_loop_step_witness :
  2 <= 2 /\
  effective_replace_unk (F := QFloat) (toy_decoder next_eos 2 1) (Some (Some (0, 0)%Z))
  = Some (0, 0)%Z /\
  beam_search (F := QFloat) (toy_decoder next_eos 2 1) [[3; 4]%Z]
              (Some [["a"; "b"]%string]) 1 None (Some (Some (0, 0)%Z))
  = ([EvEncode; EvDecode 1], Raise UnboundLocalError) /\
  exists e,
    snd (beam_search (F := QFloat) (toy_decoder next_eos 2 1) [[3; 4]%Z]
                     (Some [["a"; "b"]%string]) 1 None (Some (Some (0, 0)%Z)))
    = Raise e /\
    forall o s tr,
      snd (init_vars (F := QFloat) (toy_decoder next_eos 2 1) [[3; 4]%Z]) = Ok (o, s) ->
      length (first_step (toy_model next_eos) [[3; 4]%Z]) = length [[3; 4]%Z] ->
      mapM (mapM (trim_and_itos (toy_decoder next_eos 2 1))) (chunks 1 1 o) = Ok tr ->
      e = UnboundLocalError.
Proof.
  split; [lia|]. split; [reflexivity|]. split; [reflexivity|].
  exact (@beam_search_replace_needs_a_loop_step QFloat (toy_decoder next_eos 2 1)
           [[3; 4]%Z] [["a"; "b"]%string] 1 None (Some (Some (0, 0)%Z)) (0, 0)%Z
           (le_n 2) eq_refl).
Defined.

(** ** [_length], for every row *)

Section LengthOfRow.
Context {F : FloatOps}.

Lemma first_occurrence (e : Z) (l : list Z) :
  In e l -> exists pre post, l = pre ++ e :: post /\ ~ In e pre.
Proof.
  induction l as [|x l IH]; simpl; [contradiction|]. intros Hin.
  destruct (Z.eq_dec x e) as [->|Hne].
  - exists [], l. split; [reflexivity|]. intros [].
  - destruct Hin as [Heq|Hin]; [contradiction|].
    destruct (IH Hin) as (pre & post & -> & Hpre).
    exists (x :: pre), post. split; [reflexivity|].
    intros [Heq|Hin']; [contradiction|]. now apply Hpre.
Qed.

(** X8.  [_length] is decided by the number of [<eos>] in the row: with
    none it returns the length of the row; with one it returns the
    position of that [<eos>], except at position 0, where it returns the
    length of the row; with two or more it raises [ValueError]. *)
Theorem _length_by_occurrences :
  forall (tokens : list Z) (eos_tok : Z),
    (count_occ Z.eq_dec tokens eos_tok = 0 ->
     _length tokens eos_tok = Ok (length tokens)) /\
    (count_occ Z.eq_dec tokens eos_tok = 1 ->
     exists pre post,
       tokens = pre ++ eos_tok :: post /\ ~ In eos_tok pre /\ ~ In eos_tok post /\
       _length tokens eos_tok
       = Ok (match pre with [] => length tokens | _ :: _ => length pre end)) /\
    (2 <= count_occ Z.eq_dec tokens eos_tok ->
     _length tokens eos_tok = Raise ValueError).
Proof.
  intros tokens e.
  destruct (_length_cases e) as (Hnone & Hone & Hzero & Htwo).
  split; [|split].
  - intros Hc. apply Hnone. now apply (count_occ_not_In Z.eq_dec).
  - intros Hc.
    assert (Hin : In e tokens) by (apply (count_occ_In Z.eq_dec); lia).
    destruct (first_occurrence _ _ Hin) as (pre & post & -> & Hpre).
    rewrite count_occ_app in Hc. simpl in Hc.
    destruct (Z.eq_dec e e) as [_|]; [|congruence].
    assert (Hpost : ~ In e post) by (apply (count_occ_not_In Z.eq_dec); lia).
    exists pre, post. split; [reflexivity|]. split; [exact Hpre|]. split; [exact Hpost|].
    destruct pre as [|x pre].
    + apply Hzero. exact Hpost.
    + apply Hone; auto. discriminate.
  - intros Hc.
    assert (Hin : In e tokens) by (apply (count_occ_In Z.eq_dec); lia).
    destruct (first_occurrence _ _ Hin) as (pre & rest & -> & Hpre).
    rewrite count_occ_app in Hc. simpl in Hc.
    destruct (Z.eq_dec e e) as [_|]; [|congruence].
    assert (Hc0 : count_occ Z.eq_dec pre e = 0) by now apply (count_occ_not_In Z.eq_dec).
    assert (Hin2 : In e rest) by (apply (count_occ_In Z.eq_dec); lia).
    destruct (first_occurrence _ _ Hin2) as (mid & post & -> & Hmid).
    now apply Htwo.
Qed.
End LengthOfRow.

Lemma _length_by_occurrences_witness :
  2 <= count_occ Z.eq_dec [1; 3; 2; 2; 0]%Z 2%Z /\
  _length [1; 3; 2; 2; 0]%Z 2%Z = Raise ValueError.
Proof.
  split; [simpl; lia|].
  apply (proj2 (proj2 (_length_by_occurrences [1; 3; 2; 2; 0]%Z 2%Z))). simpl. lia.
Defined.

(** ** [length_normalize] on a batch of one beam width *)

Section LengthNormalizeShape.
Context {F : FloatOps}.

Lemma take_indices_permutation {A} (prb : list A) (ids : list nat) :
  Permutation ids (seq 0 (length prb)) ->
  exists out,
    take_indices prb ids = Ok out /\
    Permutation out prb /\
    forall j i, nth_error ids j = Some i -> nth_error out j = nth_error prb i.
Proof.
  intros Hp.
  assert (Hall : Forall (fun i => exists a, py_get prb (Z.of_nat i) = Ok a) ids).
  { apply Forall_forall. intros i Hi.
    eapply Permutation_in in Hi; [|exact Hp]. apply in_seq in Hi.
    destruct (nth_error prb i) as [a|] eqn:Ea.
    - exists a. now apply py_get_nat.
    - apply nth_error_None in Ea. lia. }
  destruct (mapM_ok_intro _ Hall) as [out Hout]. exists out.
  split; [exact Hout|].
  assert (Hmap : map Some out = map (nth_error prb) ids).
  { pose proof (mapM_Forall2 _ _ Hout) as H2. clear -H2.
    induction H2 as [|i a ids out Hi _ IH]; [reflexivity|]. simpl.
    apply py_get_nat in Hi. now rewrite Hi, IH. }
  split.
  - assert (Hs : map (nth_error prb) (seq 0 (length prb)) = map Some prb).
    { clear. induction prb as [|a prb IH] using rev_ind; [reflexivity|].
      rewrite length_app. simpl. rewrite Nat.add_1_r, seq_S, !map_app. simpl.
      rewrite nth_error_app2, Nat.sub_diag by lia. simpl. f_equal.
      rewrite <- IH. apply map_ext_in. intros i Hi. apply in_seq in Hi.
      apply nth_error_app1. lia. }
    assert (Hperm : Permutation (map Some out) (map Some prb)).
    { rewrite Hmap, <- Hs. now apply Permutation_map. }
    apply Permutation_map_inv in Hperm. destruct Hperm as (l3 & Hl3 & Hp3).
    assert (out = l3).
    { clear -Hl3. revert l3 Hl3. induction out as [|a out IH]; intros [|b l3] H;
        try discriminate; [reflexivity|].
      simpl in H. injection H as -> H. f_equal. now apply IH. }
    subst l3. now symmetry.
  - intros j i Hj.
    assert (H1 : nth_error (map Some out) j = nth_error (map (nth_error prb) ids) j)
      by now rewrite Hmap.
    rewrite !nth_error_map, Hj in H1. simpl in H1.
    destruct (nth_error out j) as [a|] eqn:Ea; simpl in H1; [|discriminate].
    now injection H1 as <-.
Qed.

Lemma length_penalized_row coff ls ps k :
  length ls = k -> length ps = k -> length (penalized_row coff ls ps) = k.
Proof.
  intros Hl Hp. unfold penalized_row. rewrite length_zip_with, length_map. lia.
Qed.

Lemma length_normalize_shaped :
  forall (lengths : list (list nat)) (log_probs : list (list float)) coff k,
    length lengths = length log_probs ->
    Forall (fun r => length r = k) lengths ->
    Forall (fun r => length r = k) log_probs ->
    exists scores indices,
      length_normalize lengths log_probs coff = Ok (scores, indices) /\
      length scores = length log_probs /\
      length indices = length log_probs /\
      forall b ls ps,
        nth_error lengths b = Some ls -> nth_error log_probs b = Some ps ->
        exists ids sc ls' ps',
          nth_error indices b = Some ids /\
          nth_error scores b = Some sc /\
          nth_error lengths (length log_probs - 1 - b) = Some ls' /\
          nth_error log_probs (length log_probs - 1 - b) = Some ps' /\
          ids = argsort (penalized_row coff ls' ps') /\
          Permutation ids (seq 0 k) /\
          Permutation sc (penalized_row coff ls ps) /\
          forall j i, nth_error ids j = Some i ->
                      nth_error sc j = nth_error (penalized_row coff ls ps) i.
Proof.
  intros lengths log_probs coff k Hlen Wl Wp.
  unfold length_normalize.
  set (pen := fun l : nat => f_pow (f_div (f_of_Z (Z.of_nat l + 5)) (f_of_Z 6)) coff).
  set (penalized := zip_with (fun ps ls => zip_with f_div ps ls) log_probs
                             (map (map pen) lengths)).
  set (indices := rev (map argsort penalized)).
  assert (Hpen : forall b ls ps,
             nth_error lengths b = Some ls -> nth_error log_probs b = Some ps ->
             nth_error penalized b = Some (penalized_row coff ls ps)).
  { intros b ls ps Hl Hp. unfold penalized.
    rewrite nth_error_zip_with, Hp, nth_error_map, Hl. reflexivity. }
  assert (Lpen : length penalized = length log_probs).
  { unfold penalized. rewrite length_zip_with, length_map. lia. }
  assert (Wpen : Forall (fun r => length r = k) penalized).
  { apply Forall_forall. intros r Hr. apply In_nth_error in Hr. destruct Hr as [b Hb].
    assert (Hb' : b < length penalized) by (apply nth_error_Some; congruence).
    destruct (nth_error lengths b) as [ls|] eqn:El;
      [|apply nth_error_None in El; lia].
    destruct (nth_error log_probs b) as [ps|] eqn:Ep;
      [|apply nth_error_None in Ep; lia].
    rewrite (Hpen _ _ _ El Ep) in Hb. injection Hb as <-.
    apply length_penalized_row.
    - rewrite Forall_forall in Wl. apply Wl. eapply nth_error_In; eauto.
    - rewrite Forall_forall in Wp. apply Wp. eapply nth_error_In; eauto. }
  assert (Lind : length indices = length log_probs).
  { unfold indices. now rewrite length_rev, length_map. }
  assert (Hind : forall b, b < length log_probs ->
             exists r, nth_error penalized (length log_probs - 1 - b) = Some r /\
                       nth_error indices b = Some (argsort r)).
  { intros b Hb. unfold indices. rewrite nth_error_rev, length_map, Lpen.
    destruct (Nat.ltb_spec b (length log_probs)); [|lia].
    replace (length log_probs - S b) with (length log_probs - 1 - b) by lia.
    destruct (nth_error penalized (length log_probs - 1 - b)) as [r|] eqn:Er.
    - exists r. split; [reflexivity|]. now rewrite nth_error_map, Er.
    - apply nth_error_None in Er. lia. }
  assert (Hall : Forall (fun pi => exists out, take_indices (fst pi) (snd pi) = Ok out)
                        (combine penalized indices)).
  { apply Forall_forall. intros [r ids] Hin. simpl.
    apply In_nth_error in Hin. destruct Hin as [b Hb].
    rewrite nth_error_combine in Hb.
    destruct (nth_error penalized b) as [r'|] eqn:Er; [|discriminate].
    destruct (nth_error indices b) as [ids'|] eqn:Ei; [|discriminate].
    injection Hb as -> ->.
    assert (Hb' : b < length log_probs) by (rewrite <- Lpen; apply nth_error_Some; congruence).
    destruct (Hind b Hb') as (r2 & Hr2 & Hi2). rewrite Ei in Hi2. injection Hi2 as ->.
    rewrite Forall_forall in Wpen.
    assert (Lr : length r = k) by (apply Wpen; eapply nth_error_In; eauto).
    assert (Lr2 : length r2 = k) by (apply Wpen; eapply nth_error_In; eauto).
    destruct (@take_indices_permutation _ r (argsort r2)) as (out & Hout & _).
    - rewrite Lr, <- Lr2. apply argsort_perm.
    - eauto. }
  destruct (mapM_ok_intro _ Hall) as [scores Hscores].
  exists scores, indices. rewrite Hscores. simpl.
  split; [reflexivity|].
  pose proof (mapM_length _ _ Hscores) as Lsc.
  rewrite length_combine, Lpen, Lind, Nat.min_id in Lsc.
  split; [exact Lsc|]. split; [exact Lind|].
  intros b ls ps Hl Hp.
  assert (Hb : b < length log_probs) by (apply nth_error_Some; congruence).
  destruct (Hind b Hb) as (r2 & Hr2 & Hi2).
  destruct (nth_error lengths (length log_probs - 1 - b)) as [ls'|] eqn:El';
    [|apply nth_error_None in El'; lia].
  destruct (nth_error log_probs (length log_probs - 1 - b)) as [ps'|] eqn:Ep';
    [|apply nth_error_None in Ep'; lia].
  rewrite (Hpen _ _ _ El' Ep') in Hr2. injection Hr2 as <-.
  destruct (nth_error scores b) as [sc|] eqn:Esc;
    [|apply nth_error_None in Esc; lia].
  exists (argsort (penalized_row coff ls' ps')), sc, ls', ps'.
  split; [exact Hi2|]. split; [reflexivity|]. split; [reflexivity|].
  split; [reflexivity|]. split; [reflexivity|].
  rewrite Forall_forall in Wl, Wp.
  assert (L1 : length (penalized_row coff ls ps) = k).
  { apply length_penalized_row; [apply Wl|apply Wp]; eapply nth_error_In; eauto. }
  assert (L2 : length (penalized_row coff ls' ps') = k).
  { apply length_penalized_row; [apply Wl|apply Wp]; eapply nth_error_In; eauto. }
  assert (Hperm : Permutation (argsort (penalized_row coff ls' ps'))
                              (seq 0 (length (penalized_row coff ls ps)))).
  { rewrite L1, <- L2. apply argsort_perm. }
  split; [now rewrite <- L1|].
  destruct (take_indices_permutation _ Hperm) as (out & Hout & Hpo & Hnth).
  destruct (mapM_nth_error _ _ _ Hscores Esc) as ([r ids] & Hc & Ht). simpl in Ht.
  rewrite nth_error_combine, (Hpen _ _ _ Hl Hp), Hi2 in Hc. injection Hc as <- <-.
  rewrite Hout in Ht. injection Ht as <-. split; [exact Hpo|exact Hnth].
Qed.
(** X9.  On lengths and scores of one shape, [batch] rows of [k] entries,
    [length_normalize] does not fail and only reorders: the scores it
    returns for a batch item are a permutation of that item's scores
    divided by [((length + 5) / 6) ^ coff], taken at the positions the
    returned index row names; this index row is a permutation of
    [0 .. k-1], and it is the ascending argsort of the item at the
    mirrored position of the batch. *)
Theorem length_normalize_reorders :
  forall (lengths : list (list nat)) (log_probs : list (list float)) coff k,
    length lengths = length log_probs ->
    Forall (fun r => length r = k) lengths ->
    Forall (fun r => length r = k) log_probs ->
    exists scores indices,
      length_normalize lengths log_probs coff = Ok (scores, indices) /\
      length scores = length log_probs /\
      length indices = length log_probs /\
      forall b ls ps,
        nth_error lengths b = Some ls -> nth_error log_probs b = Some ps ->
        exists ids sc ls' ps',
          nth_error indices b = Some ids /\
          nth_error scores b = Some sc /\
          nth_error lengths (length log_probs - 1 - b) = Some ls' /\
          nth_error log_probs (length log_probs - 1 - b) = Some ps' /\
          ids = argsort (penalized_row coff ls' ps') /\
          Permutation ids (seq 0 k) /\
          Permutation sc (penalized_row coff ls ps) /\
          forall j i, nth_error ids j = Some i ->
                      nth_error sc j = nth_error (penalized_row coff ls ps) i.
Proof. exact length_normalize_shaped. Qed.
End LengthNormalizeShape.

Lemma length_normalize_reorders_witness :
  length [[3; 3]; [3; 3]] = length [[(-1)%Q; (-4)%Q]; [(-4)%Q; (-1)%Q]] /\
  Forall (fun r : list nat => length r = 2) [[3; 3]; [3; 3]] /\
  Forall (fun r : list Q => length r = 2) [[(-1)%Q; (-4)%Q]; [(-4)%Q; (-1)%Q]] /\
  exists scores indices,
    length_normalize (F := QFloat) [[3; 3]; [3; 3]]
                     [[(-1)%Q; (-4)%Q]; [(-4)%Q; (-1)%Q]] 0%Q
    = Ok (scores, indices) /\
    length scores = 2 /\ length indices = 2.
Proof.
  assert (W1 : Forall (fun r : list nat => length r = 2) [[3; 3]; [3; 3]])
    by (repeat constructor).
  assert (W2 : Forall (fun r : list Q => length r = 2)
                      [[(-1)%Q; (-4)%Q]; [(-4)%Q; (-1)%Q]])
    by (repeat constructor).
  split; [reflexivity|]. split; [exact W1|]. split; [exact W2|].
  destruct (@length_normalize_reorders QFloat [[3; 3]; [3; 3]]
              [[(-1)%Q; (-4)%Q]; [(-4)%Q; (-1)%Q]] 0%Q 2 eq_refl W1 W2)
    as (scores & indices & H & Ls & Li & _).
  exists scores, indices. auto.
Defined.

(** ** [preprocess_batch] *)

Section Preprocess.
Context {F : FloatOps}.

Lemma fold_max_ge (l : list nat) x : In x l -> x <= fold_right Nat.max 0 l.
Proof.
  induction l as [|y l IH]; simpl; [contradiction|].
  intros [->|Hin]; [lia|]. specialize (IH Hin). lia.
Qed.

Lemma fold_max_in (l : list nat) : l <> [] -> In (fold_right Nat.max 0 l) l.
Proof.
  induction l as [|y l IH]; [congruence|]. intros _. simpl.
  destruct l as [|z l].
  - left. simpl. lia.
  - destruct (Nat.max_spec y (fold_right Nat.max 0 (z :: l))) as [[_ ->]|[_ ->]].
    + right. apply IH. discriminate.
    + now left.
Qed.

Lemma pad_sequence_ok (seqs : list (list Z)) (padding_value : Z) :
  seqs <> [] ->
  pad_sequence seqs padding_value
  = Ok (map (fun s => s ++ repeat padding_value
                                  (fold_right Nat.max 0 (map (@length Z) seqs) - length s))
            seqs).
Proof. destruct seqs; [congruence|reflexivity]. Qed.

(** What [preprocess_batch] returns for raw sentences. *)
Lemma preprocess_batch_raw self sents src_size_limit output_tokens :
  sents <> [] ->
  exists ids toks width,
    preprocess_batch self (RawText sents) src_size_limit output_tokens
    = Ok (if output_tokens then WithTokens ids toks else WithIds ids ids) /\
    toks = match limit_set src_size_limit with
           | Some n => map (firstn n) (map (SRC_preprocess self) sents)
           | None => map (SRC_preprocess self) sents
           end /\
    length toks = length sents /\
    length ids = length sents /\
    Forall (fun row => length row = width) ids /\
    Exists (fun t => length t = width) toks /\
    forall b t,
      nth_error toks b = Some t ->
      length t <= width /\
      nth_error ids b
      = Some (map (_token_to_index self) t
              ++ repeat (SRC_stoi self "<pad>") (width - length t)).
Proof.
  intros Hne. unfold preprocess_batch.
  set (toks := match limit_set src_size_limit with
               | Some n => map (firstn n) (map (SRC_preprocess self) sents)
               | None => map (SRC_preprocess self) sents
               end).
  assert (Lt : length toks = length sents).
  { unfold toks. destruct (limit_set src_size_limit); now rewrite ?length_map. }
  set (tokenized := map (map (_token_to_index self)) toks).
  set (width := fold_right Nat.max 0 (map (@length Z) tokenized)).
  assert (Hlens : map (@length Z) tokenized = map (@length string) toks).
  { unfold tokenized. rewrite map_map. apply map_ext. intros t. apply length_map. }
  assert (Hnt : tokenized <> []).
  { intros E. apply Hne. apply (f_equal (@length _)) in E. unfold tokenized in E.
    rewrite length_map, Lt in E. now destruct sents. }
  rewrite (pad_sequence_ok _ Hnt). fold width. cbn [bind].
  exists (map (fun s => s ++ repeat (SRC_stoi self "<pad>") (width - length s)) tokenized),
         toks, width.
  split; [reflexivity|]. split; [reflexivity|]. split; [exact Lt|].
  split; [unfold tokenized; now rewrite !length_map|].
  assert (Hle : forall t, In t toks -> length t <= width).
  { intros t Hin. unfold width. rewrite Hlens. apply fold_max_ge. now apply in_map. }
  split; [|split].
  - apply Forall_forall. intros row Hrow. apply in_map_iff in Hrow.
    destruct Hrow as (s & <- & Hs). unfold tokenized in Hs. apply in_map_iff in Hs.
    destruct Hs as (t & <- & Ht). specialize (Hle _ Ht).
    rewrite length_app, repeat_length, length_map. lia.
  - apply Exists_exists.
    assert (Hin : In width (map (@length string) toks)).
    { unfold width. rewrite Hlens. apply fold_max_in. rewrite <- Hlens.
      intros E. apply map_eq_nil in E. contradiction. }
    apply in_map_iff in Hin. destruct Hin as (t & Ht & Hin). exists t. auto.
  - intros b t Hb. split; [apply Hle; eapply nth_error_In; eauto|].
    unfold tokenized. rewrite !nth_error_map, Hb. simpl. now rewrite length_map.
Qed.

(** X10.  For a batch of raw sentences that is not empty,
    [preprocess_batch] does not fail and returns a pair: the ids and the
    token lists if [output_tokens], the ids twice otherwise.  There is one
    row of ids per sentence; every row has the length of the longest token
    list, and row [b] is the ids of the tokens of sentence [b] followed by
    the id of [<pad>]. *)
Theorem preprocess_batch_pads :
  forall self sents src_size_limit output_tokens,
    sents <> [] ->
    exists ids toks width,
      preprocess_batch self (RawText sents) src_size_limit output_tokens
      = Ok (if output_tokens then WithTokens ids toks else WithIds ids ids) /\
      toks = match limit_set src_size_limit with
             | Some n => map (firstn n) (map (SRC_preprocess self) sents)
             | None => map (SRC_preprocess self) sents
             end /\
      length toks = length sents /\
      length ids = length sents /\
      Forall (fun row => length row = width) ids /\
      Exists (fun t => length t = width) toks /\
      forall b t,
        nth_error toks b = Some t ->
        length t <= width /\
        nth_error ids b
        = Some (map (_token_to_index self) t
                ++ repeat (SRC_stoi self "<pad>") (width - length t)).
Proof. exact preprocess_batch_raw. Qed.

(** X11.  A positive [src_size_limit] bounds the width of the ids of raw
    sentences and the length of every token list; the limit 0 leaves raw
    sentences as they are, like no limit, while it cuts ids that were
    already processed down to no column at all: these are cut to their
    first [src_size_limit] columns whatever the number. *)
Theorem src_size_limit_cuts :
  (forall self sents n output_tokens ids toks,
      0 < n ->
      preprocess_batch self (RawText sents) (Some n) output_tokens
      = Ok (WithTokens ids toks) ->
      Forall (fun row => length row <= n) ids /\
      Forall (fun t => length t <= n) toks /\
      toks = map (fun s => firstn n (SRC_preprocess self s)) sents) /\
  (forall self sents output_tokens,
      preprocess_batch self (RawText sents) (Some 0) output_tokens
      = preprocess_batch self (RawText sents) None output_tokens) /\
  (forall self ids n w output_tokens,
      Forall (fun row => length row = w) ids ->
      exists ids',
        preprocess_batch self (FieldProcessed ids) (Some n) output_tokens
        = Ok (IdsOnly ids') /\
        length ids' = length ids /\
        Forall (fun row => length row = Nat.min n w) ids' /\
        forall b row, nth_error ids b = Some row -> nth_error ids' b = Some (firstn n row)).
Proof.
  split; [|split].
  - intros self sents n output_tokens ids toks Hn H.
    destruct sents as [|s0 sents]; [destruct n; [lia|]; discriminate|].
    destruct (@preprocess_batch_raw self (s0 :: sents) (Some n) output_tokens)
      as (ids' & toks' & width & Heq & Htoks & _ & _ & Wids & Hex & _); [discriminate|].
    rewrite Heq in H. destruct output_tokens; [|discriminate].
    injection H as <- <-.
    assert (Hlim : limit_set (Some n) = Some n) by (destruct n; [lia|reflexivity]).
    rewrite Hlim in Htoks.
    assert (Wt : Forall (fun t : list string => length t <= n) toks').
    { subst toks'. rewrite !Forall_map. apply Forall_forall. intros s _.
      rewrite length_firstn. lia. }
    split; [|split; [exact Wt|]].
    + apply Exists_exists in Hex. destruct Hex as (t & Hin & Hw).
      rewrite Forall_forall in Wt. specialize (Wt _ Hin).
      eapply Forall_impl; [|exact Wids]. cbv beta. intros row Hrow. lia.
    + subst toks'. now rewrite map_map.
  - reflexivity.
  - intros self ids n w output_tokens W. exists (map (firstn n) ids).
    split; [reflexivity|]. split; [apply length_map|]. split.
    + rewrite Forall_map. eapply Forall_impl; [|exact W]. cbv beta.
      intros row Hrow. rewrite length_firstn. lia.
    + intros b row Hb. now rewrite nth_error_map, Hb.
Qed.
End Preprocess.

Lemma preprocess_batch_pads_witness :
  ["ab"; "b"; "abb"]%string <> [] /\
  exists ids toks width,
    preprocess_batch (toy_translator next_eos 4 1) (RawText ["ab"; "b"; "abb"]%string)
                     (Some 2) true
    = Ok (WithTokens ids toks) /\
    ids = [[3; 4]; [4; 0]; [3; 4]]%Z /\
    toks = [["a"; "b"]; ["b"]; ["a"; "b"]]%string /\ width = 2.
Proof.
  split; [discriminate|].
  destruct (@preprocess_batch_pads QFloat (toy_translator next_eos 4 1)
              ["ab"; "b"; "abb"]%string (Some 2) true)
    as (ids & toks & width & H & Ht & _ & _ & W & _); [discriminate|].
  exists ids, toks, width. split; [exact H|].
  simpl in H. injection H as <- <-. repeat split.
  inversion W as [|? ? Hw _]. subst. reflexivity.
Defined.

Lemma src_size_limit_cuts_witness :
  0 < 2 /\
  preprocess_batch (toy_translator next_eos 4 1) (RawText ["ab"; "b"; "abb"]%string)
                   (Some 2) true
  = Ok (WithTokens [[3; 4]; [4; 0]; [3; 4]]%Z [["a"; "b"]; ["b"]; ["a"; "b"]]%string) /\
  Forall (fun row : list Z => length row <= 2) [[3; 4]; [4; 0]; [3; 4]]%Z /\
  Forall (fun t : list string => length t <= 2) [["a"; "b"]; ["b"]; ["a"; "b"]]%string /\
  [["a"; "b"]; ["b"]; ["a"; "b"]]%string
  = map (fun s => firstn 2 (chars s)) ["ab"; "b"; "abb"]%string.
Proof.
  split; [lia|]. split; [reflexivity|].
  exact (proj1 (@src_size_limit_cuts QFloat) (toy_translator next_eos 4 1)
           ["ab"; "b"; "abb"]%string 2 true _ _ Nat.lt_0_2 eq_refl).
Defined.

(** ** [transl_batch] *)

Section TranslBatch.
Context {F : FloatOps}.

(** The sentences a batch holds. *)
Lemma preprocess_batch_length self batch src_size_limit output_tokens p :
  preprocess_batch self batch src_size_limit output_tokens = Ok p ->
  match batch, p with
  | RawText sents, WithTokens ids toks =>
      output_tokens = true /\ length ids = length sents /\ length toks = length sents
  | RawText sents, WithIds ids _ => output_tokens = false /\ length ids = length sents
  | FieldProcessed ids, IdsOnly ids' => length ids' = length ids
  | _, _ => False
  end.
Proof.
  destruct batch as [sents|ids].
  - destruct sents as [|s0 sents].
    + unfold preprocess_batch. destruct (limit_set src_size_limit); discriminate.
    + destruct (@preprocess_batch_raw _ self (s0 :: sents) src_size_limit output_tokens)
        as (ids & toks & width & Heq & _ & Lt & Li & _); [discriminate|].
      rewrite Heq. intros H. injection H as <-. destruct output_tokens; auto.
  - unfold preprocess_batch. destruct src_size_limit as [n|]; intros H; injection H as <-;
      now rewrite ?length_map.
Qed.

(** The stages of a call of [transl_batch] that returns. *)
Lemma transl_batch_ok self batch src_size_limit output_tokens replace_unk ev r :
  transl_batch self batch src_size_limit output_tokens replace_unk = (ev, Ok r) ->
  exists ids toks sents,
    match batch with
    | RawText _ =>
        exists tl, preprocess_batch self batch src_size_limit true = Ok (WithTokens ids tl) /\
                   toks = Some tl
    | FieldProcessed _ =>
        preprocess_batch self batch src_size_limit true = Ok (IdsOnly ids) /\ toks = None
    end /\
    beam_search (decoder_of self) ids toks 1 None replace_unk = (ev, Ok (Best sents)) /\
    r = if negb output_tokens then Sentences (map join_tokens sents) else TokenLists sents.
Proof.
  unfold transl_batch. intros H.
  inv_bindM H. rename x into p. apply lift_ok in E. destruct E as [Ep ->].
  inv_bindM H. destruct x as [ids toks]. apply lift_ok in E. destruct E as [Ei ->].
  inv_bindM H. rename x into t. simpl in Eev, Eev0, E.
  pose proof (preprocess_batch_length _ _ _ _ Ep) as Hp.
  destruct t as [sents|sents].
  2:{ unfold lift in H. discriminate. }
  exists ids, toks, sents.
  assert (Hr : ev3 = [] /\
               r = if negb output_tokens then Sentences (map join_tokens sents)
                   else TokenLists sents).
  { destruct (negb output_tokens); unfold retM in H; injection H as <- <-; auto. }
  destruct Hr as [-> ->]. rewrite app_nil_r in Eev1. subst ev ev1 ev2.
  split; [|split; [exact E|reflexivity]].
  destruct batch as [ss|ii]; destruct p as [i1|i1 t1|i1 i2]; try contradiction;
    try discriminate; simpl in Ei; injection Ei as <- <-.
  - exists t1. auto.
  - auto.
Qed.

(** X12.  A call of [transl_batch] that returns gives one translation per
    sentence of the batch: strings if [output_tokens] is false, token
    lists otherwise. *)
Theorem transl_batch_one_translation_per_sentence :
  forall self batch src_size_limit output_tokens replace_unk ev r,
    transl_batch self batch src_size_limit output_tokens replace_unk = (ev, Ok r) ->
    let n := match batch with
             | RawText sents => length sents
             | FieldProcessed ids => length ids
             end in
    match r with
    | Sentences l => output_tokens = false /\ length l = n
    | TokenLists l => output_tokens = true /\ length l = n
    end.
Proof.
  intros self batch src_size_limit output_tokens replace_unk ev r H.
  apply transl_batch_ok in H. destruct H as (ids & toks & sents & Hp & Hb & ->).
  apply beam_search_entries in Hb. destruct Hb as [_ Hl].
  assert (Hn : length ids = match batch with
                            | RawText sents => length sents
                            | FieldProcessed ids => length ids
                            end).
  { destruct batch as [ss|ii].
    - destruct Hp as (tl & Hp & _). apply preprocess_batch_length in Hp. tauto.
    - destruct Hp as [Hp _]. apply preprocess_batch_length in Hp. exact Hp. }
  simpl. destruct output_tokens; simpl; rewrite ?length_map; split; congruence.
Qed.

(** X13.  For raw sentences [transl_batch] always hands the token lists
    to [beam_search], so the warning about missing source tokens is never
    logged: the log is the encoder call followed by the decoder calls at
    the timesteps [1 .. n + 1], or empty when the batch is empty. *)
Theorem transl_batch_raw_never_warns :
  forall self sents src_size_limit output_tokens replace_unk,
    (sents = [] /\
     fst (transl_batch self (RawText sents) src_size_limit output_tokens replace_unk) = []) \/
    exists n,
      n <= max_len (decoder_of self) - 2 /\
      fst (transl_batch self (RawText sents) src_size_limit output_tokens replace_unk)
      = [EvEncode; EvDecode 1] ++ map EvDecode (seq 2 n).
Proof.
  intros self sents src_size_limit output_tokens replace_unk.
  destruct sents as [|s0 sents].
  - left. split; [reflexivity|]. unfold transl_batch, preprocess_batch.
    destruct (limit_set src_size_limit); reflexivity.
  - right. unfold transl_batch.
    destruct (@preprocess_batch_raw _ self (s0 :: sents) src_size_limit true)
      as (ids & toks & width & -> & _); [discriminate|].
    cbn [bindM lift app fst snd].
    destruct (beam_search_events (decoder_of self) ids (Some toks) 1 None replace_unk)
      as (n & w & Hn & Hev & Hw).
    exists n. split; [exact Hn|].
    destruct Hw as [->|(_ & Hnone & _)]; [|discriminate].
    rewrite app_nil_r in Hev.
    destruct (beam_search (decoder_of self) ids (Some toks) 1 None replace_unk)
      as [ev [[bs|ns]|e]]; simpl in *; subst.
    + destruct (negb output_tokens); simpl; now rewrite app_nil_r.
    + now rewrite app_nil_r.
    + reflexivity.
Qed.

Lemma beam_search_result_without_tokens self batch n_best length_norm replace_unk sel :
  effective_replace_unk self replace_unk = Some sel ->
  snd (beam_search self batch None n_best length_norm replace_unk)
  = snd (beam_search self batch None n_best length_norm (Some None)).
Proof.
  intros Hsel. unfold beam_search.
  destruct (init_vars self batch) as [ev0 [[outputs log_scores]|e]]; [|reflexivity].
  cbn [bindM].
  destruct (search_loop self batch _ _ outputs log_scores None)
    as [ev1 [[[outputs1 log_scores1] attn]|e]]; [|reflexivity].
  cbn [bindM].
  destruct (reshape2 (length batch) (beam_size self) outputs1) as [outputs3|e];
    [|reflexivity].
  cbn [bindM lift].
  destruct (reshape2 (length batch) (beam_size self) log_scores1) as [scores3|e];
    [|reflexivity].
  cbn [bindM lift].
  destruct (mapM (mapM (trim_and_itos self)) outputs3) as [translated|e]; [|reflexivity].
  cbn [bindM lift].
  destruct (replace_stage_without_tokens self replace_unk attn translated Hsel) as [-> ->].
  cbn [bindM].
  destruct (normalize_stage self length_norm outputs3 scores3 (map (map Tokens) translated))
    as [normalized|e]; [|reflexivity].
  cbn [bindM lift].
  destruct (n_best =? 1); [|reflexivity].
  cbn [bindM lift].
  destruct (mapM (fun beams : list hypothesis => py_get beams 0%Z) normalized);
    reflexivity.
Qed.

(** X14.  For ids that were already processed [transl_batch] has no
    source tokens to hand on, so unknown-word replacement has no effect:
    with [replace_unk] in force the call returns, or raises, what the
    same call with replacement switched off does. *)
Theorem transl_batch_field_processed_ignores_replace_unk :
  forall self ids src_size_limit output_tokens replace_unk sel,
    effective_replace_unk (decoder_of self) replace_unk = Some sel ->
    snd (transl_batch self (FieldProcessed ids) src_size_limit output_tokens replace_unk)
    = snd (transl_batch self (FieldProcessed ids) src_size_limit output_tokens (Some None)).
Proof.
  intros self ids src_size_limit output_tokens replace_unk sel Hsel.
  unfold transl_batch, preprocess_batch.
  pose proof (fun b => @beam_search_result_without_tokens (decoder_of self) b 1 None
                         replace_unk sel Hsel) as Hb.
  destruct src_size_limit as [n|]; cbn [bindM lift app fst snd].
  - specialize (Hb (map (firstn n) ids)).
    destruct (beam_search (decoder_of self) (map (firstn n) ids) None 1 None replace_unk)
      as [ev1 r1].
    destruct (beam_search (decoder_of self) (map (firstn n) ids) None 1 None (Some None))
      as [ev2 r2].
    simpl in Hb. subst r2. destruct r1 as [[bs|ns]|e]; try reflexivity.
    destruct (negb output_tokens); reflexivity.
  - specialize (Hb ids).
    destruct (beam_search (decoder_of self) ids None 1 None replace_unk) as [ev1 r1].
    destruct (beam_search (decoder_of self) ids None 1 None (Some None)) as [ev2 r2].
    simpl in Hb. subst r2. destruct r1 as [[bs|ns]|e]; try reflexivity.
    destruct (negb output_tokens); reflexivity.
Qed.
End TranslBatch.

Lemma transl_batch_one_translation_per_sentence_witness :
  transl_batch (toy_translator next_b_after_a 6 1) (RawText ["ab"%string]) None false None
  = ([EvEncode; EvDecode 1; EvDecode 2; EvDecode 3], Ok (Sentences ["a b"%string])) /\
  (false = false /\ length ["a b"%string] = length ["ab"%string]).
Proof.
  split; [reflexivity|].
  exact (@transl_batch_one_translation_per_sentence QFloat
           (toy_translator next_b_after_a 6 1) (RawText ["ab"%string]) None false None
           _ _ eq_refl).
Defined.

Lemma transl_batch_field_processed_ignores_replace_unk_witness :
  effective_replace_unk (decoder_of (toy_translator next_b_after_a 6 1))
                        (Some (Some (0, 0)%Z)) = Some (0, 0)%Z /\
  transl_batch (toy_translator next_b_after_a 6 1) (FieldProcessed [[3; 4]%Z]) None true
               (Some (Some (0, 0)%Z))
  = ([EvEncode; EvDecode 1; EvDecode 2; EvDecode 3; EvWarn warn_msg],
     Ok (TokenLists [Tokens ["a"; "b"]%string])) /\
  snd (transl_batch (toy_translator next_b_after_a 6 1) (FieldProcessed [[3; 4]%Z]) None true
                    (Some (Some (0, 0)%Z)))
  = snd (transl_batch (toy_translator next_b_after_a 6 1) (FieldProcessed [[3; 4]%Z]) None
                      true (Some None)).
Proof.
  split; [reflexivity|]. split; [reflexivity|].
  exact (@transl_batch_field_processed_ignores_replace_unk QFloat
           (toy_translator next_b_after_a 6 1) [[3; 4]%Z] None true
           (Some (Some (0, 0)%Z)) (0, 0)%Z eq_refl).
Defined.

(** ** [replace_unknown] *)

Section ReplaceUnknown.
Context {F : FloatOps}.

(** X15.  The list [replaced] that [replace_unknown] builds: hypothesis
    [n] of the flattened [outputs] is paired with row [n] of the selected
    attention and with source sentence [n // beam_size], where
    [beam_size] is the number of attention rows divided by the number of
    sentences.  With at least two target positions in the attention, the
    hypothesis is cut to that number of positions, every token other than
    [unknown_token] is kept, and [unknown_token] at position [j] becomes
    the source token at the argmax of the attention weights of [j]. *)
Theorem replaced_rows_substitutes :
  forall outputs sentences attn layer_used head_used unknown_token replaced,
    replaced_rows outputs sentences attn (layer_used, head_used) unknown_token = Ok replaced ->
    exists layer used_attention,
      py_get attn layer_used = Ok layer /\
      column layer head_used = Ok used_attention /\
      length replaced = Nat.min (length (concat outputs)) (length used_attention) /\
      forall n orig row,
        nth_error (concat outputs) n = Some orig ->
        nth_error replaced n = Some row ->
        exists weights sent,
          nth_error used_attention n = Some weights /\
          nth_error sentences (n / (length used_attention / length sentences)) = Some sent /\
          (2 <= length weights ->
           length row = Nat.min (length weights) (length orig) /\
           forall j tok,
             nth_error orig j = Some tok -> j < length weights ->
             exists w p rpl,
               nth_error weights j = Some w /\ argmax w = Ok p /\
               nth_error sent p = Some rpl /\
               nth_error row j
               = Some (if String.eqb tok unknown_token then rpl else tok)).
Proof. exact replaced_rows_spec. Qed.

Lemma same_lengths_uniform {A} (m : nat) (rows : list (list A)) :
  Forall (fun r => length r = m) rows -> same_lengths rows = true.
Proof.
  intros H. destruct rows as [|r rows]; [reflexivity|]. simpl.
  inversion H as [|? ? Hr Hrows]; subst.
  apply forallb_forall. intros r' Hin. rewrite Forall_forall in Hrows.
  rewrite (Hrows _ Hin). apply Nat.eqb_refl.
Qed.

(** X16.  Packing the replaced hypotheses with
    [np.array(replaced).reshape(outputs.shape)], for as many replaced
    hypotheses as [outputs] holds: when they all have one length [m], the
    call raises [ValueError] unless [m = 1], in which case every
    hypothesis comes back as a single string; when their lengths differ,
    the hypotheses come back as token lists in the shape of [outputs]. *)
Theorem replace_unknown_packing :
  forall outputs sentences attn selector_tuple unknown_token replaced,
    replaced_rows outputs sentences attn selector_tuple unknown_token = Ok replaced ->
    let beams := match outputs with [] => 0 | o :: _ => length o end in
    length replaced = length outputs * beams ->
    (forall m, Forall (fun r => length r = m) replaced -> m <> 1 -> replaced <> [] ->
               replace_unknown outputs sentences attn selector_tuple unknown_token
               = Raise ValueError) /\
    (Forall (fun r => length r = 1) replaced ->
     replace_unknown outputs sentences attn selector_tuple unknown_token
     = Ok (chunks (length outputs) beams (map Scalar (concat replaced)))) /\
    (same_lengths replaced = false ->
     replace_unknown outputs sentences attn selector_tuple unknown_token
     = Ok (chunks (length outputs) beams (map Tokens replaced))).
Proof.
  intros outputs sentences attn selector_tuple unknown_token replaced Hrep beams Hlen.
  unfold replace_unknown. rewrite Hrep. cbn [bind]. fold beams.
  unfold reshape2, np_array. split; [|split].
  - intros m Hm Hm1 Hne. rewrite (same_lengths_uniform Hm), length_map.
    rewrite (length_concat_uniform Hm), Hlen.
    destruct (Nat.eqb_spec (length outputs * beams * m) (length outputs * beams)) as [E|];
      [|reflexivity].
    exfalso. assert (Hpos : length outputs * beams <> 0).
    { rewrite <- Hlen. destruct replaced; [congruence|discriminate]. }
    destruct m as [|[|m]]; [lia|congruence|nia].
  - intros H1. rewrite (same_lengths_uniform H1), length_map.
    rewrite (length_concat_uniform H1), Hlen, Nat.mul_1_r, Nat.eqb_refl. reflexivity.
  - intros Hs. rewrite Hs, length_map, Hlen, Nat.eqb_refl. reflexivity.
Qed.

(** X17.  [replace_unknown] divides by the number of source sentences
    and then by the beam width it computed.  Once the attention has been
    selected and reduced, a call with no source sentence raises
    [ZeroDivisionError] at line 143.  A call with more sentences than
    attention rows, if there is a row at all, computes the beam width 0
    and fails on its first hypothesis at line 148: with
    [ZeroDivisionError] when the attention has a target position, and
    with [TypeError] when it has none, since the itemgetter is built,
    from no index, before the division is evaluated. *)
Theorem replace_unknown_zero_division :
  forall outputs sentences attn layer_used head_used unknown_token layer used select,
    py_get attn layer_used = Ok layer ->
    column layer head_used = Ok used ->
    mapM (mapM argmax) used = Ok select ->
    (sentences = [] ->
     replace_unknown outputs sentences attn (layer_used, head_used) unknown_token
     = Raise ZeroDivisionError) /\
    (0 < length used < length sentences ->
     replace_unknown outputs sentences attn (layer_used, head_used) unknown_token
     = Raise (match hd [] select with
              | [] => TypeError
              | _ :: _ => ZeroDivisionError
              end)).
Proof.
  intros outputs sentences attn layer_used head_used unknown_token layer used select
         Hl Hu Hs.
  unfold replace_unknown, replaced_rows. rewrite Hl. cbn [bind]. rewrite Hu. cbn [bind].
  rewrite Hs. cbn [bind]. pose proof (mapM_length _ _ Hs) as Ls.
  split.
  - intros ->. reflexivity.
  - intros [Hpos Hlt]. unfold floordiv at 1.
    destruct (Nat.eqb_spec (length sentences) 0) as [|_]; [lia|]. cbn [bind].
    rewrite Ls, (Nat.div_small _ _ Hlt).
    destruct select as [|s0 select]; [simpl in Ls; lia|].
    destruct s0 as [|p s0]; reflexivity.
Qed.
End ReplaceUnknown.

Lemma replaced_rows_substitutes_witness :
  replaced_rows (F := QFloat) [[["a"; "<unk>"]]]%string [["x"; "y"]]%string
                [[[[[1; 0]; [0; 1]]]]]%Q (0, 0)%Z "<unk>"
  = Ok [["a"; "y"]]%string /\
  exists layer used_attention,
    py_get [[[[[1; 0]; [0; 1]]]]]%Q 0%Z = Ok layer /\
    column layer 0%Z = Ok used_attention /\
    length [["a"; "y"]]%string
    = Nat.min (length (concat [[["a"; "<unk>"]]]%string)) (length used_attention).
Proof.
  split; [reflexivity|].
  destruct (@replaced_rows_substitutes QFloat [[["a"; "<unk>"]]]%string [["x"; "y"]]%string
              [[[[[1; 0]; [0; 1]]]]]%Q 0%Z 0%Z "<unk>"%string [["a"; "y"]]%string eq_refl)
    as (layer & used & Hl & Hu & Hlen & _).
  exists layer, used. auto.
Defined.

Lemma replace_unknown_packing_witness :
  replaced_rows (F := QFloat) [[["a"; "<unk>"]]]%string [["x"; "y"]]%string
                [[[[[1; 0]; [0; 1]]]]]%Q (0, 0)%Z "<unk>"
  = Ok [["a"; "y"]]%string /\
  length [["a"; "y"]]%string = length [[["a"; "<unk>"]]]%string * 1 /\
  Forall (fun r : list string => length r = 2) [["a"; "y"]]%string /\
  replace_unknown (F := QFloat) [[["a"; "<unk>"]]]%string [["x"; "y"]]%string
                  [[[[[1; 0]; [0; 1]]]]]%Q (0, 0)%Z "<unk>"
  = Raise ValueError.
Proof.
  assert (W : Forall (fun r : list string => length r = 2) [["a"; "y"]]%string)
    by (repeat constructor).
  split; [reflexivity|]. split; [reflexivity|]. split; [exact W|].
  refine (proj1 (@replace_unknown_packing QFloat [[["a"; "<unk>"]]]%string
                   [["x"; "y"]]%string [[[[[1; 0]; [0; 1]]]]]%Q (0, 0)%Z "<unk>"%string
                   [["a"; "y"]]%string eq_refl eq_refl) 2 W _ _); discriminate.
Defined.

Lemma replace_unknown_zero_division_witness :
  (py_get (A := list (list (list (list Q)))) [[[[[1; 0]; [0; 1]]]]]%Q 0%Z
   = Ok [[[[1; 0]; [0; 1]]]]%Q /\
   column [[[[1; 0]; [0; 1]]]]%Q 0%Z = Ok [[[1; 0]; [0; 1]]]%Q /\
   mapM (mapM (argmax (F := QFloat))) [[[1; 0]; [0; 1]]]%Q = Ok [[0; 1]] /\
   replace_unknown (F := QFloat) [[["a"; "<unk>"]]]%string [] [[[[[1; 0]; [0; 1]]]]]%Q
                   (0, 0)%Z "<unk>"
   = Raise ZeroDivisionError /\
   0 < length [[[1; 0]; [0; 1]]]%Q < length [["x"; "y"]; ["z"]]%string /\
   replace_unknown (F := QFloat) [[["a"; "<unk>"]]]%string [["x"; "y"]; ["z"]]%string
                   [[[[[1; 0]; [0; 1]]]]]%Q (0, 0)%Z "<unk>"
   = Raise ZeroDivisionError) /\
  (py_get (A := list (list (list (list Q)))) [[[[]]]] 0%Z = Ok [[[]]] /\
   column (A := list (list Q)) [[[]]] 0%Z = Ok [[]] /\
   mapM (mapM (argmax (F := QFloat))) [[]] = Ok [[]] /\
   0 < length (A := list (list Q)) [[]] < length [["x"; "y"]; ["z"]]%string /\
   replace_unknown (F := QFloat) [[[]]] [["x"; "y"]; ["z"]]%string [[[[]]]]
                   (0, 0)%Z "<unk>"
   = Raise TypeError).
Proof.
  assert (Hlt : 0 < 1 < 2) by lia.
  split.
  - split; [reflexivity|]. split; [reflexivity|]. split; [reflexivity|].
    split; [|split; [exact Hlt|]].
    + exact (proj1 (@replace_unknown_zero_division QFloat [[["a"; "<unk>"]]]%string []
                      [[[[[1; 0]; [0; 1]]]]]%Q 0%Z 0%Z "<unk>"%string
                      [[[[1; 0]; [0; 1]]]]%Q [[[1; 0]; [0; 1]]]%Q [[0; 1]]
                      eq_refl eq_refl eq_refl) eq_refl).
    + exact (proj2 (@replace_unknown_zero_division QFloat [[["a"; "<unk>"]]]%string
                      [["x"; "y"]; ["z"]]%string
                      [[[[[1; 0]; [0; 1]]]]]%Q 0%Z 0%Z "<unk>"%string
                      [[[[1; 0]; [0; 1]]]]%Q [[[1; 0]; [0; 1]]]%Q [[0; 1]]
                      eq_refl eq_refl eq_refl) Hlt).
  - split; [reflexivity|]. split; [reflexivity|]. split; [reflexivity|].
    split; [exact Hlt|].
    exact (proj2 (@replace_unknown_zero_division QFloat [[[]]] [["x"; "y"]; ["z"]]%string
                    [[[[]]]] 0%Z 0%Z "<unk>"%string [[[]]] [[]] [[]]
                    eq_refl eq_refl eq_refl) Hlt).
Defined.

(** ** [compute_k_best] on a well-shaped state *)

Section StepReturns.
Context {F : FloatOps}.

Lemma masked_topk_returns k eos_id outputs out i w :
  k <> 0 -> length outputs = length out ->
  Forall (fun row => length row = w) outputs -> 1 <= i -> i < w ->
  Forall (fun dist => k <= length dist) out ->
  exists probs ix, masked_topk k eos_id outputs out i = Ok (probs, ix).
Proof.
  intros Hk Hlen W Hi Hiw Wout. unfold masked_topk, floordiv.
  destruct (Nat.eqb_spec k 0) as [|_]; [contradiction|]. cbn [bind].
  assert (Htk : Forall (fun d => exists tk, topk k d = Ok tk) out).
  { eapply Forall_impl; [|exact Wout]. cbv beta. intros d Hd. unfold topk.
    destruct (Nat.leb_spec k (length d)); [eauto|lia]. }
  destruct (mapM_ok_intro _ Htk) as [tk ->]. cbn [bind].
  assert (Hcol : Forall (fun row => exists tok, py_get row (Z.of_nat i - 1) = Ok tok) outputs).
  { eapply Forall_impl; [|exact W]. cbv beta. intros row Hrow.
    replace (Z.of_nat i - 1)%Z with (Z.of_nat (i - 1)) by lia.
    destruct (nth_error row (i - 1)) as [tok|] eqn:E.
    - exists tok. now apply py_get_nat.
    - apply nth_error_None in E. lia. }
  unfold column. destruct (mapM_ok_intro _ Hcol) as [prev Hprev]. rewrite Hprev. cbn [bind].
  unfold view_column. rewrite length_map, (mapM_length _ _ Hprev), Hlen, Nat.eqb_refl.
  cbn [bind]. eauto.
Qed.

Lemma in_enumerate_from {A} (l : list A) s n a :
  In (n, a) (enumerate_from s l) -> s <= n < s + length l.
Proof.
  intros Hin. apply In_nth_error in Hin. destruct Hin as [j Hj].
  rewrite nth_error_enumerate_from in Hj.
  destruct (nth_error l j) as [x|] eqn:E; [|discriminate].
  simpl in Hj. injection Hj as <- <-.
  assert (j < length l) by (apply nth_error_Some; congruence). lia.
Qed.

Lemma select_k_best_returns k outputs probs ix log_scores i B w :
  k <> 0 -> B <> 0 ->
  length outputs = B * k -> length probs = B * k -> length ix = B * k ->
  length log_scores = B * k ->
  Forall (fun row => length row = w) outputs -> i < w ->
  Forall (fun r => length r = k) probs -> Forall (fun r => length r = k) ix ->
  exists outputs' log_scores',
    select_k_best k outputs (B * k) probs ix log_scores i = Ok (outputs', log_scores').
Proof.
  intros Hk HB Lo Lp Lix Ls W Hiw Wp Wix. unfold select_k_best, floordiv.
  destruct (Nat.eqb_spec k 0) as [|_]; [contradiction|]. cbn [bind].
  rewrite Nat.div_mul by exact Hk.
  unfold add_log_scores. rewrite Lp, Ls, Nat.eqb_refl. cbn [bind].
  set (lp := zip_with log_prob_row probs log_scores).
  assert (Wlp : Forall (fun r => length r = k) lp).
  { apply Forall_forall. intros r Hr. apply In_zip_with in Hr.
    destruct Hr as (p & s & Hp & _ & ->). unfold log_prob_row. rewrite length_map.
    rewrite Forall_forall in Wp. now apply Wp. }
  assert (Llp : length (concat lp) = B * (k * k)).
  { rewrite (length_concat_uniform Wlp). unfold lp. rewrite length_zip_with, Lp, Ls. lia. }
  unfold view_rows. rewrite Llp.
  destruct (Nat.eqb_spec B 0) as [|_]; [contradiction|].
  rewrite (Nat.mul_comm B (k * k)), Nat.Div0.mod_mul, Nat.div_mul by exact HB.
  cbn [orb negb Nat.eqb bind].
  set (cands := chunks B (k * k) (concat lp)).
  assert (Wc : Forall (fun r => length r = k * k) cands).
  { apply chunks_rows. lia. }
  assert (Htk : Forall (fun d => exists tk, topk k d = Ok tk) cands).
  { eapply Forall_impl; [|exact Wc]. cbv beta. intros d Hd. unfold topk.
    destruct (Nat.leb_spec k (length d)); [eauto|]. rewrite Hd in *. nia. }
  destruct (mapM_ok_intro _ Htk) as [kk Hkk]. rewrite Hkk. cbn [bind].
  pose proof (mapM_length _ _ Hkk) as Lkk. unfold cands in Lkk. rewrite length_chunks in Lkk.
  pose proof (mapM_topk_lengths _ _ Hkk) as Wkk.
  assert (Hc : forall kb v c, In kb kk -> In (v, c) kb -> c < k * k).
  { intros kb v c Hkb Hvc. destruct (mapM_In _ _ _ Hkk Hkb) as (cand & Hcand & Htop).
    unfold topk in Htop. destruct (k <=? length cand); [|discriminate].
    injection Htop as <-.
    assert (Hvc' : In (v, c) (isort ge_val (indexed cand))).
    { rewrite <- (firstn_skipn k). apply in_or_app. now left. }
    eapply Permutation_in in Hvc'; [|apply isort_perm]. apply in_indexed in Hvc'.
    rewrite Forall_forall in Wc. rewrite <- (Wc _ Hcand).
    apply nth_error_Some. congruence. }
  set (k_ix := map (map snd) kk).
  set (row := map (fun vr : nat * list nat =>
                     map (fun c => c / k + fst vr * k) (snd vr)) (enumerate k_ix)).
  set (col := map (map (fun c => c mod k)) k_ix).
  assert (Wrow : Forall (fun r => length r = k) row).
  { unfold row. rewrite Forall_map. apply Forall_forall. intros [b cs] Hin. simpl.
    rewrite length_map. apply In_nth_error in Hin. destruct Hin as [j Hj].
    unfold enumerate in Hj. rewrite nth_error_enumerate_from in Hj.
    unfold k_ix in Hj. rewrite nth_error_map in Hj.
    destruct (nth_error kk j) as [kb|] eqn:E; [|discriminate].
    simpl in Hj. injection Hj as _ <-. rewrite length_map.
    rewrite Forall_forall in Wkk. apply Wkk. eapply nth_error_In; eauto. }
  assert (Lrow : length row = B).
  { unfold row, enumerate, k_ix. now rewrite length_map, length_enumerate_from, length_map. }
  assert (Wcol : Forall (fun r => length r = k) col).
  { unfold col, k_ix. rewrite !Forall_map. eapply Forall_impl; [|exact Wkk].
    cbv beta. intros kb Hkb. now rewrite !length_map. }
  assert (Lcol : length col = B).
  { unfold col, k_ix. now rewrite !length_map. }
  assert (Hrow : forall r, In r (concat row) -> r < B * k).
  { intros r Hr. apply in_concat in Hr. destruct Hr as (rs & Hrs & Hr).
    unfold row in Hrs. apply in_map_iff in Hrs. destruct Hrs as ([b cs] & <- & Hbc).
    simpl in Hr. apply in_map_iff in Hr. destruct Hr as (c & <- & Hcin).
    pose proof (in_enumerate_from _ _ _ _ Hbc) as Hb.
    unfold k_ix in Hb. rewrite length_map, Lkk in Hb.
    apply In_nth_error in Hbc. destruct Hbc as [j Hj].
    unfold enumerate in Hj. rewrite nth_error_enumerate_from in Hj.
    unfold k_ix in Hj. rewrite nth_error_map in Hj.
    destruct (nth_error kk j) as [kb|] eqn:E; [|discriminate].
    simpl in Hj. injection Hj as _ <-.
    apply in_map_iff in Hcin. destruct Hcin as ([v c'] & Hc' & Hvc). simpl in Hc'. subst c'.
    assert (Hck : c < k * k) by (eapply Hc; [eapply nth_error_In; eauto|exact Hvc]).
    assert (Hdiv : c / k < k) by (apply Nat.Div0.div_lt_upper_bound; lia).
    nia. }
  assert (Hcol : forall c, In c (concat col) -> c < k).
  { intros c Hcin. apply in_concat in Hcin. destruct Hcin as (cs & Hcs & Hcin).
    unfold col in Hcs. apply in_map_iff in Hcs. destruct Hcs as (cs0 & <- & _).
    apply in_map_iff in Hcin. destruct Hcin as (c0 & <- & _).
    apply Nat.mod_upper_bound. exact Hk. }
  assert (Hpar : Forall (fun r => exists p, py_get outputs (Z.of_nat r) = Ok p) (concat row)).
  { apply Forall_forall. intros r Hr. specialize (Hrow _ Hr).
    destruct (nth_error outputs r) as [p|] eqn:E.
    - exists p. now apply py_get_nat.
    - apply nth_error_None in E. lia. }
  destruct (mapM_ok_intro _ Hpar) as [parents Hparents]. rewrite Hparents. cbn [bind].
  pose proof (mapM_length _ _ Hparents) as Lpar.
  rewrite (length_concat_uniform Wrow), Lrow in Lpar.
  unfold expand_rows at 1. rewrite Lpar, Lo, Nat.eqb_refl. cbn [bind].
  assert (Htoks : Forall (fun rc : nat * nat =>
                            exists t, (r <- py_get ix (Z.of_nat (fst rc)) ;;
                                       py_get r (Z.of_nat (snd rc))) = Ok t)
                         (combine (concat row) (concat col))).
  { apply Forall_forall. intros [r c] Hin. simpl.
    pose proof (Hrow _ (in_combine_l _ _ _ _ Hin)) as Hr.
    pose proof (Hcol _ (in_combine_r _ _ _ _ Hin)) as Hcc.
    destruct (nth_error ix r) as [irow|] eqn:E; [|apply nth_error_None in E; lia].
    rewrite (proj2 (py_get_nat ix r irow) E). cbn [bind].
    assert (Li : length irow = k).
    { rewrite Forall_forall in Wix. apply Wix. eapply nth_error_In; eauto. }
    destruct (nth_error irow c) as [t|] eqn:Et; [|apply nth_error_None in Et; lia].
    exists t. now apply py_get_nat. }
  destruct (mapM_ok_intro _ Htoks) as [toks Htoks']. rewrite Htoks'. cbn [bind].
  pose proof (mapM_length _ _ Htoks') as Ltoks.
  rewrite length_combine, (length_concat_uniform Wrow), (length_concat_uniform Wcol),
    Lrow, Lcol, Nat.min_id in Ltoks.
  set (zipped := zip_with (fun old new : list Z => firstn i new ++ skipn i old)
                          outputs parents).
  assert (Lz : length zipped = B * k).
  { unfold zipped. rewrite length_zip_with, Lo, Lpar. apply Nat.min_id. }
  unfold expand_rows. rewrite Ltoks, Lz, Nat.eqb_refl. cbn [bind].
  assert (Hset : Forall (fun rt : list Z * Z =>
                           exists row', set_item i (snd rt) (fst rt) = Ok row')
                        (combine zipped toks)).
  { apply Forall_forall. intros [z t] Hin. simpl.
    apply in_combine_l in Hin. unfold zipped in Hin. apply In_zip_with in Hin.
    destruct Hin as (old & new & Hold & Hnew & ->).
    destruct (mapM_In _ _ _ Hparents Hnew) as (r & _ & Hr).
    apply py_get_nat in Hr. apply nth_error_In in Hr.
    rewrite Forall_forall in W.
    pose proof (W _ Hold) as Lold. pose proof (W _ Hr) as Lnew.
    unfold set_item. rewrite length_app, length_firstn, length_skipn, Lold, Lnew.
    destruct (Nat.ltb_spec i (Nat.min i w + (w - i))); [eauto|lia]. }
  destruct (mapM_ok_intro _ Hset) as [outputs' Hout]. rewrite Hout. cbn [bind]. eauto.
Qed.

Lemma compute_k_best_shaped :
  forall k eos_id outputs out log_scores i B w,
    k <> 0 -> B <> 0 ->
    length outputs = B * k -> length out = B * k -> length log_scores = B * k ->
    Forall (fun row => length row = w) outputs -> 1 <= i -> i < w ->
    Forall (fun dist => k <= length dist) out ->
    exists outputs' log_scores',
      compute_k_best k eos_id outputs out log_scores i = Ok (outputs', log_scores') /\
      length outputs' = B * k /\ length log_scores' = B * k /\
      Forall (fun row => length row = w) outputs'.
Proof.
  intros k eos_id outputs out log_scores i B w Hk HB Lo Lout Ls W Hi Hiw Wout.
  destruct (@masked_topk_returns k eos_id outputs out i w Hk ltac:(congruence) W Hi Hiw Wout)
    as (probs & ix & Hm).
  destruct (masked_topk_rows _ _ _ _ _ Hm) as (_ & _ & Lp & Lix & Wp & Wix & _).
  destruct (@select_k_best_returns k outputs probs ix log_scores i B w Hk HB Lo
              ltac:(congruence) ltac:(congruence) Ls W Hiw Wp Wix)
    as (outputs' & log_scores' & Hs).
  assert (Hc : compute_k_best k eos_id outputs out log_scores i = Ok (outputs', log_scores')).
  { unfold compute_k_best. rewrite Hm. cbn [bind]. now rewrite Lout. }
  exists outputs', log_scores'. split; [exact Hc|].
  assert (Hs' : select_k_best k outputs (length outputs) probs ix log_scores i
                = Ok (outputs', log_scores')) by now rewrite Lo.
  destruct (select_k_best_rows log_scores i W Wp Wix ltac:(congruence) ltac:(congruence)
              ltac:(congruence) Hs')
    as (B' & _ & _ & _ & _ & Lo' & Lsc' & _).
  split; [congruence|]. split; [congruence|].
  unfold compute_k_best in Hc. rewrite Hm in Hc. cbn [bind] in Hc.
  apply select_k_best_new_rows in Hc.
  eapply Forall_impl; [|exact Hc]. cbv beta.
  intros row' (parent & old & tok & Hp & Ho & Hset).
  rewrite Forall_forall in W.
  assert (Hlen : length parent = length old) by (rewrite (W _ Hp), (W _ Ho); reflexivity).
  destruct (@nth_error_spliced _ _ 0 _ _ _ _ Hlen Hset) as (_ & Lr & _).
  rewrite Lr. now apply W.
Qed.
(** X18.  On a state of [B * k] rows of one width, with as many rows of
    probabilities (each over at least [k] tokens) and as many scores, and
    at a timestep [1 <= i] inside the rows, [compute_k_best] raises
    nothing: it returns a state of the same number of rows and scores,
    whose rows still have that width. *)
Theorem compute_k_best_returns :
  forall k eos_id outputs out log_scores i B w,
    k <> 0 -> B <> 0 ->
    length outputs = B * k -> length out = B * k -> length log_scores = B * k ->
    Forall (fun row => length row = w) outputs -> 1 <= i -> i < w ->
    Forall (fun dist => k <= length dist) out ->
    exists outputs' log_scores',
      compute_k_best k eos_id outputs out log_scores i = Ok (outputs', log_scores') /\
      length outputs' = B * k /\ length log_scores' = B * k /\
      Forall (fun row => length row = w) outputs'.
Proof. exact compute_k_best_shaped. Qed.
End StepReturns.

Lemma compute_k_best_returns_witness :
  2 <> 0 /\ 1 <> 0 /\
  Forall (fun row : list Z => length row = 3) [[1; 3; 0]; [1; 4; 0]]%Z /\
  Forall (fun dist : list Q => 2 <= length dist)
         [[0; 0; 1 # 8; 1 # 2; 1 # 4]; [0; 0; 1 # 2; 1 # 4; 1 # 8]]%Q /\
  exists outputs' log_scores',
    compute_k_best (F := QFloat) 2 2%Z [[1; 3; 0]; [1; 4; 0]]%Z
                   [[0; 0; 1 # 8; 1 # 2; 1 # 4]; [0; 0; 1 # 2; 1 # 4; 1 # 8]]%Q
                   [(-1)%Q; (-5)%Q] 2
    = Ok (outputs', log_scores') /\
    length outputs' = 1 * 2 /\ length log_scores' = 1 * 2 /\
    Forall (fun row => length row = 3) outputs'.
Proof.
  assert (W : Forall (fun row : list Z => length row = 3) [[1; 3; 0]; [1; 4; 0]]%Z)
    by (repeat constructor).
  assert (Wd : Forall (fun dist : list Q => 2 <= length dist)
                      [[0; 0; 1 # 8; 1 # 2; 1 # 4]; [0; 0; 1 # 2; 1 # 4; 1 # 8]]%Q)
    by (repeat constructor; simpl; lia).
  split; [discriminate|]. split; [discriminate|]. split; [exact W|]. split; [exact Wd|].
  refine (@compute_k_best_returns QFloat 2 2%Z [[1; 3; 0]; [1; 4; 0]]%Z
            [[0; 0; 1 # 8; 1 # 2; 1 # 4]; [0; 0; 1 # 2; 1 # 4; 1 # 8]]%Q
            [(-1)%Q; (-5)%Q] 2 1 3 _ _ eq_refl eq_refl eq_refl W _ _ Wd);
    try discriminate; lia.
Defined.

(** ** The search on a well-behaved model *)

Section SearchReturns.
Context {F : FloatOps}.

Lemma init_vars_returns self src :
  beam_size self <> 0 -> 2 <= max_len self ->
  length (first_step (model self) src) = length src ->
  Forall (fun dist => beam_size self <= length dist /\
                      forall tk, topk (beam_size self) dist = Ok tk ->
                                 Forall (fun vi => f_leb (fst vi) (f_of_Z 0) = false) tk)
         (first_step (model self) src) ->
  exists outputs log_scores,
    init_vars self src = ([EvEncode; EvDecode 1], Ok (outputs, log_scores)) /\
    length outputs = length src * beam_size self /\
    length log_scores = length src * beam_size self /\
    Forall (fun row => length row = max_len self) outputs.
Proof.
  intros Hk Hw Lfs Wfs. unfold init_vars. cbn [bindM emit lift app].
  assert (Htk : Forall (fun d => exists tk, topk (beam_size self) d = Ok tk)
                       (first_step (model self) src)).
  { eapply Forall_impl; [|exact Wfs]. cbv beta. intros d [Hd _]. unfold topk.
    destruct (Nat.leb_spec (beam_size self) (length d)); [eauto|lia]. }
  destruct (mapM_ok_intro _ Htk) as [tk Etk]. rewrite Etk. cbn [bindM lift app].
  pose proof (mapM_topk_lengths _ _ Etk) as Wtk.
  pose proof (mapM_length _ _ Etk) as Ltk.
  assert (Hlog : Forall (fun p => exists l, math_log p = Ok l)
                        (concat (map (map fst) tk))).
  { apply Forall_forall. intros p Hp. apply in_concat in Hp.
    destruct Hp as (ps & Hps & Hp). apply in_map_iff in Hps.
    destruct Hps as (tkb & <- & Htkb). apply in_map_iff in Hp.
    destruct Hp as ([v j] & Hv & Hvj). simpl in Hv. subst v.
    destruct (mapM_In _ _ _ Etk Htkb) as (d & Hd & Htop).
    rewrite Forall_forall in Wfs. destruct (Wfs _ Hd) as [_ Hpos].
    specialize (Hpos _ Htop). rewrite Forall_forall in Hpos.
    specialize (Hpos _ Hvj). simpl in Hpos.
    unfold math_log. rewrite Hpos. eauto. }
  destruct (mapM_ok_intro _ Hlog) as [ls Els]. rewrite Els. cbn [bindM lift app].
  assert (Hsos : Forall (fun row => exists row', set_item 0 (sos_id self) row = Ok row')
                        (repeat (repeat 0%Z (max_len self)) (beam_size self * length src))).
  { apply Forall_forall. intros row Hrow. apply repeat_spec in Hrow. subst row.
    unfold set_item. rewrite repeat_length.
    destruct (Nat.ltb_spec 0 (max_len self)); [eauto|lia]. }
  destruct (mapM_ok_intro _ Hsos) as [o0 Eo0]. rewrite Eo0. cbn [bindM lift app].
  pose proof (mapM_length _ _ Eo0) as Lo0. rewrite repeat_length in Lo0.
  assert (Wo0 : Forall (fun row => length row = max_len self) o0).
  { apply Forall_forall. intros row Hrow.
    destruct (mapM_In _ _ _ Eo0 Hrow) as (z & Hz & Hset). apply repeat_spec in Hz. subst z.
    apply set_item_ok in Hset. destruct Hset as [H0 ->].
    rewrite repeat_length in H0.
    rewrite length_app, length_firstn. cbn [length].
    rewrite length_skipn, repeat_length. lia. }
  assert (Wix : Forall (fun r : list Z => length r = beam_size self)
                       (map (map (fun vi : float * nat => Z.of_nat (snd vi))) tk)).
  { rewrite Forall_map. eapply Forall_impl; [|exact Wtk]. cbv beta.
    intros r Hr. now rewrite length_map. }
  assert (Lix : length (concat (map (map (fun vi : float * nat => Z.of_nat (snd vi))) tk))
                = length o0).
  { rewrite (length_concat_uniform Wix), length_map, Ltk, Lfs, Lo0. apply Nat.mul_comm. }
  unfold set_column, expand_rows. rewrite Lix, Nat.eqb_refl. cbn [bind].
  assert (Hset : Forall (fun rv : list Z * Z =>
                           exists row', set_item 1 (snd rv) (fst rv) = Ok row')
                        (combine o0 (concat (map (map (fun vi : float * nat =>
                                                         Z.of_nat (snd vi))) tk)))).
  { apply Forall_forall. intros [row v] Hin. simpl. apply in_combine_l in Hin.
    rewrite Forall_forall in Wo0. unfold set_item. rewrite (Wo0 _ Hin).
    destruct (Nat.ltb_spec 1 (max_len self)); [eauto|lia]. }
  destruct (mapM_ok_intro _ Hset) as [o Eo]. rewrite Eo. cbn [bindM lift retM app].
  exists o, ls. split; [reflexivity|].
  pose proof (mapM_length _ _ Eo) as Lo. rewrite length_combine, Lix, Nat.min_id, Lo0 in Lo.
  split; [rewrite Lo; apply Nat.mul_comm|]. split.
  - rewrite (mapM_length _ _ Els).
    assert (Wp : Forall (fun r : list float => length r = beam_size self) (map (map fst) tk)).
    { rewrite Forall_map. eapply Forall_impl; [|exact Wtk]. cbv beta.
      intros r Hr. now rewrite length_map. }
    now rewrite (length_concat_uniform Wp), length_map, Ltk, Lfs.
  - apply Forall_forall. intros row Hrow.
    destruct (mapM_In _ _ _ Eo Hrow) as ([row0 v] & Hin & Hs). simpl in Hs.
    apply in_combine_l in Hin. rewrite Forall_forall in Wo0.
    apply set_item_ok in Hs. destruct Hs as [H1 ->].
    rewrite length_app, length_firstn. cbn [length]. rewrite length_skipn.
    rewrite (Wo0 _ Hin) in *. lia.
Qed.

Lemma search_loop_returns self src fin B w m :
  beam_size self <> 0 -> B <> 0 ->
  (forall prefix,
      length prefix = B * beam_size self ->
      length (fst (decoder (model self) src prefix)) = B * beam_size self /\
      Forall (fun dist => beam_size self <= length dist)
             (fst (decoder (model self) src prefix))) ->
  forall t outputs log_scores attn,
    length outputs = B * beam_size self -> length log_scores = B * beam_size self ->
    Forall (fun row => length row = w) outputs ->
    1 <= t -> t + m <= w ->
    exists ev outputs' log_scores' attn',
      search_loop self src fin (seq t m) outputs log_scores attn
      = (ev, Ok (outputs', log_scores', attn')) /\
      length outputs' = B * beam_size self /\ length log_scores' = B * beam_size self /\
      Forall (fun row => length row = w) outputs'.
Proof.
  intros Hk HB Hdec. induction m as [|m IH]; intros t outputs log_scores attn Lo Ls W Ht Htm.
  - simpl. unfold retM. do 4 eexists. split; [reflexivity|]. auto.
  - cbn [seq search_loop]. unfold loop_body. cbn [bindM emit].
    destruct (Hdec (map (firstn t) outputs)) as [Lout Wout]; [now rewrite length_map|].
    destruct (decoder (model self) src (map (firstn t) outputs)) as [out attn0].
    simpl in Lout, Wout.
    destruct (@compute_k_best_shaped _ (beam_size self) (eos_id self) outputs out log_scores
                t B w Hk HB Lo Lout Ls W Ht ltac:(lia) Wout)
      as (o1 & s1 & Hc & Lo1 & Ls1 & W1).
    rewrite Hc. cbn [bindM lift retM app].
    assert (Hcol : exists col, column o1 (Z.of_nat t) = Ok col).
    { unfold column. apply mapM_ok_intro. eapply Forall_impl; [|exact W1]. cbv beta.
      intros row Hrow. destruct (nth_error row t) as [x|] eqn:E.
      - exists x. now apply py_get_nat.
      - apply nth_error_None in E. lia. }
    destruct Hcol as [col ->]. cbn [bindM lift retM app].
    destruct (torch_equal col fin).
    + do 4 eexists. split; [reflexivity|]. auto.
    + assert (Ht' : 1 <= S t) by lia. assert (Htm' : S t + m <= w) by lia.
      destruct (IH (S t) o1 s1 (Some attn0) Lo1 Ls1 W1 Ht' Htm')
        as (ev & o' & s' & a' & -> & Hrest).
      do 4 eexists. split; [reflexivity|]. exact Hrest.
Qed.

(** X19.  On a model that gives one first-step distribution per sentence
    and one distribution per row at every later step, each over at least
    [beam_size] tokens, with positive top-k first-step probabilities,
    the search itself raises nothing for a batch that is not empty, a beam
    width that is not 0 and [max_len >= 2]: [init_vars] and the loop both
    return, with [len(batch) * beam_size] rows of width [max_len] and as
    many scores. *)
Theorem search_returns_on_shaped_model :
  forall self batch fin,
    beam_size self <> 0 -> batch <> [] -> 2 <= max_len self ->
    length (first_step (model self) batch) = length batch ->
    Forall (fun dist => beam_size self <= length dist /\
                        forall tk, topk (beam_size self) dist = Ok tk ->
                                   Forall (fun vi => f_leb (fst vi) (f_of_Z 0) = false) tk)
           (first_step (model self) batch) ->
    (forall prefix,
        length prefix = length batch * beam_size self ->
        length (fst (decoder (model self) batch prefix)) = length batch * beam_size self /\
        Forall (fun dist => beam_size self <= length dist)
               (fst (decoder (model self) batch prefix))) ->
    exists outputs log_scores ev outputs' log_scores' attn,
      init_vars self batch = ([EvEncode; EvDecode 1], Ok (outputs, log_scores)) /\
      search_loop self batch fin (seq 2 (max_len self - 2)) outputs log_scores None
      = (ev, Ok (outputs', log_scores', attn)) /\
      length outputs' = length batch * beam_size self /\
      length log_scores' = length batch * beam_size self /\
      Forall (fun row => length row = max_len self) outputs'.
Proof.
  intros self batch fin Hk Hb Hw Lfs Wfs Hdec.
  destruct (init_vars_returns self batch Hk Hw Lfs Wfs) as (o & s & Hinit & Lo & Ls & Wo).
  assert (HB : length batch <> 0) by (destruct batch; [congruence|discriminate]).
  destruct (@search_loop_returns self batch fin (length batch) (max_len self)
              (max_len self - 2) Hk HB Hdec 2 o s None Lo Ls Wo ltac:(lia) ltac:(lia))
    as (ev & o' & s' & a' & Hloop & Hrest).
  exists o, s, ev, o', s', a'. auto.
Qed.
End SearchReturns.

Lemma search_returns_on_shaped_model_witness :
  exists outputs log_scores ev outputs' log_scores' attn,
    init_vars (F := QFloat) (toy_decoder next_eos 4 2) [[3; 4]%Z]
    = ([EvEncode; EvDecode 1], Ok (outputs, log_scores)) /\
    search_loop (toy_decoder next_eos 4 2) [[3; 4]%Z] [2; 2]%Z (seq 2 (4 - 2))
                outputs log_scores None
    = (ev, Ok (outputs', log_scores', attn)) /\
    length outputs' = 1 * 2 /\ length log_scores' = 1 * 2 /\
    Forall (fun row => length row = 4) outputs'.
Proof.
  refine (@search_returns_on_shaped_model QFloat (toy_decoder next_eos 4 2) [[3; 4]%Z]
            [2; 2]%Z _ _ _ eq_refl _ _).
  - discriminate.
  - discriminate.
  - simpl. lia.
  - constructor; [|constructor]. split; [simpl; lia|].
    intros tk H. vm_compute in H. injection H as <-. repeat constructor.
  - intros prefix Hp. simpl. rewrite length_map. split; [exact Hp|].
    rewrite Forall_map. apply Forall_forall. intros row _. simpl. lia.
Defined.

(** ** From a row of ids to words *)

Section RowToWords.
Context {F : FloatOps}.

Lemma py_get_in_range {A} (l : list A) (i : Z) :
  (- Z.of_nat (length l) <= i < Z.of_nat (length l))%Z ->
  exists a, py_get l i = Ok a /\
            nth_error l (Z.to_nat (if (i <? 0)%Z then i + Z.of_nat (length l) else i)%Z)
            = Some a.
Proof.
  intros Hi. unfold py_get.
  set (j := (if (i <? 0)%Z then (i + Z.of_nat (length l))%Z else i)).
  assert (Hj : (0 <= j < Z.of_nat (length l))%Z).
  { unfold j. destruct (Z.ltb_spec i 0); lia. }
  destruct (Z.ltb_spec j 0); [lia|].
  destruct (nth_error l (Z.to_nat j)) as [a|] eqn:E; [eauto|].
  apply nth_error_None in E. lia.
Qed.

Lemma py_get_out_of_range {A} (l : list A) (i : Z) :
  (i < - Z.of_nat (length l) \/ Z.of_nat (length l) <= i)%Z ->
  py_get l i = Raise IndexError.
Proof.
  intros Hi. unfold py_get.
  set (j := (if (i <? 0)%Z then (i + Z.of_nat (length l))%Z else i)).
  destruct (Z.ltb_spec j 0); [reflexivity|].
  assert (Hj : (Z.of_nat (length l) <= j)%Z).
  { unfold j in *. destruct (Z.ltb_spec i 0); lia. }
  destruct (nth_error l (Z.to_nat j)) as [a|] eqn:E; [|reflexivity].
  assert (Z.to_nat j < length l) by (apply nth_error_Some; congruence). lia.
Qed.

Lemma mapM_py_get_cases {A} (l : list A) (ids : list Z) :
  (Forall (fun i => - Z.of_nat (length l) <= i < Z.of_nat (length l))%Z ids ->
   exists words, mapM (py_get l) ids = Ok words /\ length words = length ids) /\
  (Exists (fun i => i < - Z.of_nat (length l) \/ Z.of_nat (length l) <= i)%Z ids ->
   mapM (py_get l) ids = Raise IndexError).
Proof.
  split.
  - intros H.
    assert (Hall : Forall (fun i => exists a, py_get l i = Ok a) ids).
    { eapply Forall_impl; [|exact H]. cbv beta. intros i Hi.
      destruct (@py_get_in_range _ l i Hi) as (a & Ha & _). eauto. }
    destruct (mapM_ok_intro _ Hall) as [words Hw]. exists words.
    split; [exact Hw|]. eapply mapM_length; eauto.
  - induction ids as [|i ids IH]; intros H; [inversion H|]. simpl.
    destruct (py_get l i) as [a|e] eqn:Ea.
    + inversion H as [? ? Hi|? ? Hrest]; subst.
      * rewrite (@py_get_out_of_range _ l i Hi) in Ea. discriminate.
      * simpl. now rewrite (IH Hrest).
    + simpl. unfold py_get in Ea.
      destruct (_ <? 0)%Z; [congruence|].
      destruct (nth_error l _); congruence.
Qed.

(** X20.  The words of a row: the ids after the first column up to the
    first [<eos>], or all of them when the row holds no [<eos>] after the
    first column, looked up in the target vocabulary the way Python
    indexes a list.  With every id from [-len(itos)] up to
    [len(itos) - 1] there is one word per id, a negative id counting from
    the end of the vocabulary; an id outside this range raises
    [IndexError]. *)
Theorem trim_and_itos_words :
  forall self : BeamSearch,
    (forall sos pre post,
        ~ In (eos_id self) (sos :: pre) -> ~ In (eos_id self) post ->
        trim_and_itos self (sos :: pre ++ eos_id self :: post)
        = mapM (py_get (itos self)) pre) /\
    (forall first rest,
        ~ In (eos_id self) rest ->
        trim_and_itos self (first :: rest) = mapM (py_get (itos self)) rest) /\
    (forall ids,
        Forall (fun i => - Z.of_nat (length (itos self)) <= i
                         < Z.of_nat (length (itos self)))%Z ids ->
        exists words,
          mapM (py_get (itos self)) ids = Ok words /\ length words = length ids) /\
    (forall ids,
        Exists (fun i => i < - Z.of_nat (length (itos self))
                         \/ Z.of_nat (length (itos self)) <= i)%Z ids ->
        mapM (py_get (itos self)) ids = Raise IndexError).
Proof.
  intros self. destruct (trim_and_itos_cases self) as [Hone Hnone].
  split; [exact Hone|]. split; [|split].
  - intros first rest Hrest.
    destruct (Z.eq_dec first (eos_id self)) as [->|Hne].
    + unfold trim_and_itos.
      destruct (_length_cases (eos_id self)) as (_ & _ & Hzero & _).
      rewrite (Hzero _ Hrest). cbn [bind]. now rewrite firstn_all.
    + apply Hnone. intros [Heq|Hin]; [congruence|contradiction].
  - intros ids. apply (proj1 (mapM_py_get_cases (itos self) ids)).
  - intros ids. apply (proj2 (mapM_py_get_cases (itos self) ids)).
Qed.
End RowToWords.

Lemma trim_and_itos_words_witness :
  ~ In 2%Z [1; 3; 4]%Z /\ ~ In 2%Z [0; 0]%Z /\
  trim_and_itos (F := QFloat) (toy_decoder next_eos 6 1) (1 :: [3; 4] ++ 2 :: [0; 0])%Z
  = mapM (py_get ["<pad>"; "<sos>"; "<eos>"; "a"; "b"]%string) [3; 4]%Z.
Proof.
  assert (H1 : ~ In 2%Z [1; 3; 4]%Z) by (simpl; intros [H|[H|[H|[]]]]; discriminate).
  assert (H2 : ~ In 2%Z [0; 0]%Z) by (simpl; intros [H|[H|[]]]; discriminate).
  split; [exact H1|]. split; [exact H2|].
  exact (proj1 (@trim_and_itos_words QFloat (toy_decoder next_eos 6 1))
           1%Z [3; 4]%Z [0; 0]%Z H1 H2).
Defined.

(** ** Reordering the hypotheses by normalized score *)

Section NormalizeStage.
Context {F : FloatOps}.

(** X21.  Length normalization in [beam_search] loses no hypothesis and
    invents none: on [batch] rows of [k] beams each, a stage that returns
    gives every sentence a permutation of the hypotheses it had, and
    without a coefficient the hypotheses are returned as they are. *)
Theorem normalize_stage_permutes :
  forall self length_norm outputs log_scores (translated : list (list hypothesis)) k out,
    normalize_stage self length_norm outputs log_scores translated = Ok out ->
    length outputs = length translated -> length log_scores = length translated ->
    Forall (fun r => length r = k) outputs ->
    Forall (fun r => length r = k) log_scores ->
    Forall (fun r => length r = k) translated ->
    length out = length translated /\
    (effective_length_norm self length_norm = None -> out = translated) /\
    forall b hyps,
      nth_error out b = Some hyps ->
      exists orig, nth_error translated b = Some orig /\ Permutation hyps orig.
Proof.
  intros self length_norm outputs log_scores translated k out H Lo Ls Wo Ws Wt.
  split; [eapply normalize_stage_length; eauto|].
  unfold normalize_stage in H.
  destruct (effective_length_norm self length_norm) as [coff|].
  2:{ injection H as <-. split; [reflexivity|]. intros b hyps Hb. eauto. }
  split; [discriminate|].
  inv_bind H. rename x into lengths. inv_bind H. destruct x as [scores indices].
  pose proof (@mapM_rows_lengths _ _ _ k _ _ E Wo) as Wl.
  pose proof (mapM_length _ _ E) as Ll.
  assert (Hll : length lengths = length log_scores) by congruence.
  destruct (@length_normalize_shaped _ lengths log_scores coff k Hll Wl Ws)
    as (scores' & indices' & Hn & _ & Li & Hrows).
  rewrite E0 in Hn. injection Hn as <- <-.
  intros b hyps Hb.
  destruct (mapM_nth_error _ _ _ H Hb) as ([orig ids] & Hc & Ht). simpl in Ht.
  rewrite nth_error_combine in Hc.
  destruct (nth_error translated b) as [orig'|] eqn:Eo; [|discriminate].
  destruct (nth_error indices b) as [ids'|] eqn:Ei; [|discriminate].
  injection Hc as -> ->. exists orig. split; [reflexivity|].
  assert (Hb' : b < length translated) by (apply nth_error_Some; congruence).
  destruct (nth_error lengths b) as [ls|] eqn:El; [|apply nth_error_None in El; lia].
  destruct (nth_error log_scores b) as [ps|] eqn:Ep; [|apply nth_error_None in Ep; lia].
  destruct (Hrows _ _ _ El Ep) as (ids2 & sc & ls' & ps' & Hi2 & _ & _ & _ & _ & Hperm & _).
  rewrite Ei in Hi2. injection Hi2 as <-.
  assert (Lorig : length orig = k).
  { rewrite Forall_forall in Wt. apply Wt. eapply nth_error_In; eauto. }
  rewrite <- Lorig in Hperm.
  destruct (take_indices_permutation _ Hperm) as (out' & Hout' & Hp' & _).
  rewrite Ht in Hout'. injection Hout' as <-. exact Hp'.
Qed.
End NormalizeStage.

Lemma normalize_stage_permutes_witness :
  normalize_stage (F := QFloat) (toy_decoder next_eos 5 2) (Some 0%Q)
                  [[[1; 3; 2; 0; 0]; [1; 4; 2; 0; 0]]]%Z [[(-1)%Q; (-4)%Q]]
                  [[Tokens ["a"%string]; Tokens ["b"%string]]]
  = Ok [[Tokens ["b"%string]; Tokens ["a"%string]]] /\
  length [[Tokens ["b"%string]; Tokens ["a"%string]]] = 1 /\
  forall b hyps,
    nth_error [[Tokens ["b"%string]; Tokens ["a"%string]]] b = Some hyps ->
    exists orig,
      nth_error [[Tokens ["a"%string]; Tokens ["b"%string]]] b = Some orig /\
      Permutation hyps orig.
Proof.
  assert (W1 : Forall (fun r : list (list Z) => length r = 2)
                      [[[1; 3; 2; 0; 0]; [1; 4; 2; 0; 0]]]%Z)
    by (constructor; [reflexivity|constructor]).
  assert (W2 : Forall (fun r : list Q => length r = 2) [[(-1)%Q; (-4)%Q]])
    by (constructor; [reflexivity|constructor]).
  assert (W3 : Forall (fun r : list hypothesis => length r = 2)
                      [[Tokens ["a"%string]; Tokens ["b"%string]]])
    by (constructor; [reflexivity|constructor]).
  split; [reflexivity|].
  destruct (@normalize_stage_permutes QFloat (toy_decoder next_eos 5 2) (Some 0%Q)
              [[[1; 3; 2; 0; 0]; [1; 4; 2; 0; 0]]]%Z [[(-1)%Q; (-4)%Q]]
              [[Tokens ["a"%string]; Tokens ["b"%string]]] 2
              [[Tokens ["b"%string]; Tokens ["a"%string]]] eq_refl eq_refl eq_refl
              W1 W2 W3)
    as (Hl & _ & Hp).
  split; [exact Hl|exact Hp].
Defined.
